(** * Metadata extraction engine of the EXIF viewer: a shallow embedding

    The Go package [parser] (format detection, the TIFF/IFD walker and the
    JPEG, PNG and WebP container walkers) is embedded as Rocq functions over
    byte lists.  The metadata map [ExifData] (a Go [map[string]string]) is a
    [gmap string string].  Of the package [main] the format probe
    [detectImageFormat] is embedded as well.

    Conventions of the embedding:
    - a Go [[]byte] is a [list byte]; indexing and slicing are bounds-checked
      and end in [Panic] where Go's runtime would panic;
    - the module is built for wasm, where a Go [int] has 32 bits.  Where a
      32-bit field read from the buffer enters the arithmetic of offsets
      (the TIFF walker, the PNG and WebP chunk loops) the conversion
      [int(uint32)] and every sum of [int]s wrap as they do there
      ([to_int], [+i], [*i]); the length of a buffer is the length of its
      list, and a statement whose offsets depend on it names the bound, below
      [2^31], under which it holds;
    - the sub-IFD recursion of the TIFF walker has no bound in the source, so
      it takes a recursion budget [fuel] and ends in [OutOfFuel] when the
      budget is used up; the container loops carry a private iteration bound
      that is shown never to be reached;
    - [compress/zlib] and the float rendering [%.2f] of the Go library are
      parameters of the development. *)

From Stdlib Require Import ZArith NArith List String Ascii Lia Bool DecimalString DecimalPos.
From Stdlib.Strings Require Import Byte.
From stdpp Require Import base option gmap strings.
Import ListNotations.
Open Scope Z_scope.

(** ** Outcomes of a Go computation *)

Inductive outcome (A : Type) : Type :=
| Ret (a : A)
| Panic
| OutOfFuel.
Arguments Ret {A} a.
Arguments Panic {A}.
Arguments OutOfFuel {A}.

Definition bind {A B : Type} (c : outcome A) (f : A -> outcome B) : outcome B :=
  match c with
  | Ret a => f a
  | Panic => Panic
  | OutOfFuel => OutOfFuel
  end.

Notation "x <- c ; k" := (bind c (fun x => k))
  (at level 20, c at level 100, k at level 200).
Notation "' pat <- c ; k" := (bind c (fun x => match x with pat => k end))
  (at level 20, pat pattern, c at level 100, k at level 200).

(** ** Byte slices *)

Definition u8 (b : byte) : Z := Z.of_N (Byte.to_N b).

Definition len (s : list byte) : Z := Z.of_nat (length s).

(** [s[i]] *)
Definition index (s : list byte) (i : Z) : outcome byte :=
  if (0 <=? i) && (i <? len s)
  then match nth_error s (Z.to_nat i) with
       | Some b => Ret b
       | None => Panic
       end
  else Panic.

(** [s[lo:hi]] *)
Definition slice (s : list byte) (lo hi : Z) : outcome (list byte) :=
  if (0 <=? lo) && (lo <=? hi) && (hi <=? len s)
  then Ret (firstn (Z.to_nat (hi - lo)) (skipn (Z.to_nat lo) s))
  else Panic.

(** [s[lo:]] *)
Definition slice_from (s : list byte) (lo : Z) : outcome (list byte) :=
  slice s lo (len s).

(** [s[:hi]] *)
Definition slice_to (s : list byte) (hi : Z) : outcome (list byte) :=
  slice s 0 hi.

Fixpoint bytes_eqb (a b : list byte) : bool :=
  match a, b with
  | [], [] => true
  | x :: a', y :: b' => Byte.eqb x y && bytes_eqb a' b'
  | _, _ => false
  end.

(** A Go string literal as its bytes; [lit0 s] is the literal followed by
    one NUL byte. *)
Definition lit (s : string) : list byte := list_byte_of_string s.
Definition lit0 (s : string) : list byte := list_byte_of_string s ++ [x00].

(** [bytes.IndexByte(s, c)], with [-1] when [c] does not occur. *)
Fixpoint IndexByte_from (s : list byte) (c : byte) (i : Z) : Z :=
  match s with
  | [] => -1
  | b :: s' => if Byte.eqb b c then i else IndexByte_from s' c (i + 1)
  end.
Definition IndexByte (s : list byte) (c : byte) : Z := IndexByte_from s c 0.

(** [bytes.TrimRight(s, "\x00")] *)
Fixpoint TrimRight0 (s : list byte) : list byte :=
  match s with
  | [] => []
  | b :: s' =>
      match TrimRight0 s' with
      | [] => if Byte.eqb b x00 then [] else [b]
      | t => b :: t
      end
  end.

(** ** [encoding/binary] *)

Inductive ByteOrder := LittleEndian | BigEndian.

Definition Uint16 (bo : ByteOrder) (b : list byte) : outcome Z :=
  b0 <- index b 0; b1 <- index b 1;
  Ret (match bo with
        | LittleEndian => Z.lor (u8 b0) (Z.shiftl (u8 b1) 8)
        | BigEndian => Z.lor (u8 b1) (Z.shiftl (u8 b0) 8)
        end).

Definition Uint32 (bo : ByteOrder) (b : list byte) : outcome Z :=
  b0 <- index b 0; b1 <- index b 1; b2 <- index b 2; b3 <- index b 3;
  Ret (match bo with
        | LittleEndian =>
            Z.lor (Z.lor (Z.lor (u8 b0) (Z.shiftl (u8 b1) 8))
                         (Z.shiftl (u8 b2) 16)) (Z.shiftl (u8 b3) 24)
        | BigEndian =>
            Z.lor (Z.lor (Z.lor (u8 b3) (Z.shiftl (u8 b2) 8))
                         (Z.shiftl (u8 b1) 16)) (Z.shiftl (u8 b0) 24)
        end).

(** ** The [int] of the target *)

(** Two's complement on 32 bits: the value an [int] holds after a sum or a
    conversion whose exact result is [n]. *)
Definition wrap_int (n : Z) : Z := (n + 2 ^ 31) mod 2 ^ 32 - 2 ^ 31.

(** [int(x)] for a [uint32] or [uint16] value [x] *)
Definition to_int (x : Z) : Z := wrap_int x.

(** [a + b] and [a * b] on [int] *)
Definition iadd (a b : Z) : Z := wrap_int (a + b).
Definition imul (a b : Z) : Z := wrap_int (a * b).

Infix "+i" := iadd (at level 50, left associativity).
Infix "*i" := imul (at level 40, left associativity).

(** ** [fmt] verbs *)

(** [%d] of a non-negative integer *)
Definition fmt_d (n : Z) : string :=
  NilEmpty.string_of_uint (N.to_uint (Z.to_N n)).

Fixpoint zeros (k : nat) : string :=
  match k with
  | O => EmptyString
  | S k' => String "0" (zeros k')
  end.

(** zero padding on the left up to width [w]: [%02d], [%04d], [%08X] *)
Definition pad0 (w : nat) (s : string) : string :=
  zeros (w - String.length s) +:+ s.

Definition hex_digit (d : Z) : ascii :=
  match d with
  | 0 => "0" | 1 => "1" | 2 => "2" | 3 => "3" | 4 => "4" | 5 => "5"
  | 6 => "6" | 7 => "7" | 8 => "8" | 9 => "9" | 10 => "A" | 11 => "B"
  | 12 => "C" | 13 => "D" | 14 => "E" | _ => "F"
  end%char.

Fixpoint hex_digits (k : nat) (n : Z) (acc : string) : string :=
  match k with
  | O => acc
  | S k' =>
      let acc' := String (hex_digit (n mod 16)) acc in
      if n / 16 =? 0 then acc' else hex_digits k' (n / 16) acc'
  end.

(** [%X] of a value below [2^32] *)
Definition fmt_X (n : Z) : string := hex_digits 8 n EmptyString.

Definition fmt_02d (n : Z) : string := pad0 2 (fmt_d n).
Definition fmt_04d (n : Z) : string := pad0 4 (fmt_d n).
Definition fmt_02X (n : Z) : string := pad0 2 (fmt_X n).
Definition fmt_08X (n : Z) : string := pad0 8 (fmt_X n).

(** ** parser.go: formats, results, detection *)

Inductive ImageFormat :=
| FormatUnknown
| FormatJPEG
| FormatTIFF
| FormatPNG
| FormatWebP
| FormatHEIF.

Abbreviation ExifData := (gmap string string).

Inductive error :=
| Errorf (msg : string)
| UnsupportedFormatError (Format : ImageFormat).

Definition Error (e : error) : string :=
  match e with
  | Errorf msg => msg
  | UnsupportedFormatError _ => "unsupported image format"
  end.

(** The pair [(ExifData, error)] returned by every [Parse]: either a map and
    a nil error, or a nil map and an error. *)
Inductive parsed :=
| Success (m : ExifData)
| Failure (e : error).

(** [data[i] == v] for an index [i] known to be in range, as a [bool];
    out of range the comparison is [false]. *)
Definition byte_at_is (data : list byte) (i : nat) (v : Z) : bool :=
  match nth_error data i with
  | Some b => u8 b =? v
  | None => false
  end.

Definition DetectFormat (data : list byte) : ImageFormat :=
  if len data <? 12 then FormatUnknown
  else if byte_at_is data 0 0xFF && byte_at_is data 1 0xD8 && byte_at_is data 2 0xFF
  then FormatJPEG
  else if (byte_at_is data 0 0x49 && byte_at_is data 1 0x49 &&
           byte_at_is data 2 0x2A && byte_at_is data 3 0x00) ||
          (byte_at_is data 0 0x4D && byte_at_is data 1 0x4D &&
           byte_at_is data 2 0x00 && byte_at_is data 3 0x2A)
  then FormatTIFF
  else if byte_at_is data 0 0x89 && byte_at_is data 1 0x50 &&
          byte_at_is data 2 0x4E && byte_at_is data 3 0x47
  then FormatPNG
  else if byte_at_is data 0 0x52 && byte_at_is data 1 0x49 &&
          byte_at_is data 2 0x46 && byte_at_is data 3 0x46 &&
          byte_at_is data 8 0x57 && byte_at_is data 9 0x45 &&
          byte_at_is data 10 0x42 && byte_at_is data 11 0x50
  then FormatWebP
  else if (12 <=? len data) && byte_at_is data 4 0x66 && byte_at_is data 5 0x74 &&
          byte_at_is data 6 0x79 && byte_at_is data 7 0x70
  then FormatHEIF
  else FormatUnknown.

(** ** The Go library functions taken as parameters *)

Section Parsers.

(** [zlib.NewReader] followed by [io.Copy]: the inflated bytes, or [None]
    when either call returns an error. *)
Variable zlib_inflate : list byte -> option (list byte).

(** [fmt.Sprintf("%.2f", float64(num)/float64(den))] *)
Variable fmt_f2 : Z -> Z -> string.

(** ** exif_simple: the TIFF/IFD walker *)

Definition tagImageDescription : Z := 0x010E.
Definition tagMake : Z := 0x010F.
Definition tagModel : Z := 0x0110.
Definition tagOrientation : Z := 0x0112.
Definition tagSoftware : Z := 0x0131.
Definition tagDateTime : Z := 0x0132.
Definition tagArtist : Z := 0x013B.
Definition tagCopyright : Z := 0x8298.
Definition tagExifIFDPointer : Z := 0x8769.
Definition tagGPSInfoIFDPointer : Z := 0x8825.
Definition tagExposureTime : Z := 0x829A.
Definition tagFNumber : Z := 0x829D.
Definition tagISOSpeedRatings : Z := 0x8827.
Definition tagDateTimeOriginal : Z := 0x9003.
Definition tagDateTimeDigitized : Z := 0x9004.
Definition tagFocalLength : Z := 0x920A.
Definition tagFlash : Z := 0x9209.
Definition tagUserComment : Z := 0x9286.
Definition tagImageUniqueID : Z := 0xA420.
Definition tagWhiteBalance : Z := 0xA403.
Definition tagCameraOwnerName : Z := 0xA430.
Definition tagBodySerialNumber : Z := 0xA431.
Definition tagLensMake : Z := 0xA433.
Definition tagLensModel : Z := 0xA434.
Definition tagLensSerialNumber : Z := 0xA435.

(** The first [switch] of [parseTag]: the rendered value of an entry, the
    empty string when the entry is not decoded.  [offset] is the offset of the entry's
    4-byte value field. *)
Definition tag_value (tag dataType count offset : Z) (data : list byte)
    (byteOrder : ByteOrder) : outcome string :=
  if dataType =? 2 then
    if count <=? 4 then
      s <- slice data offset (offset +i to_int count);
      Ret (string_of_list_byte (TrimRight0 s))
    else
      b <- slice data offset (offset +i 4);
      v <- Uint32 byteOrder b;
      let valueOffset := to_int v in
      if valueOffset +i to_int count <=? len data then
        s <- slice data valueOffset (valueOffset +i to_int count);
        Ret (string_of_list_byte (TrimRight0 s))
      else Ret EmptyString
  else if dataType =? 3 then
    if count =? 1 then
      b <- slice data offset (offset +i 2);
      v <- Uint16 byteOrder b;
      Ret (fmt_d v)
    else Ret EmptyString
  else if dataType =? 4 then
    if count =? 1 then
      b <- slice data offset (offset +i 4);
      v <- Uint32 byteOrder b;
      Ret (fmt_d v)
    else Ret EmptyString
  else if dataType =? 5 then
    if count =? 1 then
      b <- slice data offset (offset +i 4);
      v <- Uint32 byteOrder b;
      let valueOffset := to_int v in
      if valueOffset +i 8 <=? len data then
        bn <- slice data valueOffset (valueOffset +i 4);
        num <- Uint32 byteOrder bn;
        bd <- slice data (valueOffset +i 4) (valueOffset +i 8);
        den <- Uint32 byteOrder bd;
        if den =? 0 then Ret EmptyString else Ret (fmt_f2 num den)
      else Ret EmptyString
    else Ret EmptyString
  else if dataType =? 7 then
    if (tag =? tagUserComment) && (count >? 8) then
      b <- slice data offset (offset +i 4);
      v <- Uint32 byteOrder b;
      let valueOffset := to_int v in
      if valueOffset +i to_int count <=? len data then
        commentData <- slice data valueOffset (valueOffset +i to_int count);
        if len commentData >? 8 then
          cs <- slice commentData 0 8;
          let charset := string_of_list_byte (TrimRight0 cs) in
          commentText <- slice_from commentData 8;
          let value := string_of_list_byte (TrimRight0 commentText) in
          if negb (charset =? EmptyString)%string && negb (charset =? "ASCII")%string
          then Ret (value +:+ " (charset: " +:+ charset +:+ ")")
          else Ret value
        else Ret EmptyString
      else Ret EmptyString
    else Ret EmptyString
  else Ret EmptyString.

(** The second [switch] of [parseTag]: what a tag id stands for. *)
Inductive tag_action :=
| Store (tagName : string)
| SubIFD
| Drop.

Definition tag_name (tag : Z) : tag_action :=
  if tag =? tagImageDescription then Store "ImageDescription"
  else if tag =? tagMake then Store "Make"
  else if tag =? tagModel then Store "Model"
  else if tag =? tagOrientation then Store "Orientation"
  else if tag =? tagSoftware then Store "Software"
  else if tag =? tagDateTime then Store "DateTime"
  else if tag =? tagArtist then Store "Artist"
  else if tag =? tagCopyright then Store "Copyright"
  else if tag =? tagExposureTime then Store "ExposureTime"
  else if tag =? tagFNumber then Store "FNumber"
  else if tag =? tagISOSpeedRatings then Store "ISO"
  else if tag =? tagDateTimeOriginal then Store "DateTimeOriginal"
  else if tag =? tagDateTimeDigitized then Store "DateTimeDigitized"
  else if tag =? tagFocalLength then Store "FocalLength"
  else if tag =? tagFlash then Store "Flash"
  else if tag =? tagUserComment then Store "UserComment"
  else if tag =? tagImageUniqueID then Store "ImageUniqueID"
  else if tag =? tagWhiteBalance then Store "WhiteBalance"
  else if tag =? tagCameraOwnerName then Store "CameraOwnerName"
  else if tag =? tagBodySerialNumber then Store "BodySerialNumber"
  else if tag =? tagLensMake then Store "LensMake"
  else if tag =? tagLensModel then Store "LensModel"
  else if tag =? tagLensSerialNumber then Store "LensSerialNumber"
  else if tag =? tagExifIFDPointer then SubIFD
  else Drop.

(** [parseTag]; [rec offset m] is the recursive call of [parseIFD] on the
    same buffer and byte order. *)
Definition parseTag (rec : Z -> ExifData -> outcome ExifData)
    (tag dataType count offset : Z) (data : list byte)
    (byteOrder : ByteOrder) (exifData : ExifData) : outcome ExifData :=
  value <- tag_value tag dataType count offset data byteOrder;
  if (value =? EmptyString)%string then Ret exifData
  else match tag_name tag with
       | Store tagName => Ret (<[tagName := value]> exifData)
       | SubIFD =>
           b <- slice data offset (offset +i 4);
           v <- Uint32 byteOrder b;
           let valueOffset := to_int v in
           rec valueOffset exifData
       | Drop => Ret exifData
       end.

(** The [for] loop of [parseIFD]: [n] iterations are left, [i] is the loop
    counter and [offset] the offset of the first entry. *)
Fixpoint ifd_entries (rec : Z -> ExifData -> outcome ExifData)
    (data : list byte) (byteOrder : ByteOrder) (offset : Z)
    (n : nat) (i : Z) (exifData : ExifData) : outcome ExifData :=
  match n with
  | O => Ret exifData
  | S n' =>
      let entryOffset := offset +i i *i 12 in
      if entryOffset +i 12 >? len data then Ret exifData
      else
        bt <- slice data entryOffset (entryOffset +i 2);
        tag <- Uint16 byteOrder bt;
        bd <- slice data (entryOffset +i 2) (entryOffset +i 4);
        dataType <- Uint16 byteOrder bd;
        bc <- slice data (entryOffset +i 4) (entryOffset +i 8);
        count <- Uint32 byteOrder bc;
        let valueOffset := entryOffset +i 8 in
        m <- parseTag rec tag dataType count valueOffset data byteOrder exifData;
        ifd_entries rec data byteOrder offset n' (i + 1) m
  end.

Definition parseIFD_body (rec : Z -> ExifData -> outcome ExifData)
    (data : list byte) (offset : Z) (byteOrder : ByteOrder)
    (exifData : ExifData) : outcome ExifData :=
  if offset +i 2 >? len data then Ret exifData
  else
    b <- slice data offset (offset +i 2);
    numEntries <- Uint16 byteOrder b;
    ifd_entries rec data byteOrder (offset +i 2) (Z.to_nat numEntries) 0 exifData.

(** [parseIFD]; [fuel] bounds the depth of the recursion through the EXIF
    sub-IFD pointer. *)
Fixpoint parseIFD (fuel : nat) (data : list byte) (offset : Z)
    (byteOrder : ByteOrder) (exifData : ExifData) : outcome ExifData :=
  match fuel with
  | O => OutOfFuel
  | S fuel' =>
      parseIFD_body (fun o m => parseIFD fuel' data o byteOrder m)
        data offset byteOrder exifData
  end.

(** [ParseTIFF]: the map after the call and the text of the returned error,
    if any. *)
Definition ParseTIFF (fuel : nat) (data : list byte) (exifData : ExifData)
    : outcome (ExifData * option string) :=
  if len data <? 8 then Ret (exifData, Some "TIFF header too short")
  else
    d0 <- index data 0; d1 <- index data 1;
    let continue (byteOrder : ByteOrder) :=
      b <- slice data 4 8;
      ifdOffset <- Uint32 byteOrder b;
      m <- parseIFD fuel data (to_int ifdOffset) byteOrder exifData;
      Ret (m, None) in
    if (u8 d0 =? 0x49) && (u8 d1 =? 0x49) then continue LittleEndian
    else if (u8 d0 =? 0x4D) && (u8 d1 =? 0x4D) then continue BigEndian
    else Ret (exifData, Some "invalid TIFF byte order").

(** ** exif_simple: the JPEG segment walker *)

(** The bytes counted by [isPrintable]. *)
Definition is_printable_byte (b : byte) : bool :=
  ((32 <=? u8 b) && (u8 b <=? 126)) || (u8 b =? 9) || (u8 b =? 10) || (u8 b =? 13).

(** [isPrintable].  The source compares [float64(printable)/float64(len)]
    with [0.8]; both counts fit 16 bits, where that comparison holds
    exactly when [5 * printable > 4 * len]. *)
Definition isPrintable (data : list byte) : bool :=
  if len data =? 0 then false
  else
    let printable := len (List.filter is_printable_byte data) in
    5 * printable >? 4 * len data.

(** [bytes.Reader.Read] into a zeroed buffer of [k] bytes, the reader being
    its unread bytes: [None] is [io.EOF]; otherwise the buffer (what was
    read, then zeros) and the reader after the call. *)
Definition reader_Read (r : list byte) (k : nat) : option (list byte * list byte) :=
  match r with
  | [] => None
  | _ => Some (firstn k r ++ repeat x00 (k - length (firstn k r)), skipn k r)
  end.

(** [binary.Read(reader, binary.BigEndian, &size)] for a [uint16]: [None]
    when fewer than two bytes are left. *)
Definition binary_Read_uint16 (r : list byte) : option (Z * list byte) :=
  match r with
  | b0 :: b1 :: r' => Some (Z.lor (u8 b1) (Z.shiftl (u8 b0) 8), r')
  | _ => None
  end.

(** The guard [len(s) >= n && string(s[0:len(p)]) == p] of the handlers. *)
Definition has_prefix (s : list byte) (n : Z) (p : list byte) : outcome bool :=
  if len s >=? n then
    h <- slice s 0 (len p);
    Ret (bytes_eqb h p)
  else Ret false.

(** The [switch marker[1]] of [Parse]. *)
Definition jpeg_segment (fuel : nat) (marker1 : Z) (segmentData : list byte)
    (exifData : ExifData) : outcome ExifData :=
  let bytes_note := "(" +:+ fmt_d (len segmentData) +:+ " bytes)" in
  let present_note := "present (" +:+ fmt_d (len segmentData) +:+ " bytes)" in
  let binary_note := "(" +:+ fmt_d (len segmentData) +:+ " bytes binary)" in
  if marker1 =? 0xFE then
    Ret (<["JPEG_Comment" := string_of_list_byte segmentData]> exifData)
  else if marker1 =? 0xE0 then
    jfif <- has_prefix segmentData 5 (lit0 "JFIF");
    if jfif then
      major <- index segmentData 5;
      minor <- index segmentData 6;
      Ret (<["JFIF_Version" := fmt_d (u8 major) +:+ "." +:+ fmt_02d (u8 minor)]> exifData)
    else
      jfxx <- has_prefix segmentData 5 (lit0 "JFXX");
      if jfxx then Ret (<["JFXX_Extension" := "present"]> exifData)
      else if len segmentData >? 0 then Ret (<["APP0_Data" := bytes_note]> exifData)
      else Ret exifData
  else if marker1 =? 0xE1 then
    exif <- has_prefix segmentData 6 (lit "Exif");
    if exif then
      tiff <- slice_from segmentData 6;
      '(m, err) <- ParseTIFF fuel tiff exifData;
      match err with
      | Some e => Ret (<["EXIF_ParseError" := e]> m)
      | None => Ret m
      end
    else
      xmp <- has_prefix segmentData 29 (lit0 "http://ns.adobe.com/xap/1.0/");
      if xmp then
        xmpData <- slice_from segmentData 29;
        Ret (<["XMP_Metadata" := string_of_list_byte xmpData]> exifData)
      else if len segmentData >? 0 then Ret (<["APP1_Data" := bytes_note]> exifData)
      else Ret exifData
  else if marker1 =? 0xE2 then
    icc <- has_prefix segmentData 14 (lit0 "ICC_PROFILE");
    if icc then Ret (<["ICC_Profile" := present_note]> exifData)
    else
      fpx <- has_prefix segmentData 6 (lit0 "FPXR" ++ [x00]);
      if fpx then Ret (<["FlashPix" := "present"]> exifData)
      else if len segmentData >? 0 then Ret (<["APP2_Data" := bytes_note]> exifData)
      else Ret exifData
  else if (0xE3 <=? marker1) && (marker1 <=? 0xEC) then
    let appNum := marker1 - 0xE0 in
    let key := "APP" +:+ fmt_d appNum +:+ "_Data" in
    if isPrintable segmentData && (len segmentData >? 0)
    then Ret (<[key := string_of_list_byte segmentData]> exifData)
    else Ret (<[key := binary_note]> exifData)
  else if marker1 =? 0xED then
    ps <- has_prefix segmentData 14 (lit0 "Photoshop 3.0");
    if ps then Ret (<["Photoshop_IRB" := present_note]> exifData)
    else if len segmentData >? 0 then Ret (<["APP13_Data" := bytes_note]> exifData)
    else Ret exifData
  else if marker1 =? 0xEE then
    adobe <- has_prefix segmentData 5 (lit "Adobe");
    if adobe then Ret (<["Adobe_APP14" := "present"]> exifData)
    else if len segmentData >? 0 then Ret (<["APP14_Data" := bytes_note]> exifData)
    else Ret exifData
  else if marker1 =? 0xEF then
    if isPrintable segmentData && (len segmentData >? 0)
    then Ret (<["APP15_Data" := string_of_list_byte segmentData]> exifData)
    else Ret (<["APP15_Data" := binary_note]> exifData)
  else Ret exifData.

(** The segment loop of [Parse]: [r] is the reader, [n] the iteration
    bound. *)
Fixpoint jpeg_segments (n : nat) (fuel : nat) (r : list byte)
    (exifData : ExifData) : outcome ExifData :=
  match n with
  | O => OutOfFuel
  | S n' =>
      match reader_Read r 2 with
      | None => Ret exifData
      | Some (marker, r1) =>
          marker0 <- index marker 0;
          marker1 <- index marker 1;
          if negb (u8 marker0 =? 0xFF) then jpeg_segments n' fuel r1 exifData
          else if u8 marker1 =? 0xDA then Ret exifData
          else
            match binary_Read_uint16 r1 with
            | None => Ret exifData
            | Some (size, r2) =>
                if size <? 2 then Ret exifData
                else
                  match reader_Read r2 (Z.to_nat (size - 2)) with
                  | None => Ret exifData
                  | Some (segmentData, r3) =>
                      m <- jpeg_segment fuel (u8 marker1) segmentData exifData;
                      jpeg_segments n' fuel r3 m
                  end
            end
      end
  end.

(** [SimpleExifParser.Parse], which [ExifParser.Parse] forwards to. *)
Definition SimpleExifParser_Parse (fuel : nat) (data : list byte) : outcome parsed :=
  match reader_Read data 2 with
  | None => Ret (Failure (Errorf "failed to read JPEG header: EOF"))
  | Some (header, r) =>
      header0 <- index header 0;
      header1 <- index header 1;
      if negb (u8 header0 =? 0xFF) || negb (u8 header1 =? 0xD8) then
        Ret (Failure (Errorf ("not a valid JPEG file (header: " +:+ fmt_02X (u8 header0)
                               +:+ " " +:+ fmt_02X (u8 header1) +:+ ")")))
      else
        exifData <- jpeg_segments (length data) fuel r ∅;
        if bool_decide (exifData = ∅)
        then Ret (Failure (Errorf "no metadata found in JPEG"))
        else Ret (Success exifData)
  end.

Definition ExifParser_Parse (fuel : nat) (data : list byte) : outcome parsed :=
  SimpleExifParser_Parse fuel data.

(** ** png: the chunk walker *)

(** This is the [PNGParser] that walks the chunks.  The tree also holds an
    older [PNGParser] whose [Parse] returns "PNG format not yet implemented"
    for every input; it is not embedded. *)

(** [crc32.ChecksumIEEE]: the reflected CRC-32 with polynomial
    [0xEDB88320], initial value and final xor [0xFFFFFFFF]. *)
Definition crc32_bit (c : Z) : Z :=
  if Z.testbit c 0 then Z.lxor (Z.shiftr c 1) 0xEDB88320 else Z.shiftr c 1.

Definition crc32_update (crc : Z) (b : byte) : Z :=
  Nat.iter 8 crc32_bit (Z.lxor crc (u8 b)).

Definition ChecksumIEEE (data : list byte) : Z :=
  Z.lxor (fold_left crc32_update data 0xFFFFFFFF) 0xFFFFFFFF.

Definition pngSignature : list byte := [x89; x50; x4e; x47; x0d; x0a; x1a; x0a].

Definition colorTypes (colorType : Z) : option string :=
  match colorType with
  | 0 => Some "Grayscale"
  | 2 => Some "RGB"
  | 3 => Some "Indexed (Palette)"
  | 4 => Some "Grayscale with Alpha"
  | 6 => Some "RGB with Alpha"
  | _ => None
  end.

Definition parseIHDR (data : list byte) (exifData : ExifData) : outcome ExifData :=
  if len data <? 13 then Ret exifData
  else
    bw <- slice data 0 4; width <- Uint32 BigEndian bw;
    bh <- slice data 4 8; height <- Uint32 BigEndian bh;
    bitDepth <- index data 8;
    colorType <- index data 9;
    compressionMethod <- index data 10;
    filterMethod <- index data 11;
    interlaceMethod <- index data 12;
    let m1 := <["PNG_ImageWidth" := fmt_d width]> exifData in
    let m2 := <["PNG_ImageHeight" := fmt_d height]> m1 in
    let m3 := <["PNG_BitDepth" := fmt_d (u8 bitDepth)]> m2 in
    let m4 := match colorTypes (u8 colorType) with
              | Some desc => <["PNG_ColorType" := desc]> m3
              | None => <["PNG_ColorType" := fmt_d (u8 colorType)]> m3
              end in
    let m5 := <["PNG_Compression" := fmt_d (u8 compressionMethod)]> m4 in
    let m6 := <["PNG_Filter" := fmt_d (u8 filterMethod)]> m5 in
    if u8 interlaceMethod =? 0 then Ret (<["PNG_Interlace" := "None"]> m6)
    else if u8 interlaceMethod =? 1 then Ret (<["PNG_Interlace" := "Adam7"]> m6)
    else Ret m6.

Definition parseTEXt (data : list byte) (exifData : ExifData) : outcome ExifData :=
  let nullPos := IndexByte data x00 in
  if (nullPos <? 0) || (nullPos >=? len data - 1) then Ret exifData
  else
    keyword <- slice_to data nullPos;
    text <- slice_from data (nullPos + 1);
    Ret (<["PNG_" +:+ string_of_list_byte keyword := string_of_list_byte text]> exifData).

Definition parseZTXt (data : list byte) (exifData : ExifData) : outcome ExifData :=
  let nullPos := IndexByte data x00 in
  if (nullPos <? 0) || (nullPos + 2 >=? len data) then Ret exifData
  else
    keyword <- slice_to data nullPos;
    compressionMethod <- index data (nullPos + 1);
    if negb (u8 compressionMethod =? 0) then Ret exifData
    else
      compressedData <- slice_from data (nullPos + 2);
      match zlib_inflate compressedData with
      | None => Ret exifData
      | Some text =>
          Ret (<["PNG_" +:+ string_of_list_byte keyword := string_of_list_byte text]> exifData)
      end.

(** [strings.Join(details, ", ")] for the at most two details of [parseITXt] *)
Definition join_details (details : list string) : string :=
  match details with
  | [] => EmptyString
  | d :: ds => fold_left (fun acc x => acc +:+ ", " +:+ x) ds d
  end.

Definition parseITXt (data : list byte) (exifData : ExifData) : outcome ExifData :=
  let nullPos1 := IndexByte data x00 in
  if (nullPos1 <? 0) || (nullPos1 + 2 >=? len data) then Ret exifData
  else
    keyword <- slice_to data nullPos1;
    compressionFlag <- index data (nullPos1 + 1);
    compressionMethod <- index data (nullPos1 + 2);
    remaining <- slice_from data (nullPos1 + 3);
    let nullPos2 := IndexByte remaining x00 in
    if nullPos2 <? 0 then Ret exifData
    else
      languageTag <- slice_to remaining nullPos2;
      remaining' <- slice_from remaining (nullPos2 + 1);
      let nullPos3 := IndexByte remaining' x00 in
      if nullPos3 <? 0 then Ret exifData
      else
        translatedKeyword <- slice_to remaining' nullPos3;
        textData <- slice_from remaining' (nullPos3 + 1);
        let text :=
          if (u8 compressionFlag =? 1) && (u8 compressionMethod =? 0)
          then zlib_inflate textData
          else Some textData in
        match text with
        | None => Ret exifData
        | Some text =>
            let languageTag := string_of_list_byte languageTag in
            let translatedKeyword := string_of_list_byte translatedKeyword in
            let key := "PNG_" +:+ string_of_list_byte keyword in
            let key :=
              if negb (languageTag =? EmptyString)%string
                 || negb (translatedKeyword =? EmptyString)%string
              then
                let details := [] in
                let details :=
                  if negb (languageTag =? EmptyString)%string
                  then details ++ ["lang:" +:+ languageTag] else details in
                let details :=
                  if negb (translatedKeyword =? EmptyString)%string
                  then details ++ ["translated:" +:+ translatedKeyword] else details in
                key +:+ " (" +:+ join_details details +:+ ")"
              else key in
            Ret (<[key := string_of_list_byte text]> exifData)
        end.

Definition parsePHYs (data : list byte) (exifData : ExifData) : outcome ExifData :=
  if len data <? 9 then Ret exifData
  else
    bx <- slice data 0 4; pixelsPerUnitX <- Uint32 BigEndian bx;
    by_ <- slice data 4 8; pixelsPerUnitY <- Uint32 BigEndian by_;
    unit_ <- index data 8;
    let unitStr :=
      if u8 unit_ =? 0 then "aspect ratio"
      else if u8 unit_ =? 1 then "meter"
      else "unknown" in
    Ret (<["PNG_PixelUnit" := unitStr]>
           (<["PNG_PixelsPerUnitY" := fmt_d pixelsPerUnitY]>
              (<["PNG_PixelsPerUnitX" := fmt_d pixelsPerUnitX]> exifData))).

Definition parseTIME (data : list byte) (exifData : ExifData) : outcome ExifData :=
  if len data <? 7 then Ret exifData
  else
    byr <- slice data 0 2; year <- Uint16 BigEndian byr;
    month <- index data 2;
    day <- index data 3;
    hour <- index data 4;
    minute <- index data 5;
    second <- index data 6;
    let timeStr :=
      fmt_04d year +:+ "-" +:+ fmt_02d (u8 month) +:+ "-" +:+ fmt_02d (u8 day) +:+ " " +:+
      fmt_02d (u8 hour) +:+ ":" +:+ fmt_02d (u8 minute) +:+ ":" +:+ fmt_02d (u8 second) in
    Ret (<["PNG_ModifyDate" := timeStr]> exifData).

Definition parseICCP (data : list byte) (exifData : ExifData) : outcome ExifData :=
  let nullPos := IndexByte data x00 in
  if (nullPos <? 0) || (nullPos + 2 >=? len data) then Ret exifData
  else
    profileName <- slice_to data nullPos;
    compressionMethod <- index data (nullPos + 1);
    let m := <["PNG_ICCProfile" := string_of_list_byte profileName]> exifData in
    if u8 compressionMethod =? 0 then Ret (<["PNG_ICCCompression" := "deflate"]> m)
    else Ret m.

(** The [switch chunkType] of [PNGParser.Parse].  In the [IEND] case the
    source has a [break], which in Go leaves the [switch] statement only:
    the case does nothing. *)
Definition png_chunk (fuel : nat) (chunkType : string) (chunkData : list byte)
    (exifData : ExifData) : outcome ExifData :=
  if (chunkType =? "IHDR")%string then parseIHDR chunkData exifData
  else if (chunkType =? "tEXt")%string then parseTEXt chunkData exifData
  else if (chunkType =? "zTXt")%string then parseZTXt chunkData exifData
  else if (chunkType =? "iTXt")%string then parseITXt chunkData exifData
  else if (chunkType =? "eXIf")%string then
    '(m, err) <- ParseTIFF fuel chunkData exifData;
    match err with
    | Some e => Ret (<["EXIF_ParseError" := e]> m)
    | None => Ret m
    end
  else if (chunkType =? "pHYs")%string then parsePHYs chunkData exifData
  else if (chunkType =? "tIME")%string then parseTIME chunkData exifData
  else if (chunkType =? "iCCP")%string then parseICCP chunkData exifData
  else if (chunkType =? "sPLT")%string then
    if len chunkData >? 0 then
      let nullPos := IndexByte chunkData x00 in
      if nullPos >? 0 then
        name <- slice_to chunkData nullPos;
        Ret (<["PNG_Palette" := string_of_list_byte name]> exifData)
      else Ret exifData
    else Ret exifData
  else if (chunkType =? "IEND")%string then Ret exifData
  else Ret exifData.

(** One iteration of a chunk loop either goes on with a new loop state or
    leaves the loop ([break], or the loop condition failing) with the map. *)
Inductive step (St : Type) :=
| Next (s : St)
| Stop (m : ExifData).
Arguments Next {St} s.
Arguments Stop {St} m.

(** One iteration of the chunk loop of [PNGParser.Parse]. *)
Definition png_step (fuel : nat) (data : list byte) (offset : Z)
    (exifData : ExifData) : outcome (step (Z * ExifData)) :=
  if offset +i 8 >? len data then Ret (Stop exifData)
  else
    bl <- slice data offset (offset +i 4);
    chunkLength <- Uint32 BigEndian bl;
    bt <- slice data (offset +i 4) (offset +i 8);
    let chunkType := string_of_list_byte bt in
    let offset := offset +i 8 in
    if offset +i to_int chunkLength +i 4 >? len data then Ret (Stop exifData)
    else
      chunkData <- slice data offset (offset +i to_int chunkLength);
      bc <- slice data (offset +i to_int chunkLength)
                       (offset +i to_int chunkLength +i 4);
      chunkCRC <- Uint32 BigEndian bc;
      let crcData := list_byte_of_string chunkType ++ chunkData in
      let calculatedCRC := ChecksumIEEE crcData in
      let exifData :=
        if negb (calculatedCRC =? chunkCRC)
        then <["PNG_Warning" := "CRC mismatch for chunk " +:+ chunkType]> exifData
        else exifData in
      m <- png_chunk fuel chunkType chunkData exifData;
      Ret (Next (offset +i (to_int chunkLength +i 4), m)).

(** The chunk loop, [for offset < len(data)]; [n] is the iteration bound. *)
Fixpoint png_chunks (n : nat) (fuel : nat) (data : list byte) (offset : Z)
    (exifData : ExifData) : outcome ExifData :=
  match n with
  | O => OutOfFuel
  | S n' =>
      if offset <? len data then
        s <- png_step fuel data offset exifData;
        match s with
        | Stop m => Ret m
        | Next (offset', m) => png_chunks n' fuel data offset' m
        end
      else Ret exifData
  end.

Definition PNGParser_Parse (fuel : nat) (data : list byte) : outcome parsed :=
  if len data <? 8 then Ret (Failure (Errorf "file too small to be PNG"))
  else
    sig <- slice data 0 8;
    if negb (bytes_eqb sig pngSignature) then Ret (Failure (Errorf "not a valid PNG file"))
    else
      exifData <- png_chunks (S (length data)) fuel data 8 ∅;
      if bool_decide (exifData = ∅)
      then Ret (Failure (Errorf "no metadata found in PNG"))
      else Ret (Success exifData).

(** ** webp: the RIFF chunk walker *)

(** [uint32(b0) | uint32(b1)<<8 | uint32(b2)<<16 | uint32(b3)<<24] *)
Definition le32 (b0 b1 b2 b3 : byte) : Z :=
  Z.lor (Z.lor (Z.lor (u8 b0) (Z.shiftl (u8 b1) 8)) (Z.shiftl (u8 b2) 16))
        (Z.shiftl (u8 b3) 24).

(** [uint32(b0) | uint32(b1)<<8 | uint32(b2)<<16] *)
Definition le24 (b0 b1 b2 : byte) : Z :=
  Z.lor (Z.lor (u8 b0) (Z.shiftl (u8 b1) 8)) (Z.shiftl (u8 b2) 16).

(** arithmetic of [uint32] *)
Definition wrap32 (n : Z) : Z := n mod 2 ^ 32.

(** The [switch chunkID] of [WebPParser.Parse]. *)
Definition webp_chunk (fuel : nat) (chunkID : string) (chunkData : list byte)
    (exifData : ExifData) : outcome ExifData :=
  if (chunkID =? "EXIF")%string then
    '(m, err) <- ParseTIFF fuel chunkData exifData;
    match err with
    | Some e => Ret (<["EXIF_ParseError" := e]> m)
    | None => Ret m
    end
  else if (chunkID =? "XMP ")%string then
    Ret (<["XMP_Metadata" := string_of_list_byte chunkData]> exifData)
  else if (chunkID =? "VP8X")%string then
    if len chunkData >=? 10 then
      flags <- index chunkData 0;
      let hasICC := negb (Z.land (u8 flags) 0x20 =? 0) in
      let hasAlpha := negb (Z.land (u8 flags) 0x10 =? 0) in
      let hasEXIF := negb (Z.land (u8 flags) 0x08 =? 0) in
      let hasXMP := negb (Z.land (u8 flags) 0x04 =? 0) in
      let hasAnimation := negb (Z.land (u8 flags) 0x02 =? 0) in
      let features := EmptyString in
      let features := if hasICC then features +:+ "ICC " else features in
      let features := if hasAlpha then features +:+ "Alpha " else features in
      let features := if hasEXIF then features +:+ "EXIF " else features in
      let features := if hasXMP then features +:+ "XMP " else features in
      let features := if hasAnimation then features +:+ "Animation " else features in
      let m := if negb (features =? EmptyString)%string
               then <["WebP_Features" := features]> exifData else exifData in
      c4 <- index chunkData 4; c5 <- index chunkData 5; c6 <- index chunkData 6;
      let canvasWidth := wrap32 (le24 c4 c5 c6 + 1) in
      c7 <- index chunkData 7; c8 <- index chunkData 8; c9 <- index chunkData 9;
      let canvasHeight := wrap32 (le24 c7 c8 c9 + 1) in
      Ret (<["WebP_Canvas_Height" := fmt_d canvasHeight]>
             (<["WebP_Canvas_Width" := fmt_d canvasWidth]> m))
    else Ret exifData
  else if (chunkID =? "ICCP")%string then
    Ret (<["ICC_Profile" := "present (" +:+ fmt_d (len chunkData) +:+ " bytes)"]> exifData)
  else if (chunkID =? "ANIM")%string then
    if len chunkData >=? 6 then
      c0 <- index chunkData 0; c1 <- index chunkData 1;
      c2 <- index chunkData 2; c3 <- index chunkData 3;
      let bgColor := le32 c0 c1 c2 c3 in
      c4 <- index chunkData 4; c5 <- index chunkData 5;
      let loopCount := Z.lor (u8 c4) (Z.shiftl (u8 c5) 8) in
      Ret (<["WebP_Animation_LoopCount" := fmt_d loopCount]>
             (<["WebP_Animation_BgColor" := "0x" +:+ fmt_08X bgColor]> exifData))
    else Ret exifData
  else if (chunkID =? "VP8 ")%string || (chunkID =? "VP8L")%string then
    if (chunkID =? "VP8 ")%string
    then Ret (<["WebP_Format" := "Lossy (VP8)"]> exifData)
    else Ret (<["WebP_Format" := "Lossless (VP8L)"]> exifData)
  else Ret exifData.

(** One iteration of the chunk loop of [WebPParser.Parse]. *)
Definition webp_step (fuel : nat) (data : list byte) (offset : Z)
    (exifData : ExifData) : outcome (step (Z * ExifData)) :=
  if offset +i 8 >? len data then Ret (Stop exifData)
  else
    bi <- slice data offset (offset +i 4);
    let chunkID := string_of_list_byte bi in
    s0 <- index data (offset +i 4); s1 <- index data (offset +i 5);
    s2 <- index data (offset +i 6); s3 <- index data (offset +i 7);
    let chunkSize := le32 s0 s1 s2 s3 in
    let offset := offset +i 8 in
    if offset +i to_int chunkSize >? len data then Ret (Stop exifData)
    else
      chunkData <- slice data offset (offset +i to_int chunkSize);
      m <- webp_chunk fuel chunkID chunkData exifData;
      let offset := offset +i to_int chunkSize in
      let offset := if chunkSize mod 2 =? 1 then offset +i 1 else offset in
      Ret (Next (offset, m)).

(** The chunk loop, [for offset < len(data) && offset < int(fileSize)+8];
    [n] is the iteration bound. *)
Fixpoint webp_chunks (n : nat) (fuel : nat) (data : list byte) (fileSize : Z)
    (offset : Z) (exifData : ExifData) : outcome ExifData :=
  match n with
  | O => OutOfFuel
  | S n' =>
      if (offset <? len data) && (offset <? to_int fileSize +i 8) then
        s <- webp_step fuel data offset exifData;
        match s with
        | Stop m => Ret m
        | Next (offset', m) => webp_chunks n' fuel data fileSize offset' m
        end
      else Ret exifData
  end.

Definition WebPParser_Parse (fuel : nat) (data : list byte) : outcome parsed :=
  if len data <? 12 then Ret (Failure (Errorf "file too small to be WebP"))
  else
    riff <- slice data 0 4;
    if negb (bytes_eqb riff (lit "RIFF")) then Ret (Failure (Errorf "not a valid RIFF file"))
    else
      webp <- slice data 8 12;
      if negb (bytes_eqb webp (lit "WEBP")) then Ret (Failure (Errorf "not a valid WebP file"))
      else
        d4 <- index data 4; d5 <- index data 5; d6 <- index data 6; d7 <- index data 7;
        let fileSize := le32 d4 d5 d6 d7 in
        exifData <- webp_chunks (S (length data)) fuel data fileSize 12 ∅;
        if bool_decide (exifData = ∅)
        then Ret (Failure (Errorf "no metadata found in WebP file"))
        else Ret (Success exifData).

(** ** heif: the stub *)

Definition HEIFParser_Parse (data : list byte) : outcome parsed :=
  Ret (Failure (Errorf "HEIF format not yet implemented")).

(** ** parser.go: the registry and the dispatcher *)

Inductive Parser :=
| ExifParser
| PNGParser
| WebPParser
| HEIFParser.

Definition GetParser (format : ImageFormat) : option Parser :=
  match format with
  | FormatJPEG | FormatTIFF => Some ExifParser
  | FormatPNG => Some PNGParser
  | FormatWebP => Some WebPParser
  | FormatHEIF => Some HEIFParser
  | FormatUnknown => None
  end.

(** The method [Parse] of the interface [Parser]. *)
Definition Parse (p : Parser) (fuel : nat) (data : list byte) : outcome parsed :=
  match p with
  | ExifParser => ExifParser_Parse fuel data
  | PNGParser => PNGParser_Parse fuel data
  | WebPParser => WebPParser_Parse fuel data
  | HEIFParser => HEIFParser_Parse data
  end.

Definition SupportsFormat (p : Parser) (format : ImageFormat) : bool :=
  match p, format with
  | ExifParser, (FormatJPEG | FormatTIFF) => true
  | PNGParser, FormatPNG => true
  | WebPParser, FormatWebP => true
  | HEIFParser, FormatHEIF => true
  | _, _ => false
  end.

Definition ParseImage (fuel : nat) (data : list byte) : outcome parsed :=
  let format := DetectFormat data in
  match GetParser format with
  | None => Ret (Failure (UnsupportedFormatError format))
  | Some parser => Parse parser fuel data
  end.

(** ** parser.go: the reader over a byte slice *)

(** [readerAt.ReadAt(p, off)]: the buffer [p] after the call, the count [n]
    and whether the error is [io.EOF] (it is nil otherwise). *)
Definition ReadAt (data p : list byte) (off : Z) : list byte * Z * bool :=
  if (off <? 0) || (off >=? len data) then (p, 0, true)
  else
    let src := skipn (Z.to_nat off) data in
    let n := Nat.min (length p) (length src) in
    (firstn n src ++ skipn n p, Z.of_nat n, (n <? length p)%nat).

(** ** main.go: the exported format probe *)

(** The [switch] of [detectImageFormat]. *)
Definition format_name (format : ImageFormat) : string :=
  match format with
  | FormatJPEG => "JPEG"
  | FormatTIFF => "TIFF"
  | FormatPNG => "PNG"
  | FormatWebP => "WebP"
  | FormatHEIF => "HEIF"
  | FormatUnknown => "Unknown"
  end.

(** [detectImageFormat]; [args] are the byte arrays passed from
    JavaScript.  At most the first 12 bytes are copied to the Go side. *)
Definition detectImageFormat (args : list (list byte)) : string :=
  match args with
  | [] => "unknown"
  | jsArray :: _ =>
      let length := len jsArray in
      let length := if length >? 12 then 12 else length in
      let data := firstn (Z.to_nat length) jsArray in
      format_name (DetectFormat data)
  end.

(** ** Sample buffers *)

(** Closed instances of the two library parameters, for examples whose
    inputs never reach them. *)
Definition zlib_reject : list byte -> option (list byte) := fun _ => None.
Definition f2_blank : Z -> Z -> string := fun _ _ => EmptyString.

(** A little-endian TIFF: header, IFD0 at offset 8 with the single entry
    Make (0x010F), ASCII, count 5, value at offset 26, next-IFD link 0, and
    the value "Acme" with its NUL. *)
Definition tiff_make_acme : list byte :=
  [x49; x49; x2a; x00; x08; x00; x00; x00;
   x01; x00;
   x0f; x01; x02; x00; x05; x00; x00; x00; x1a; x00; x00; x00;
   x00; x00; x00; x00] ++ lit0 "Acme".

(** The same directory with the four letters stored inline (count 4). *)
Definition tiff_make_acme_inline : list byte :=
  [x49; x49; x2a; x00; x08; x00; x00; x00;
   x01; x00;
   x0f; x01; x02; x00; x04; x00; x00; x00] ++ lit "Acme" ++
  [x00; x00; x00; x00].

(** SOI, then one APP1 segment: length, "Exif\0\0", the TIFF. *)
Definition jpeg_make_acme : list byte :=
  [xff; xd8; xff; xe1; x00; x27] ++ lit0 "Exif" ++ [x00] ++ tiff_make_acme.
Definition jpeg_make_acme_inline : list byte :=
  [xff; xd8; xff; xe1; x00; x22] ++ lit0 "Exif" ++ [x00] ++ tiff_make_acme_inline.

(** SOI, an APP0 segment of declared length 7 whose five payload bytes are
    "JFIF\0", and EOI. *)
Definition jpeg_jfif_short : list byte :=
  [xff; xd8; xff; xe0; x00; x07] ++ lit0 "JFIF" ++ [xff; xd9].

(** A TIFF whose IFD0, at offset 8, has the single entry EXIF IFD pointer
    (0x8769), LONG, count 1, value 8: the directory points to itself. *)
Definition tiff_self_pointer : list byte :=
  [x49; x49; x2a; x00; x08; x00; x00; x00;
   x01; x00;
   x69; x87; x04; x00; x01; x00; x00; x00; x08; x00; x00; x00;
   x00; x00; x00; x00].
Definition jpeg_self_pointer : list byte :=
  [xff; xd8; xff; xe1; x00; x22] ++ lit0 "Exif" ++ [x00] ++ tiff_self_pointer.

(** A [tEXt] chunk "Comment\0Hello" with its right CRC-32, 0x273E8120. *)
Definition png_text_chunk : list byte :=
  [x00; x00; x00; x0d] ++ lit "tEXt" ++ lit0 "Comment" ++ lit "Hello" ++
  [x27; x3e; x81; x20].

(** The empty [IEND] chunk with its CRC-32, 0xAE426082. *)
Definition png_iend_chunk : list byte :=
  [x00; x00; x00; x00] ++ lit "IEND" ++ [xae; x42; x60; x82].

(** Signature, [IEND], and a [tEXt] chunk after it. *)
Definition png_text_after_iend : list byte :=
  pngSignature ++ png_iend_chunk ++ png_text_chunk.

(** Signature and one [tEXt] chunk "Comment\0Hello" whose CRC field is 0. *)
Definition png_text_bad_crc : list byte :=
  pngSignature ++ [x00; x00; x00; x0d] ++ lit "tEXt" ++ lit0 "Comment" ++ lit "Hello" ++
  [x00; x00; x00; x00].

(** The first four bytes of the PNG signature and eight zero bytes. *)
Definition png_half_signature : list byte :=
  [x89; x50; x4e; x47; x00; x00; x00; x00; x00; x00; x00; x00].

(** Signature, a chunk header whose length field is FF FF FF FF, and three
    more bytes. *)
Definition png_wrapped_length : list byte :=
  pngSignature ++ [xff; xff; xff; xff] ++ lit "IDAT" ++ [x00; x00; x00].

(** A [VP8X] payload: no flags, raw width 99, raw height 49. *)
Definition vp8x_99_49 : list byte :=
  [x00; x00; x00; x00; x63; x00; x00; x31; x00; x00].
Definition webp_vp8x_99 : list byte :=
  lit "RIFF" ++ [x16; x00; x00; x00] ++ lit "WEBP" ++
  lit "VP8X" ++ [x0a; x00; x00; x00] ++ vp8x_99_49.

(** Containers whose only EXIF payload is the three bytes "abc"; the PNG
    chunk carries its right CRC-32, 0x25F43C91. *)
Definition jpeg_bad_exif : list byte :=
  [xff; xd8; xff; xe1; x00; x0b] ++ lit0 "Exif" ++ [x00] ++ lit "abc".
Definition png_bad_exif : list byte :=
  pngSignature ++ [x00; x00; x00; x03] ++ lit "eXIf" ++ lit "abc" ++ [x25; xf4; x3c; x91].
Definition webp_bad_exif : list byte :=
  lit "RIFF" ++ [x10; x00; x00; x00] ++ lit "WEBP" ++
  lit "EXIF" ++ [x03; x00; x00; x00] ++ lit "abc" ++ [x00].

(** ** Vocabulary of the statements *)

(** *** Outcomes *)

(** [safe c]: the computation [c] does not panic. *)
Definition safe {A : Type} (c : outcome A) : Prop := c <> Panic.

(** [stable c c']: if [c] ends otherwise than by an exhausted budget, [c']
    ends the same way. *)
Definition stable {A : Type} (c c' : outcome A) : Prop :=
  c <> OutOfFuel -> c' = c.

(** [ends c]: the computation [c] does not use up its budget. *)
Definition ends {A : Type} (c : outcome A) : Prop := c <> OutOfFuel.

(** [keeps m c]: when [c] returns a map, every key of [m] is a key of it. *)
Definition keeps (m : ExifData) (c : outcome ExifData) : Prop :=
  forall r, c = Ret r -> dom m ⊆ dom r.

(** *** The signatures that the specification lists *)

(** [has_bytes data offset sig]: the bytes of [data] from [offset] on start
    with [sig]. *)
Definition has_bytes (data : list byte) (offset : nat) (sig : list byte) : bool :=
  bytes_eqb (firstn (length sig) (skipn offset data)) sig.

(** The buffer matches a container signature of the specification's list:
    FF D8 FF; 49 49 2A 00 or 4D 4D 00 2A; the eight bytes of the PNG
    signature; "RIFF" at 0 with "WEBP" at 8; "ftyp" at 4. *)
Definition spec_known_signature (data : list byte) : bool :=
  has_bytes data 0 [xff; xd8; xff] ||
  has_bytes data 0 [x49; x49; x2a; x00] ||
  has_bytes data 0 [x4d; x4d; x00; x2a] ||
  has_bytes data 0 pngSignature ||
  (has_bytes data 0 (lit "RIFF") && has_bytes data 8 (lit "WEBP")) ||
  has_bytes data 4 (lit "ftyp").

(** *** EXIF payloads that fail the TIFF header check *)

(** The payload is shorter than 8 bytes, or it starts neither with "II" nor
    with "MM". *)
Definition bad_tiff_header (payload : list byte) : Prop :=
  len payload < 8 \/
  (firstn 2 payload <> [x49; x49] /\ firstn 2 payload <> [x4d; x4d]).

Definition tiff_error_text (payload : list byte) : string :=
  if len payload <? 8 then "TIFF header too short" else "invalid TIFF byte order".

(** *** Segments and chunks as they lie in the buffer *)

(** [jpeg_segment_at r marker1 segmentData rest]: the unread bytes [r] start
    with a whole segment, that is FF, a marker byte other than DA (start of
    scan), a big-endian length that counts itself and [segmentData], and
    [segmentData]; [rest] is what follows.  A segment without payload at the
    very end of the buffer is left out: the read of its payload reports
    [io.EOF] and the loop ends before handling it. *)
Definition jpeg_segment_at (r : list byte) (marker1 : byte)
    (segmentData rest : list byte) : Prop :=
  exists s0 s1 : byte,
    r = xff :: marker1 :: s0 :: s1 :: segmentData ++ rest /\
    u8 marker1 <> 0xDA /\
    Z.lor (u8 s1) (Z.shiftl (u8 s0) 8) = len segmentData + 2 /\
    segmentData ++ rest <> [].

(** [jpeg_walk_meets P r]: segment after whole segment from the unread
    bytes [r] on, with byte pairs that do not start with FF skipped, the
    buffer holds a segment that satisfies [P]. *)
Inductive jpeg_walk_meets (P : byte -> list byte -> Prop) : list byte -> Prop :=
| jpeg_meets_here r marker1 segmentData rest :
    jpeg_segment_at r marker1 segmentData rest ->
    P marker1 segmentData ->
    jpeg_walk_meets P r
| jpeg_meets_later r marker1 segmentData rest :
    jpeg_segment_at r marker1 segmentData rest ->
    jpeg_walk_meets P rest ->
    jpeg_walk_meets P r
| jpeg_meets_skip (b0 b1 : byte) r :
    u8 b0 <> 0xFF ->
    jpeg_walk_meets P r ->
    jpeg_walk_meets P (b0 :: b1 :: r).

Definition jpeg_bad_exif_segment (marker1 : byte) (segmentData : list byte) : Prop :=
  marker1 = xe1 /\
  exists (e4 e5 : byte) (payload : list byte),
    segmentData = lit "Exif" ++ e4 :: e5 :: payload /\ bad_tiff_header payload.

(** [png_chunk_at data offset chunkType payload crc]: at [offset] the buffer
    holds a whole chunk, that is a 4-byte length field that decodes to the
    length of [payload], the 4-byte type, the payload and a 4-byte CRC field
    that decodes to [crc]. *)
Definition png_chunk_at (data : list byte) (offset : Z)
    (chunkType payload : list byte) (crc : Z) : Prop :=
  exists pre lenb crcb post : list byte,
    data = pre ++ lenb ++ chunkType ++ payload ++ crcb ++ post /\
    len pre = offset /\
    len lenb = 4 /\ Uint32 BigEndian lenb = Ret (len payload) /\
    len chunkType = 4 /\
    len crcb = 4 /\ Uint32 BigEndian crcb = Ret crc.

(** [png_walk_meets P data offset]: chunk after whole chunk from [offset] on,
    the buffer holds a chunk that satisfies [P]. *)
Inductive png_walk_meets (P : list byte -> list byte -> Z -> Prop) (data : list byte)
    : Z -> Prop :=
| png_meets_here offset chunkType payload crc :
    png_chunk_at data offset chunkType payload crc ->
    P chunkType payload crc ->
    png_walk_meets P data offset
| png_meets_later offset chunkType payload crc :
    png_chunk_at data offset chunkType payload crc ->
    png_walk_meets P data (offset + 12 + len payload) ->
    png_walk_meets P data offset.

Definition crc_mismatch (chunkType payload : list byte) (crc : Z) : Prop :=
  ChecksumIEEE (chunkType ++ payload) <> crc.

Definition png_bad_exif_chunk (chunkType payload : list byte) (crc : Z) : Prop :=
  chunkType = lit "eXIf" /\ bad_tiff_header payload.

(** [webp_chunk_at data offset chunkID payload]: at [offset] the buffer holds
    a whole chunk, that is the 4-byte FourCC, a 4-byte little-endian size
    that is the length of [payload], and the payload. *)
Definition webp_chunk_at (data : list byte) (offset : Z)
    (chunkID payload : list byte) : Prop :=
  exists (pre post : list byte) (s0 s1 s2 s3 : byte),
    data = pre ++ chunkID ++ [s0; s1; s2; s3] ++ payload ++ post /\
    len pre = offset /\
    len chunkID = 4 /\
    le32 s0 s1 s2 s3 = len payload.

(** The offset after a chunk of [size] bytes at [offset], pad byte
    included; the pad byte is counted as the loop counts it, in the [int] of
    the build. *)
Definition webp_next (offset size : Z) : Z :=
  if size mod 2 =? 1 then offset + 8 + size +i 1 else offset + 8 + size.

(** [webp_walk_meets P data fileSize offset]: chunk after whole chunk from
    [offset] on, all below the end [fileSize + 8] declared by the RIFF
    header, the buffer holds a chunk that satisfies [P]. *)
Inductive webp_walk_meets (P : list byte -> list byte -> Prop) (data : list byte)
    (fileSize : Z) : Z -> Prop :=
| webp_meets_here offset chunkID payload :
    webp_chunk_at data offset chunkID payload ->
    offset < fileSize + 8 ->
    P chunkID payload ->
    webp_walk_meets P data fileSize offset
| webp_meets_later offset chunkID payload :
    webp_chunk_at data offset chunkID payload ->
    offset < fileSize + 8 ->
    webp_walk_meets P data fileSize (webp_next offset (len payload)) ->
    webp_walk_meets P data fileSize offset.

Definition webp_bad_exif_chunk (chunkID payload : list byte) : Prop :=
  chunkID = lit "EXIF" /\ bad_tiff_header payload.

(** *** Segments and chunks that every image of the format holds *)

(** A JFIF header segment: marker E0 and a payload of at least 7 bytes that
    starts with "JFIF" and a NUL. *)
Definition jpeg_jfif_segment (marker1 : byte) (segmentData : list byte) : Prop :=
  marker1 = xe0 /\ 7 <= len segmentData /\ firstn 5 segmentData = lit0 "JFIF".

(** An image header chunk with its 13 bytes, or more. *)
Definition png_ihdr_chunk (chunkType payload : list byte) (crc : Z) : Prop :=
  chunkType = lit "IHDR" /\ 13 <= len payload.

(** A chunk of image data, lossy or lossless. *)
Definition webp_image_chunk (chunkID payload : list byte) : Prop :=
  chunkID = lit "VP8 " \/ chunkID = lit "VP8L".

(** *** The end of every [Parse] *)

(** [if len(exifData) == 0 { return nil, fmt.Errorf(msg) }; return exifData, nil] *)
Definition finish (msg : string) (exifData : ExifData) : parsed :=
  if bool_decide (exifData = ∅) then Failure (Errorf msg) else Success exifData.

(** *** The names of the tag table *)

Definition exif_fields : list string :=
  ["ImageDescription"; "Make"; "Model"; "Orientation"; "Software"; "DateTime";
   "Artist"; "Copyright"; "ExposureTime"; "FNumber"; "ISO"; "DateTimeOriginal";
   "DateTimeDigitized"; "FocalLength"; "Flash"; "UserComment"; "ImageUniqueID";
   "WhiteBalance"; "CameraOwnerName"; "BodySerialNumber"; "LensMake"; "LensModel";
   "LensSerialNumber"].

(** [adds_exif_fields m m']: every field of [m'] is a field of [m] or
    carries a name of the tag table and a non-empty value. *)
Definition adds_exif_fields (m m' : ExifData) : Prop :=
  forall k v, m' !! k = Some v ->
    m !! k = Some v \/ (In k exif_fields /\ v <> EmptyString).

(** [ifd_has_pointer data byteOrder offset]: the directory at [offset]
    declares [numEntries] entries, and one of them, the entry [i], carries
    the tag of the EXIF sub-IFD pointer. *)
Definition ifd_has_pointer (data : list byte) (byteOrder : ByteOrder) (offset : Z) : Prop :=
  exists (bn : list byte) (numEntries i : Z) (b : list byte),
    slice data offset (offset + 2) = Ret bn /\
    Uint16 byteOrder bn = Ret numEntries /\
    0 <= i < numEntries /\
    slice data (offset + 2 + i * 12) (offset + 2 + i * 12 + 2) = Ret b /\
    Uint16 byteOrder b = Ret tagExifIFDPointer.

(** *** Writing segments and chunks *)

(** The byte with value [n mod 256]. *)
Definition byte_of_Z (n : Z) : byte :=
  match Byte.of_N (Z.to_N (n mod 256)) with
  | Some b => b
  | None => x00
  end.

Definition be16 (n : Z) : list byte := [byte_of_Z (n / 2 ^ 8); byte_of_Z n].

Definition be32 (n : Z) : list byte :=
  [byte_of_Z (n / 2 ^ 24); byte_of_Z (n / 2 ^ 16); byte_of_Z (n / 2 ^ 8); byte_of_Z n].

Definition le32_bytes (n : Z) : list byte :=
  [byte_of_Z n; byte_of_Z (n / 2 ^ 8); byte_of_Z (n / 2 ^ 16); byte_of_Z (n / 2 ^ 24)].

(** A JPEG segment: FF, the marker byte, the big-endian length (which
    counts itself), the payload. *)
Definition jpeg_segment_bytes (seg : byte * list byte) : list byte :=
  xff :: fst seg :: be16 (len (snd seg) + 2) ++ snd seg.

(** A PNG chunk: big-endian length, type, data, big-endian CRC field. *)
Definition png_chunk_bytes (c : list byte * list byte * Z) : list byte :=
  let '(chunkType, payload, crc) := c in
  be32 (len payload) ++ chunkType ++ payload ++ be32 crc.

(** A RIFF chunk: FourCC, little-endian size, payload, and the pad byte
    after a payload of odd size. *)
Definition webp_chunk_bytes (c : list byte * list byte) : list byte :=
  let '(chunkID, payload) := c in
  chunkID ++ le32_bytes (len payload) ++ payload ++
  (if len payload mod 2 =? 1 then [x00] else []).

(** *** A TIFF block with one ASCII entry, and its three containers *)

Definition le16_bytes (n : Z) : list byte := [byte_of_Z n; byte_of_Z (n / 2 ^ 8)].

(** A little-endian TIFF: the header with IFD0 at offset 8; a directory of
    one entry, [tag], ASCII, count [len text], value at offset 26; the
    next-IFD link 0; the text. *)
Definition tiff_ascii_entry (tag : Z) (text : list byte) : list byte :=
  [x49; x49; x2a; x00; x08; x00; x00; x00; x01; x00] ++
  le16_bytes tag ++ [x02; x00] ++ le32_bytes (len text) ++ [x1a; x00; x00; x00] ++
  [x00; x00; x00; x00] ++ text.

(** A little-endian TIFF whose single directory entry is [tag], SHORT, with
    the given count; the value field holds [v] and two zero bytes. *)
Definition tiff_short_entry (tag count v : Z) : list byte :=
  [x49; x49; x2a; x00; x08; x00; x00; x00; x01; x00] ++
  le16_bytes tag ++ [x03; x00] ++ le32_bytes count ++ le16_bytes v ++ [x00; x00] ++
  [x00; x00; x00; x00].

(** SOI, an APP1 segment "Exif\0\0" with the TIFF block, the start of scan
    and whatever follows it. *)
Definition jpeg_with_exif (tiff tail : list byte) : list byte :=
  [xff; xd8] ++ jpeg_segment_bytes (xe1, lit0 "Exif" ++ [x00] ++ tiff) ++
  [xff; xda] ++ tail.

(** The signature and an [eXIf] chunk with its right CRC-32. *)
Definition png_with_exif (tiff : list byte) : list byte :=
  pngSignature ++ png_chunk_bytes (lit "eXIf", tiff, ChecksumIEEE (lit "eXIf" ++ tiff)).

(** The RIFF header, with the size of what follows it, and an [EXIF]
    chunk. *)
Definition webp_with_exif (tiff : list byte) : list byte :=
  let chunk := webp_chunk_bytes (lit "EXIF", tiff) in
  lit "RIFF" ++ le32_bytes (4 + len chunk) ++ lit "WEBP" ++ chunk.

(** *** The handlers run over a list of segments or chunks *)

Fixpoint jpeg_fold (fuel : nat) (segs : list (byte * list byte)) (m : ExifData)
    : outcome ExifData :=
  match segs with
  | [] => Ret m
  | (marker1, payload) :: segs' =>
      m' <- jpeg_segment fuel (u8 marker1) payload m;
      jpeg_fold fuel segs' m'
  end.

Fixpoint png_fold (fuel : nat) (chunks : list (list byte * list byte * Z)) (m : ExifData)
    : outcome ExifData :=
  match chunks with
  | [] => Ret m
  | (chunkType, payload, crc) :: chunks' =>
      let m1 :=
        if negb (ChecksumIEEE (chunkType ++ payload) =? crc)
        then <["PNG_Warning" :=
                 "CRC mismatch for chunk " +:+ string_of_list_byte chunkType]> m
        else m in
      m' <- png_chunk fuel (string_of_list_byte chunkType) payload m1;
      png_fold fuel chunks' m'
  end.

Fixpoint webp_fold (fuel : nat) (chunks : list (list byte * list byte)) (m : ExifData)
    : outcome ExifData :=
  match chunks with
  | [] => Ret m
  | (chunkID, payload) :: chunks' =>
      m' <- webp_chunk fuel (string_of_list_byte chunkID) payload m;
      webp_fold fuel chunks' m'
  end.

(** The key under which [parseITXt] stores a text. *)
Definition itxt_key (keyword languageTag translatedKeyword : string) : string :=
  match languageTag, translatedKeyword with
  | EmptyString, EmptyString => "PNG_" +:+ keyword
  | EmptyString, _ =>
      "PNG_" +:+ keyword +:+ " (" +:+ "translated:" +:+ translatedKeyword +:+ ")"
  | _, EmptyString =>
      "PNG_" +:+ keyword +:+ " (" +:+ "lang:" +:+ languageTag +:+ ")"
  | _, _ =>
      "PNG_" +:+ keyword +:+ " (" +:+ "lang:" +:+ languageTag +:+ ", " +:+
      "translated:" +:+ translatedKeyword +:+ ")"
  end.

(** * Properties *)

(** ** Lengths *)

Lemma len_nil : len [] = 0.
Proof. reflexivity. Qed.

Lemma len_cons (b : byte) (s : list byte) : len (b :: s) = 1 + len s.
Proof. unfold len. cbn [length]. lia. Qed.

Lemma len_app (s t : list byte) : len (s ++ t) = len s + len t.
Proof. unfold len. rewrite length_app. lia. Qed.

Lemma len_nonneg (s : list byte) : 0 <= len s.
Proof. unfold len. lia. Qed.

(** ** Sums and conversions that do not wrap *)

Lemma wrap_int_range (n : Z) : - 2 ^ 31 <= wrap_int n < 2 ^ 31.
Proof. unfold wrap_int. pose proof (Z.mod_pos_bound (n + 2 ^ 31) (2 ^ 32) ltac:(lia)). lia. Qed.

Lemma wrap_int_small (n : Z) : - 2 ^ 31 <= n < 2 ^ 31 -> wrap_int n = n.
Proof. intros H. unfold wrap_int. rewrite Z.mod_small by lia. lia. Qed.

Lemma wrap_int_high (n : Z) : 2 ^ 31 <= n < 2 ^ 32 -> wrap_int n = n - 2 ^ 32.
Proof.
  intros H. unfold wrap_int.
  replace (n + 2 ^ 31) with (n - 2 ^ 31 + 1 * 2 ^ 32) by lia.
  rewrite Z.mod_add by lia. rewrite Z.mod_small by lia. lia.
Qed.

Lemma to_int_small (x : Z) : 0 <= x < 2 ^ 31 -> to_int x = x.
Proof. intros H. apply wrap_int_small. lia. Qed.

Lemma to_int_high (x : Z) : 2 ^ 31 <= x < 2 ^ 32 -> to_int x = x - 2 ^ 32.
Proof. apply wrap_int_high. Qed.

Lemma to_int_range (x : Z) : - 2 ^ 31 <= to_int x < 2 ^ 31.
Proof. apply wrap_int_range. Qed.

Lemma iadd_small (a b : Z) : - 2 ^ 31 <= a + b < 2 ^ 31 -> a +i b = a + b.
Proof. apply wrap_int_small. Qed.

Lemma iadd_range (a b : Z) : - 2 ^ 31 <= a +i b < 2 ^ 31.
Proof. apply wrap_int_range. Qed.

Lemma imul_small (a b : Z) : - 2 ^ 31 <= a * b < 2 ^ 31 -> a *i b = a * b.
Proof. apply wrap_int_small. Qed.

(** A sum that did not come out below its first operand did not wrap. *)
Lemma iadd_above (a b : Z) :
  0 <= a < 2 ^ 31 -> - 2 ^ 31 <= b < 2 ^ 31 -> a <= a +i b ->
  0 <= b /\ a +i b = a + b.
Proof.
  intros Ha Hb Hle.
  destruct (Z_lt_le_dec (a + b) (2 ^ 31)) as [Hlt|Hge].
  - rewrite iadd_small in * by lia. lia.
  - exfalso. unfold iadd in Hle. rewrite wrap_int_high in Hle by lia. lia.
Qed.

(** Replaces the conversions and sums of the goal that stay within 32 bits
    by those of [Z]. *)
Ltac nowrap :=
  repeat match goal with
         | |- context [to_int ?a] => rewrite (to_int_small a) by lia
         | |- context [?a +i ?b] => rewrite (iadd_small a b) by lia
         | |- context [?a *i ?b] => rewrite (imul_small a b) by lia
         end.

(** ** Indexing and slicing within bounds *)

Lemma index_nth (s : list byte) (i : Z) (b : byte) :
  0 <= i -> nth_error s (Z.to_nat i) = Some b -> index s i = Ret b.
Proof.
  intros Hi Hn. unfold index.
  assert (Hlt : (Z.to_nat i < length s)%nat).
  { apply nth_error_Some. rewrite Hn. discriminate. }
  replace ((0 <=? i) && (i <? len s)) with true.
  - rewrite Hn. reflexivity.
  - symmetry. apply andb_true_iff. split; [apply Z.leb_le|apply Z.ltb_lt]; unfold len; lia.
Qed.

Lemma index_in_range (s : list byte) (i : Z) :
  0 <= i < len s -> exists b, index s i = Ret b.
Proof.
  intros Hi. destruct (nth_error s (Z.to_nat i)) as [b|] eqn:E.
  - exists b. apply index_nth; [lia|exact E].
  - apply nth_error_None in E. unfold len in Hi. lia.
Qed.

Lemma slice_in_range (s : list byte) (lo hi : Z) :
  0 <= lo -> lo <= hi -> hi <= len s ->
  slice s lo hi = Ret (firstn (Z.to_nat (hi - lo)) (skipn (Z.to_nat lo) s)).
Proof.
  intros H1 H2 H3. unfold slice.
  replace ((0 <=? lo) && (lo <=? hi) && (hi <=? len s)) with true; [reflexivity|].
  symmetry. rewrite !andb_true_iff, !Z.leb_le. auto.
Qed.

Lemma slice_len (s : list byte) (lo hi : Z) (r : list byte) :
  slice s lo hi = Ret r -> 0 <= lo /\ lo <= hi /\ hi <= len s /\ len r = hi - lo.
Proof.
  unfold slice. destruct (_ && _) eqn:E; [|discriminate].
  rewrite !andb_true_iff, !Z.leb_le in E. destruct E as [[H1 H2] H3].
  intros [= <-]. repeat split; try assumption.
  unfold len in *. rewrite length_firstn, length_skipn. lia.
Qed.

Lemma slice_out_of_range (s : list byte) (lo hi : Z) :
  lo < 0 \/ hi < lo \/ len s < hi -> slice s lo hi = Panic.
Proof.
  intros H. unfold slice.
  destruct (Z.leb_spec 0 lo), (Z.leb_spec lo hi), (Z.leb_spec hi (len s));
    cbn [andb]; try reflexivity; lia.
Qed.

(** The slice that cuts [x] out of [pre ++ x ++ post]. *)
Lemma slice_at (data pre x post : list byte) (lo hi : Z) :
  data = pre ++ x ++ post -> lo = len pre -> hi = lo + len x ->
  slice data lo hi = Ret x.
Proof.
  intros -> -> ->. pose proof (len_nonneg pre). pose proof (len_nonneg x).
  rewrite slice_in_range; try lia.
  - f_equal. unfold len.
    replace (Z.to_nat (Z.of_nat (length pre) + Z.of_nat (length x) - Z.of_nat (length pre)))
      with (length x) by lia.
    rewrite Nat2Z.id, drop_app_length. apply take_app_length.
  - rewrite !len_app. pose proof (len_nonneg post). lia.
Qed.

(** ** Bytes as numbers *)

Lemma u8_range (b : byte) : 0 <= u8 b < 256.
Proof. unfold u8. pose proof (Byte.to_N_bounded b). lia. Qed.

Lemma lor_shiftl_add (a b n : Z) :
  0 <= n -> 0 <= a < 2 ^ n -> Z.lor a (Z.shiftl b n) = a + b * 2 ^ n.
Proof.
  intros Hn Ha. rewrite <- Z.shiftl_mul_pow2 by lia.
  rewrite <- Z.add_lor_land.
  replace (Z.land a (Z.shiftl b n)) with 0; [lia|].
  symmetry. apply Z.bits_inj'. intros i Hi.
  rewrite Z.land_spec, Z.bits_0.
  destruct (Z.lt_ge_cases i n) as [Hlt|Hge].
  - rewrite Z.shiftl_spec_low by lia. apply andb_false_r.
  - replace (Z.testbit a i) with false; [reflexivity|].
    symmetry. destruct (Z.eq_dec a 0) as [->|Hnz]; [apply Z.bits_0|].
    apply Z.bits_above_log2; [lia|].
    assert (Z.log2 a < n) by (apply Z.log2_lt_pow2; lia). lia.
Qed.

Lemma le24_value (b0 b1 b2 : byte) :
  le24 b0 b1 b2 = u8 b0 + 2 ^ 8 * u8 b1 + 2 ^ 16 * u8 b2.
Proof.
  unfold le24. pose proof (u8_range b0). pose proof (u8_range b1).
  pose proof (u8_range b2).
  rewrite (lor_shiftl_add (u8 b0) (u8 b1) 8) by lia.
  rewrite lor_shiftl_add by lia. lia.
Qed.

Lemma le32_value (b0 b1 b2 b3 : byte) :
  le32 b0 b1 b2 b3 = u8 b0 + 2 ^ 8 * u8 b1 + 2 ^ 16 * u8 b2 + 2 ^ 24 * u8 b3.
Proof.
  unfold le32. pose proof (u8_range b0). pose proof (u8_range b1).
  pose proof (u8_range b2). pose proof (u8_range b3).
  rewrite (lor_shiftl_add (u8 b0) (u8 b1) 8) by lia.
  rewrite (lor_shiftl_add _ (u8 b2) 16) by lia.
  rewrite lor_shiftl_add by lia. lia.
Qed.

Lemma le32_range (b0 b1 b2 b3 : byte) : 0 <= le32 b0 b1 b2 b3 < 2 ^ 32.
Proof.
  rewrite le32_value. pose proof (u8_range b0). pose proof (u8_range b1).
  pose proof (u8_range b2). pose proof (u8_range b3). lia.
Qed.

Lemma Uint16_range (bo : ByteOrder) (b : list byte) (v : Z) :
  Uint16 bo b = Ret v -> 0 <= v < 2 ^ 16.
Proof.
  unfold Uint16.
  destruct (index b 0) as [b0| |]; try discriminate. cbn [bind].
  destruct (index b 1) as [b1| |]; try discriminate. cbn [bind].
  pose proof (u8_range b0). pose proof (u8_range b1).
  intros [= <-]. destruct bo; rewrite lor_shiftl_add by lia; lia.
Qed.

(** ** The reader *)

Lemma reader_Read_2 (b0 b1 : byte) (r : list byte) :
  reader_Read (b0 :: b1 :: r) 2 = Some ([b0; b1], r).
Proof. reflexivity. Qed.

(** ** Detection and dispatch *)

Lemma DetectFormat_short (data : list byte) :
  len data < 12 -> DetectFormat data = FormatUnknown.
Proof.
  intros H. unfold DetectFormat.
  destruct (len data <? 12) eqn:E; [reflexivity|].
  apply Z.ltb_ge in E. lia.
Qed.

(** C5, as stated, fails: the three bytes FF D8 FF alone are a buffer of
    length 3 that starts with the JPEG signature, and [DetectFormat] answers
    [FormatUnknown] for it. *)
Lemma DetectFormat_three_byte_jpeg_unknown :
  3 <= len [xff; xd8; xff] /\
  firstn 3 [xff; xd8; xff] = [xff; xd8; xff] /\
  DetectFormat [xff; xd8; xff] = FormatUnknown /\
  DetectFormat [xff; xd8; xff] <> FormatJPEG.
Proof. repeat split; try reflexivity; vm_compute; discriminate. Qed.

(** C5, amended: [DetectFormat] asks for 12 bytes before any signature
    check, the JPEG one included.  A buffer of at least 12 bytes that
    starts with FF D8 FF is JPEG; every buffer shorter than 12 bytes is
    Unknown. *)
Theorem DetectFormat_jpeg_needs_12 (data : list byte) :
  (12 <= len data -> firstn 3 data = [xff; xd8; xff] ->
   DetectFormat data = FormatJPEG) /\
  (len data < 12 -> DetectFormat data = FormatUnknown).
Proof.
  split; [|apply DetectFormat_short].
  intros Hlen Hpre. unfold DetectFormat.
  destruct (len data <? 12) eqn:E; [apply Z.ltb_lt in E; lia|].
  destruct data as [|b0 [|b1 [|b2 rest]]]; try discriminate.
  cbn in Hpre. injection Hpre as -> -> ->. reflexivity.
Qed.

(** Every buffer of fewer than 12 bytes, the empty one included, gets the
    [UnsupportedFormatError]. *)
Lemma ParseImage_short_is_unsupported (fuel : nat) (data : list byte) :
  len data < 12 ->
  ParseImage fuel data = Ret (Failure (UnsupportedFormatError FormatUnknown)).
Proof.
  intros H. unfold ParseImage. rewrite (DetectFormat_short data H). reflexivity.
Qed.

(** A buffer detected as TIFF does not start with the byte FF. *)
Lemma DetectFormat_tiff_header (data : list byte) :
  DetectFormat data = FormatTIFF ->
  exists b0 b1 rest, data = b0 :: b1 :: rest /\ (u8 b0 =? 0xFF) = false.
Proof.
  unfold DetectFormat. intros H.
  destruct (len data <? 12) eqn:Hlen; [discriminate|].
  apply Z.ltb_ge in Hlen.
  destruct data as [|b0 [|b1 rest]];
    try (rewrite ?len_cons, ?len_nil in Hlen; lia).
  exists b0, b1, rest. split; [reflexivity|].
  unfold byte_at_is in H; cbn [nth_error] in H.
  destruct ((u8 b0 =? 255) && (u8 b1 =? 216) && _) eqn:E1; [discriminate|].
  destruct (_ || _) eqn:E2; [clear H|repeat destruct (_ && _) in H; discriminate].
  apply orb_true_iff in E2 as [E2|E2];
    repeat (apply andb_true_iff in E2 as [E2 ?]);
    apply Z.eqb_eq in E2; apply Z.eqb_neq; lia.
Qed.

(** Every buffer detected as TIFF goes to the JPEG/TIFF decoder and is
    turned down by its JPEG header check. *)
Lemma ParseImage_tiff_is_rejected (fuel : nat) (data : list byte) :
  DetectFormat data = FormatTIFF ->
  exists h0 h1 : Z,
    ParseImage fuel data =
      Ret (Failure (Errorf ("not a valid JPEG file (header: " +:+ fmt_02X h0 +:+ " "
                            +:+ fmt_02X h1 +:+ ")"))).
Proof.
  intros H. destruct (DetectFormat_tiff_header data H) as (b0 & b1 & rest & -> & Hb0).
  exists (u8 b0), (u8 b1).
  unfold ParseImage. rewrite H. cbn [GetParser Parse].
  unfold ExifParser_Parse, SimpleExifParser_Parse.
  rewrite reader_Read_2.
  change (index [b0; b1] 0) with (Ret b0).
  change (index [b0; b1] 1) with (Ret b1).
  cbn [bind]. rewrite Hb0. reflexivity.
Qed.

(** Where the dispatcher sends a buffer that opens with a whole signature. *)
Lemma ParseImage_jpeg (fuel : nat) (r : list byte) :
  9 <= len r ->
  ParseImage fuel (xff :: xd8 :: xff :: r) = ExifParser_Parse fuel (xff :: xd8 :: xff :: r).
Proof.
  intros H. unfold ParseImage, DetectFormat.
  replace (len (xff :: xd8 :: xff :: r) <? 12) with false
    by (symmetry; apply Z.ltb_ge; rewrite !len_cons; lia).
  reflexivity.
Qed.

Lemma ParseImage_png (fuel : nat) (rest : list byte) :
  4 <= len rest ->
  ParseImage fuel (pngSignature ++ rest) = PNGParser_Parse fuel (pngSignature ++ rest).
Proof.
  intros H. unfold ParseImage, DetectFormat.
  replace (len (pngSignature ++ rest) <? 12) with false
    by (symmetry; apply Z.ltb_ge; rewrite len_app; change (len pngSignature) with 8; lia).
  reflexivity.
Qed.

Lemma ParseImage_webp (fuel : nat) (d4 d5 d6 d7 : byte) (rest : list byte) :
  let data := lit "RIFF" ++ [d4; d5; d6; d7] ++ lit "WEBP" ++ rest in
  ParseImage fuel data = WebPParser_Parse fuel data.
Proof.
  intros data. unfold ParseImage, DetectFormat.
  replace (len data <? 12) with false.
  - reflexivity.
  - symmetry. apply Z.ltb_ge. unfold data.
    rewrite !len_app, !len_cons, len_nil. pose proof (len_nonneg rest).
    change (len (lit "RIFF")) with 4. change (len (lit "WEBP")) with 4. lia.
Qed.

(** ** The JPEG/TIFF decoder on the sample buffers *)

(** C6: the APP1/Exif JPEG with the one ASCII entry Make = "Acme" decodes to
    the map with that single field, whether the value sits behind an offset
    (count 5, with its NUL) or inline (count 4). *)
Theorem ParseImage_jpeg_make_acme (fuel : nat) :
  ParseImage (S fuel) jpeg_make_acme = Ret (Success {[ "Make" := "Acme" ]}) /\
  ParseImage (S fuel) jpeg_make_acme_inline = Ret (Success {[ "Make" := "Acme" ]}).
Proof. split; vm_compute; reflexivity. Qed.

(** C1 at a well-formed standalone TIFF: the buffer is detected as TIFF,
    the registry hands it to the JPEG/TIFF decoder, the IFD walker by
    itself decodes its Make entry, and yet [ParseImage] returns the JPEG
    header error instead of the map. *)
Theorem ParseImage_tiff_make_acme_fails (fuel : nat) :
  DetectFormat tiff_make_acme = FormatTIFF /\
  GetParser FormatTIFF = Some ExifParser /\
  ParseTIFF (S fuel) tiff_make_acme ∅ = Ret ({[ "Make" := "Acme" ]}, None) /\
  ParseImage fuel tiff_make_acme =
    Ret (Failure (Errorf "not a valid JPEG file (header: 49 49)")).
Proof. repeat split; vm_compute; reflexivity. Qed.

(** C2 at the APP0 segment whose payload is exactly "JFIF\0": the handler
    indexes [segmentData[5]] and the parse panics. *)
Theorem ParseImage_jfif_short_panics (fuel : nat) :
  DetectFormat jpeg_jfif_short = FormatJPEG /\
  ParseImage fuel jpeg_jfif_short = Panic.
Proof. split; vm_compute; reflexivity. Qed.

(** ** The PNG decoder on the sample buffers *)

(** C4 at a PNG with a [tEXt] chunk after [IEND]: the walk goes on past
    [IEND] and the later chunk supplies the only field of the result. *)
Theorem ParseImage_text_after_iend (fuel : nat) :
  ParseImage fuel (pngSignature ++ png_iend_chunk) =
    Ret (Failure (Errorf "no metadata found in PNG")) /\
  ParseImage fuel png_text_after_iend = Ret (Success {[ "PNG_Comment" := "Hello" ]}).
Proof. split; vm_compute; reflexivity. Qed.

(** ** The WebP extended header *)

Lemma vp8x_canvas (fuel : nat) (f0 f1 f2 f3 c4 c5 c6 c7 c8 c9 : byte)
    (rest : list byte) (m : ExifData) :
  exists m',
    webp_chunk fuel "VP8X" (f0 :: f1 :: f2 :: f3 :: c4 :: c5 :: c6 :: c7 :: c8 :: c9 :: rest) m
      = Ret m' /\
    m' !! "WebP_Canvas_Width" = Some (fmt_d (u8 c4 + 2 ^ 8 * u8 c5 + 2 ^ 16 * u8 c6 + 1)) /\
    m' !! "WebP_Canvas_Height" = Some (fmt_d (u8 c7 + 2 ^ 8 * u8 c8 + 2 ^ 16 * u8 c9 + 1)).
Proof.
  set (chunkData := f0 :: f1 :: f2 :: f3 :: c4 :: c5 :: c6 :: c7 :: c8 :: c9 :: rest).
  assert (Hlen : (len chunkData >=? 10) = true).
  { unfold chunkData. rewrite !len_cons. pose proof (len_nonneg rest).
    apply Z.geb_le. lia. }
  assert (Hw : wrap32 (le24 c4 c5 c6 + 1) = u8 c4 + 2 ^ 8 * u8 c5 + 2 ^ 16 * u8 c6 + 1).
  { rewrite le24_value. unfold wrap32. apply Z.mod_small.
    pose proof (u8_range c4). pose proof (u8_range c5). pose proof (u8_range c6). lia. }
  assert (Hh : wrap32 (le24 c7 c8 c9 + 1) = u8 c7 + 2 ^ 8 * u8 c8 + 2 ^ 16 * u8 c9 + 1).
  { rewrite le24_value. unfold wrap32. apply Z.mod_small.
    pose proof (u8_range c7). pose proof (u8_range c8). pose proof (u8_range c9). lia. }
  unfold webp_chunk.
  change ("VP8X" =? "EXIF")%string with false.
  change ("VP8X" =? "XMP ")%string with false.
  change ("VP8X" =? "VP8X")%string with true.
  cbv iota. rewrite Hlen.
  rewrite (index_nth chunkData 0 f0), (index_nth chunkData 4 c4),
    (index_nth chunkData 5 c5), (index_nth chunkData 6 c6),
    (index_nth chunkData 7 c7), (index_nth chunkData 8 c8),
    (index_nth chunkData 9 c9) by (reflexivity || lia).
  cbn [bind]. rewrite Hw, Hh.
  eexists. split; [reflexivity|].
  split.
  - rewrite lookup_insert_ne by discriminate. apply lookup_insert_eq.
  - apply lookup_insert_eq.
Qed.

(** C8: for a VP8X payload of at least 10 bytes the stored canvas width is
    the 24-bit little-endian number in bytes 4..6 plus 1 and the stored
    height the one in bytes 7..9 plus 1, both in decimal. *)
Theorem vp8x_canvas_is_raw_plus_one (fuel : nat) (chunkData : list byte) (m : ExifData) :
  10 <= len chunkData ->
  exists (c4 c5 c6 c7 c8 c9 : byte) (m' : ExifData),
    chunkData !! 4%nat = Some c4 /\ chunkData !! 5%nat = Some c5 /\
    chunkData !! 6%nat = Some c6 /\ chunkData !! 7%nat = Some c7 /\
    chunkData !! 8%nat = Some c8 /\ chunkData !! 9%nat = Some c9 /\
    webp_chunk fuel "VP8X" chunkData m = Ret m' /\
    m' !! "WebP_Canvas_Width" = Some (fmt_d (u8 c4 + 2 ^ 8 * u8 c5 + 2 ^ 16 * u8 c6 + 1)) /\
    m' !! "WebP_Canvas_Height" = Some (fmt_d (u8 c7 + 2 ^ 8 * u8 c8 + 2 ^ 16 * u8 c9 + 1)).
Proof.
  intros Hlen.
  destruct chunkData as [|f0 [|f1 [|f2 [|f3 [|c4 [|c5 [|c6 [|c7 [|c8 [|c9 rest]]]]]]]]]];
    try (rewrite ?len_cons, ?len_nil in Hlen; lia).
  destruct (vp8x_canvas fuel f0 f1 f2 f3 c4 c5 c6 c7 c8 c9 rest m) as (m' & H1 & H2 & H3).
  exists c4, c5, c6, c7, c8, c9, m'. repeat split; assumption.
Qed.

(** The sample: a raw width field of 99 is stored as "100". *)
Lemma ParseImage_webp_vp8x_99 (fuel : nat) :
  ParseImage fuel webp_vp8x_99 =
    Ret (Success {[ "WebP_Canvas_Width" := "100"; "WebP_Canvas_Height" := "50" ]}).
Proof. vm_compute. reflexivity. Qed.

(** ** The self-referential EXIF directory *)

(** Walking the directory at offset 8 of [tiff_self_pointer] comes down to
    walking the directory at offset 8 again. *)
Lemma parseIFD_body_self_pointer (rec : Z -> ExifData -> outcome ExifData) (m : ExifData) :
  parseIFD_body rec tiff_self_pointer 8 LittleEndian m = (m' <- rec 8 m; Ret m').
Proof. vm_compute. reflexivity. Qed.

Lemma parseIFD_self_pointer (fuel : nat) (m : ExifData) :
  parseIFD fuel tiff_self_pointer 8 LittleEndian m = OutOfFuel.
Proof.
  induction fuel as [|fuel IH]; [reflexivity|].
  cbn [parseIFD]. rewrite parseIFD_body_self_pointer, IH. reflexivity.
Qed.

Lemma ParseTIFF_self_pointer (fuel : nat) (m : ExifData) :
  ParseTIFF fuel tiff_self_pointer m = OutOfFuel.
Proof.
  unfold ParseTIFF.
  change (len tiff_self_pointer <? 8) with false. cbv iota.
  change (index tiff_self_pointer 0) with (Ret x49).
  change (index tiff_self_pointer 1) with (Ret x49).
  cbn [bind]. change (u8 x49 =? 73) with true. cbn [andb].
  change (slice tiff_self_pointer 4 8) with (Ret [x08; x00; x00; x00]).
  cbn [bind]. change (Uint32 LittleEndian [x08; x00; x00; x00]) with (Ret 8).
  cbn [bind]. rewrite parseIFD_self_pointer. reflexivity.
Qed.

(** C3 at the JPEG whose EXIF directory points to itself: whatever the
    recursion budget, the parse uses it up; no budget gives a result. *)
Theorem ParseImage_self_pointer_diverges (fuel : nat) :
  DetectFormat jpeg_self_pointer = FormatJPEG /\
  ParseImage fuel jpeg_self_pointer = OutOfFuel.
Proof.
  split; [reflexivity|].
  lazy -[ParseTIFF].
  match goal with
  | |- context [ParseTIFF ?f ?d ?m] =>
      replace (ParseTIFF f d m) with (@OutOfFuel (ExifData * option string))
        by (symmetry; apply ParseTIFF_self_pointer)
  end.
  reflexivity.
Qed.

(** ** No decoder removes a field *)

Lemma keeps_Ret (m r : ExifData) : dom m ⊆ dom r -> keeps m (Ret r).
Proof. intros H r' [= <-]. exact H. Qed.

Lemma keeps_bind {A : Type} (m : ExifData) (c : outcome A) (f : A -> outcome ExifData) :
  (forall a, c = Ret a -> keeps m (f a)) -> keeps m (a <- c; f a).
Proof. intros H r. destruct c as [a| |]; try discriminate. cbn. apply H. reflexivity. Qed.

Lemma keeps_weaken (m m' : ExifData) (c : outcome ExifData) :
  dom m ⊆ dom m' -> keeps m' c -> keeps m c.
Proof. intros H Hc r Hr. etransitivity; [exact H|apply Hc, Hr]. Qed.

Lemma dom_insert_grows (k v : string) (m : ExifData) : dom m ⊆ dom (<[k := v]> m).
Proof. rewrite dom_insert_L. set_solver. Qed.

Ltac keeps_step :=
  match goal with
  | |- keeps _ (Ret _) => apply keeps_Ret
  | |- keeps _ (bind _ _) => apply keeps_bind; intros ? ?
  | |- keeps _ (if ?b then _ else _) => destruct b
  | |- keeps _ (match ?x with _ => _ end) => destruct x
  | |- keeps _ (let _ := _ in _) => cbv zeta
  | |- dom ?m ⊆ dom ?m => reflexivity
  | |- dom ?m ⊆ dom (<[_ := _]> ?m') =>
      etransitivity; [|apply dom_insert_grows]
  | |- dom _ ⊆ dom (if ?b then _ else _) => destruct b
  | |- dom _ ⊆ dom (match ?x with _ => _ end) => destruct x
  end.

Ltac keeps_tac := repeat keeps_step.

Lemma parseIHDR_keeps data m : keeps m (parseIHDR data m).
Proof. unfold parseIHDR. keeps_tac. Qed.

Lemma parseTEXt_keeps data m : keeps m (parseTEXt data m).
Proof. unfold parseTEXt. keeps_tac. Qed.

Lemma parseZTXt_keeps data m : keeps m (parseZTXt data m).
Proof. unfold parseZTXt. keeps_tac. Qed.

Lemma parseITXt_keeps data m : keeps m (parseITXt data m).
Proof. unfold parseITXt. keeps_tac. Qed.

Lemma parsePHYs_keeps data m : keeps m (parsePHYs data m).
Proof. unfold parsePHYs. keeps_tac. Qed.

Lemma parseTIME_keeps data m : keeps m (parseTIME data m).
Proof. unfold parseTIME. keeps_tac. Qed.

Lemma parseICCP_keeps data m : keeps m (parseICCP data m).
Proof. unfold parseICCP. keeps_tac. Qed.

Lemma parseTag_keeps rec tag dataType count offset data byteOrder m :
  (forall o m', keeps m' (rec o m')) ->
  keeps m (parseTag rec tag dataType count offset data byteOrder m).
Proof. intros Hrec. unfold parseTag. keeps_tac. apply Hrec. Qed.

Lemma ifd_entries_keeps rec data byteOrder offset n :
  (forall o m', keeps m' (rec o m')) ->
  forall i m, keeps m (ifd_entries rec data byteOrder offset n i m).
Proof.
  intros Hrec. induction n as [|n IH]; intros i m; cbn [ifd_entries].
  - keeps_tac.
  - keeps_tac.
    match goal with
    | H : parseTag _ _ _ _ _ _ _ _ = Ret ?m' |- _ =>
        apply (keeps_weaken m m'); [apply (parseTag_keeps _ _ _ _ _ _ _ _ Hrec _ H)|apply IH]
    end.
Qed.

Lemma parseIFD_keeps fuel data :
  forall offset byteOrder m, keeps m (parseIFD fuel data offset byteOrder m).
Proof.
  induction fuel as [|fuel IH]; intros offset byteOrder m; cbn [parseIFD].
  - intros r [=].
  - unfold parseIFD_body. keeps_tac. apply ifd_entries_keeps.
    intros o m'. apply IH.
Qed.

Lemma ParseTIFF_keeps fuel data m m' err :
  ParseTIFF fuel data m = Ret (m', err) -> dom m ⊆ dom m'.
Proof.
  unfold ParseTIFF.
  destruct (len data <? 8); [intros [= <- _]; reflexivity|].
  destruct (index data 0) as [d0| |]; try discriminate.
  destruct (index data 1) as [d1| |]; try discriminate. cbn [bind].
  destruct (slice data 4 8) as [b| |];
    [|repeat destruct (_ && _); cbn; (discriminate || intros [= <- _]; reflexivity)..].
  cbn [bind].
  assert (Hgo : forall bo,
    (ifdOffset <- Uint32 bo b;
     m0 <- parseIFD fuel data (to_int ifdOffset) bo m; Ret (m0, @None string))
      = Ret (m', err) -> dom m ⊆ dom m').
  { intros bo. destruct (Uint32 bo b) as [o| |]; try discriminate. cbn [bind].
    destruct (parseIFD fuel data (to_int o) bo m) as [m0| |] eqn:E; try discriminate.
    intros [= <- _]. apply (parseIFD_keeps fuel data (to_int o) bo m), E. }
  repeat destruct (_ && _); try apply Hgo. intros [= <- _]. reflexivity.
Qed.

(** The EXIF branch shared by the three container walkers. *)
Lemma exif_branch_keeps fuel data m :
  keeps m ('(m', err) <- ParseTIFF fuel data m;
           match err with
           | Some e => Ret (<["EXIF_ParseError" := e]> m')
           | None => Ret m'
           end).
Proof.
  intros r. destruct (ParseTIFF fuel data m) as [[m' err]| |] eqn:E; try discriminate.
  apply ParseTIFF_keeps in E. cbn [bind].
  destruct err; intros [= <-]; [|exact E].
  etransitivity; [exact E|apply dom_insert_grows].
Qed.

Lemma png_chunk_keeps fuel chunkType chunkData m :
  keeps m (png_chunk fuel chunkType chunkData m).
Proof.
  unfold png_chunk.
  repeat match goal with
         | |- keeps _ (if (_ =? _)%string then _ else _) => destruct (_ =? _)%string
         end;
    auto using parseIHDR_keeps, parseTEXt_keeps, parseZTXt_keeps, parseITXt_keeps,
      parsePHYs_keeps, parseTIME_keeps, parseICCP_keeps, exif_branch_keeps;
    keeps_tac.
Qed.

Lemma webp_chunk_keeps fuel chunkID chunkData m :
  keeps m (webp_chunk fuel chunkID chunkData m).
Proof.
  unfold webp_chunk.
  destruct (chunkID =? "EXIF")%string; [apply exif_branch_keeps|].
  keeps_tac.
Qed.

Lemma jpeg_segment_keeps fuel marker1 segmentData m :
  keeps m (jpeg_segment fuel marker1 segmentData m).
Proof.
  unfold jpeg_segment. cbv zeta.
  repeat match goal with
         | |- keeps _ (if (_ =? _) then _ else _) => destruct (_ =? _)
         | |- keeps _ (bind (has_prefix _ _ _) _) => apply keeps_bind; intros [] _
         | |- keeps _ (bind (slice_from _ _) _) => apply keeps_bind; intros ? _
         end;
    try apply exif_branch_keeps; keeps_tac.
Qed.

(** ** The PNG chunk walk *)

Lemma png_step_keeps fuel data offset m s :
  png_step fuel data offset m = Ret s ->
  match s with
  | Next (_, m') => dom m ⊆ dom m'
  | Stop m' => m' = m
  end.
Proof.
  unfold png_step.
  destruct (_ >? _); [intros [= <-]; reflexivity|].
  destruct (slice data offset _) as [bl| |]; try discriminate. cbn [bind].
  destruct (Uint32 BigEndian bl) as [chunkLength| |]; try discriminate. cbn [bind].
  destruct (slice data _ _) as [bt| |]; try discriminate.
  cbn [bind]. cbv zeta.
  destruct (_ >? _); [intros [= <-]; reflexivity|].
  destruct (slice data _ _) as [chunkData| |]; try discriminate. cbn [bind].
  destruct (slice data _ _) as [bc| |]; try discriminate. cbn [bind].
  destruct (Uint32 BigEndian bc) as [chunkCRC| |]; try discriminate. cbn [bind].
  destruct (png_chunk _ _ _ _) as [m'| |] eqn:E; try discriminate. cbn [bind].
  intros [= <-]. apply png_chunk_keeps in E.
  destruct (negb _); [|exact E].
  etransitivity; [apply dom_insert_grows|exact E].
Qed.

Lemma png_chunks_keeps fuel data n :
  forall offset m, keeps m (png_chunks n fuel data offset m).
Proof.
  induction n as [|n IH]; intros offset m r; cbn [png_chunks]; [discriminate|].
  destruct (offset <? len data); [|intros [= <-]; reflexivity].
  destruct (png_step fuel data offset m) as [s| |] eqn:E; try discriminate.
  apply png_step_keeps in E. cbn [bind].
  destruct s as [[offset' m']|m'].
  - intros Hr. etransitivity; [exact E|apply (IH offset' m'), Hr].
  - intros [= <-]. subst m'. reflexivity.
Qed.

Lemma png_chunk_at_bounds data offset chunkType payload crc :
  png_chunk_at data offset chunkType payload crc ->
  0 <= offset /\ offset + 12 + len payload <= len data.
Proof.
  intros (pre & lenb & crcb & post & -> & <- & Hl & _ & Ht & Hc & _).
  rewrite !len_app. pose proof (len_nonneg pre). pose proof (len_nonneg post). lia.
Qed.

(** What one iteration of the loop does at a whole chunk. *)
Lemma png_step_at fuel data offset chunkType payload crc m :
  len data < 2 ^ 31 ->
  png_chunk_at data offset chunkType payload crc ->
  png_step fuel data offset m =
    (m' <- png_chunk fuel (string_of_list_byte chunkType) payload
             (if negb (ChecksumIEEE (chunkType ++ payload) =? crc)
              then <["PNG_Warning" :=
                       "CRC mismatch for chunk " +:+ string_of_list_byte chunkType]> m
              else m);
     Ret (Next (offset + 12 + len payload, m'))).
Proof.
  intros Hlen (pre & lenb & crcb & post & -> & <- & Hl & HL & Ht & Hc & HC).
  pose proof (len_nonneg pre). pose proof (len_nonneg post).
  pose proof (len_nonneg payload). rewrite !len_app in Hlen.
  unfold png_step. nowrap.
  replace (len pre + 8 >? _) with false
    by (symmetry; rewrite Z.gtb_ltb; apply Z.ltb_ge; rewrite !len_app; lia).
  rewrite (slice_at _ pre lenb (chunkType ++ payload ++ crcb ++ post))
    by (reflexivity || lia).
  cbn [bind]. rewrite HL. cbn [bind].
  rewrite (slice_at _ (pre ++ lenb) chunkType (payload ++ crcb ++ post))
    by (rewrite <- ?app_assoc, ?len_app; reflexivity || lia).
  cbn [bind]. cbv zeta. nowrap.
  replace (len pre + 8 + len payload + 4 >? _) with false
    by (symmetry; rewrite Z.gtb_ltb; apply Z.ltb_ge; rewrite !len_app; lia).
  rewrite (slice_at _ (pre ++ lenb ++ chunkType) payload (crcb ++ post))
    by (rewrite <- ?app_assoc, ?len_app; reflexivity || lia).
  cbn [bind].
  rewrite (slice_at _ (pre ++ lenb ++ chunkType ++ payload) crcb post)
    by (rewrite <- ?app_assoc, ?len_app; reflexivity || lia).
  cbn [bind]. rewrite HC. cbn [bind].
  rewrite list_byte_of_string_of_list_byte.
  replace (len pre + 8 + (len payload + 4)) with (len pre + 12 + len payload) by lia.
  reflexivity.
Qed.

(** If handling a chunk that satisfies [P] always leaves the key [k] in the
    map, a walk that meets such a chunk and returns, returns a map with
    [k]. *)
Lemma png_chunks_meets (k : string) (P : list byte -> list byte -> Z -> Prop) fuel data :
  len data < 2 ^ 31 ->
  (forall offset chunkType payload crc m s,
     png_chunk_at data offset chunkType payload crc -> P chunkType payload crc ->
     png_step fuel data offset m = Ret s ->
     exists m', s = Next (offset + 12 + len payload, m') /\ k ∈ dom m') ->
  forall offset, png_walk_meets P data offset ->
  forall n m r, png_chunks n fuel data offset m = Ret r -> k ∈ dom r.
Proof.
  intros Hlen HP offset Hmeets.
  induction Hmeets as [offset ty payload crc Hat HPc|offset ty payload crc Hat _ IH];
    intros [|n] m r; cbn [png_chunks]; try discriminate;
    pose proof (png_chunk_at_bounds _ _ _ _ _ Hat) as [Hlo Hhi];
    pose proof (len_nonneg payload);
    (replace (offset <? len data) with true by (symmetry; apply Z.ltb_lt; lia)).
  - destruct (png_step fuel data offset m) as [s| |] eqn:E; try discriminate.
    destruct (HP _ _ _ _ _ _ Hat HPc E) as (m' & -> & Hk). cbn [bind].
    intros Hr. apply (png_chunks_keeps fuel data n _ m' r Hr), Hk.
  - rewrite (png_step_at _ _ _ _ _ _ _ Hlen Hat).
    destruct (png_chunk _ _ _ _) as [m'| |]; try discriminate. cbn [bind].
    apply IH.
Qed.

(** A map with a key is not the empty map. *)
Lemma dom_elem_nonempty (k : string) (m : ExifData) :
  k ∈ dom m -> bool_decide (m = ∅) = false.
Proof.
  intros Hk. apply bool_decide_eq_false. intros ->.
  rewrite dom_empty_L in Hk. set_solver.
Qed.

Lemma PNGParser_Parse_signed fuel rest :
  PNGParser_Parse fuel (pngSignature ++ rest) =
    (exifData <- png_chunks (S (length (pngSignature ++ rest))) fuel (pngSignature ++ rest) 8 ∅;
     if bool_decide (exifData = ∅)
     then Ret (Failure (Errorf "no metadata found in PNG"))
     else Ret (Success exifData)).
Proof.
  unfold PNGParser_Parse. pose proof (len_nonneg rest).
  replace (len (pngSignature ++ rest) <? 8) with false
    by (symmetry; apply Z.ltb_ge; rewrite len_app; change (len pngSignature) with 8; lia).
  rewrite (slice_at _ [] pngSignature rest) by reflexivity.
  reflexivity.
Qed.

(** A PNG walk that meets a chunk after which the key [k] is in the map
    never ends in an error: if the parse returns, it returns a map with
    [k]. *)
Lemma PNGParser_Parse_meets (k : string) (P : list byte -> list byte -> Z -> Prop)
    fuel rest :
  len (pngSignature ++ rest) < 2 ^ 31 ->
  (forall offset chunkType payload crc m s,
     png_chunk_at (pngSignature ++ rest) offset chunkType payload crc ->
     P chunkType payload crc ->
     png_step fuel (pngSignature ++ rest) offset m = Ret s ->
     exists m', s = Next (offset + 12 + len payload, m') /\ k ∈ dom m') ->
  png_walk_meets P (pngSignature ++ rest) 8 ->
  forall r, PNGParser_Parse fuel (pngSignature ++ rest) = Ret r ->
  exists m, r = Success m /\ k ∈ dom m.
Proof.
  intros Hlen HP Hmeets r. rewrite PNGParser_Parse_signed.
  destruct (png_chunks _ _ _ _ _) as [m| |] eqn:E; try discriminate. cbn [bind].
  pose proof (png_chunks_meets k P fuel _ Hlen HP 8 Hmeets _ _ _ E) as Hk.
  rewrite (dom_elem_nonempty k m Hk). intros [= <-]. eauto.
Qed.

(** *** Checksum mismatches *)

Lemma png_step_crc_mismatch fuel data offset chunkType payload crc m :
  len data < 2 ^ 31 ->
  png_chunk_at data offset chunkType payload crc ->
  crc_mismatch chunkType payload crc ->
  png_step fuel data offset m =
    (m' <- png_chunk fuel (string_of_list_byte chunkType) payload
             (<["PNG_Warning" :=
                  "CRC mismatch for chunk " +:+ string_of_list_byte chunkType]> m);
     Ret (Next (offset + 12 + len payload, m'))).
Proof.
  intros Hlen Hat Hcrc. rewrite (png_step_at _ _ _ _ _ _ _ Hlen Hat).
  apply Z.eqb_neq in Hcrc. rewrite Hcrc. reflexivity.
Qed.

(** ** EXIF payloads that fail the TIFF header check *)

Lemma u8_inj (a b : byte) : u8 a = u8 b -> a = b.
Proof.
  unfold u8. intros H. apply N2Z.inj in H.
  assert (Some a = Some b) as [= ->]; [|reflexivity].
  rewrite <- (Byte.of_to_N a), <- (Byte.of_to_N b), H. reflexivity.
Qed.

Lemma ParseTIFF_bad_header fuel payload m :
  bad_tiff_header payload ->
  ParseTIFF fuel payload m = Ret (m, Some (tiff_error_text payload)).
Proof.
  unfold ParseTIFF, tiff_error_text. intros [Hshort|[HII HMM]].
  - apply Z.ltb_lt in Hshort. rewrite Hshort. reflexivity.
  - destruct (len payload <? 8) eqn:Hlen; [reflexivity|].
    apply Z.ltb_ge in Hlen.
    destruct payload as [|d0 [|d1 rest]];
      try (rewrite ?len_cons, ?len_nil in Hlen; lia).
    rewrite (index_nth _ 0 d0), (index_nth _ 1 d1) by (reflexivity || lia).
    cbn [bind]. cbn [firstn] in HII, HMM.
    replace ((u8 d0 =? 73) && (u8 d1 =? 73)) with false.
    + replace ((u8 d0 =? 77) && (u8 d1 =? 77)) with false; [reflexivity|].
      symmetry. apply andb_false_iff.
      destruct (u8 d0 =? 77) eqn:E0; [|auto]. destruct (u8 d1 =? 77) eqn:E1; [|auto].
      apply Z.eqb_eq in E0, E1.
      apply (u8_inj d0 x4d) in E0. apply (u8_inj d1 x4d) in E1. subst. contradiction.
    + symmetry. apply andb_false_iff.
      destruct (u8 d0 =? 73) eqn:E0; [|auto]. destruct (u8 d1 =? 73) eqn:E1; [|auto].
      apply Z.eqb_eq in E0, E1.
      apply (u8_inj d0 x49) in E0. apply (u8_inj d1 x49) in E1. subst. contradiction.
Qed.

(** The three handlers at such a payload: the error text goes under
    "EXIF_ParseError" and the handler returns normally. *)
Lemma png_chunk_bad_exif fuel payload m :
  bad_tiff_header payload ->
  png_chunk fuel "eXIf" payload m =
    Ret (<["EXIF_ParseError" := tiff_error_text payload]> m).
Proof.
  intros H. unfold png_chunk.
  change ("eXIf" =? "IHDR")%string with false.
  change ("eXIf" =? "tEXt")%string with false.
  change ("eXIf" =? "zTXt")%string with false.
  change ("eXIf" =? "iTXt")%string with false.
  change ("eXIf" =? "eXIf")%string with true.
  cbv iota. rewrite (ParseTIFF_bad_header _ _ _ H). reflexivity.
Qed.

Lemma webp_chunk_bad_exif fuel payload m :
  bad_tiff_header payload ->
  webp_chunk fuel "EXIF" payload m =
    Ret (<["EXIF_ParseError" := tiff_error_text payload]> m).
Proof.
  intros H. unfold webp_chunk.
  change ("EXIF" =? "EXIF")%string with true.
  cbv iota. rewrite (ParseTIFF_bad_header _ _ _ H). reflexivity.
Qed.

Lemma jpeg_segment_bad_exif fuel (e4 e5 : byte) payload m :
  bad_tiff_header payload ->
  jpeg_segment fuel 0xE1 (lit "Exif" ++ e4 :: e5 :: payload) m =
    Ret (<["EXIF_ParseError" := tiff_error_text payload]> m).
Proof.
  intros H. unfold jpeg_segment. cbv zeta.
  change (225 =? 254) with false. change (225 =? 224) with false.
  change (225 =? 225) with true. cbv iota.
  set (seg := lit "Exif" ++ e4 :: e5 :: payload).
  assert (Hlen : len seg = 6 + len payload).
  { unfold seg. rewrite len_app, !len_cons. change (len (lit "Exif")) with 4. lia. }
  pose proof (len_nonneg payload).
  unfold has_prefix.
  replace (len seg >=? 6) with true by (symmetry; apply Z.geb_le; lia).
  rewrite (slice_at seg [] (lit "Exif") (e4 :: e5 :: payload)) by reflexivity.
  cbn [bind]. change (bytes_eqb (lit "Exif") (lit "Exif")) with true. cbv iota.
  unfold slice_from. rewrite Hlen.
  rewrite (slice_at seg (lit "Exif" ++ [e4; e5]) payload [])
    by (unfold seg; rewrite <- ?app_assoc, ?app_nil_r; reflexivity).
  cbn [bind]. rewrite (ParseTIFF_bad_header _ _ _ H). reflexivity.
Qed.

(** ** The WebP chunk walk *)

Lemma index_at (data pre post : list byte) (b : byte) (i : Z) :
  data = pre ++ b :: post -> i = len pre -> index data i = Ret b.
Proof.
  intros -> ->. apply index_nth; [apply len_nonneg|].
  unfold len. rewrite Nat2Z.id, nth_error_app2, Nat.sub_diag by lia. reflexivity.
Qed.

Lemma webp_step_keeps fuel data offset m s :
  webp_step fuel data offset m = Ret s ->
  match s with
  | Next (_, m') => dom m ⊆ dom m'
  | Stop m' => m' = m
  end.
Proof.
  unfold webp_step.
  destruct (_ >? _); [intros [= <-]; reflexivity|].
  destruct (slice data offset _) as [bi| |]; try discriminate. cbn [bind].
  destruct (index data _) as [s0| |]; try discriminate. cbn [bind].
  destruct (index data _) as [s1| |]; try discriminate. cbn [bind].
  destruct (index data _) as [s2| |]; try discriminate. cbn [bind].
  destruct (index data _) as [s3| |]; try discriminate. cbn [bind].
  cbv zeta.
  destruct (_ >? _); [intros [= <-]; reflexivity|].
  destruct (slice data _ _) as [chunkData| |]; try discriminate. cbn [bind].
  destruct (webp_chunk _ _ _ _) as [m'| |] eqn:E; try discriminate. cbn [bind].
  intros [= <-]. apply (webp_chunk_keeps _ _ _ _ _ E).
Qed.

Lemma webp_chunks_keeps fuel data fileSize n :
  forall offset m, keeps m (webp_chunks n fuel data fileSize offset m).
Proof.
  induction n as [|n IH]; intros offset m r; cbn [webp_chunks]; [discriminate|].
  destruct (_ && _); [|intros [= <-]; reflexivity].
  destruct (webp_step fuel data offset m) as [s| |] eqn:E; try discriminate.
  apply webp_step_keeps in E. cbn [bind].
  destruct s as [[offset' m']|m'].
  - intros Hr. etransitivity; [exact E|apply (IH offset' m'), Hr].
  - intros [= <-]. subst m'. reflexivity.
Qed.

Lemma webp_step_at fuel data offset chunkID payload m :
  len data < 2 ^ 31 ->
  webp_chunk_at data offset chunkID payload ->
  webp_step fuel data offset m =
    (m' <- webp_chunk fuel (string_of_list_byte chunkID) payload m;
     Ret (Next (webp_next offset (len payload), m'))).
Proof.
  intros Hlen (pre & post & s0 & s1 & s2 & s3 & -> & <- & Hid & Hsize).
  pose proof (len_nonneg pre). pose proof (len_nonneg post).
  pose proof (len_nonneg payload). rewrite !len_app, !len_cons, ?len_nil in Hlen.
  unfold webp_step. nowrap.
  replace (len pre + 8 >? _) with false
    by (symmetry; rewrite Z.gtb_ltb; apply Z.ltb_ge; rewrite !len_app, !len_cons, ?len_nil; lia).
  rewrite (slice_at _ pre chunkID ([s0; s1; s2; s3] ++ payload ++ post))
    by (reflexivity || lia).
  cbn [bind].
  rewrite (index_at _ (pre ++ chunkID) ([s1; s2; s3] ++ payload ++ post) s0),
    (index_at _ (pre ++ chunkID ++ [s0]) ([s2; s3] ++ payload ++ post) s1),
    (index_at _ (pre ++ chunkID ++ [s0; s1]) ([s3] ++ payload ++ post) s2),
    (index_at _ (pre ++ chunkID ++ [s0; s1; s2]) (payload ++ post) s3)
    by (rewrite <- ?app_assoc, ?len_app, ?len_cons, ?len_nil; reflexivity || lia).
  cbn [bind]. cbv zeta. rewrite Hsize. nowrap.
  replace (len pre + 8 + len payload >? _) with false
    by (symmetry; rewrite Z.gtb_ltb; apply Z.ltb_ge; rewrite !len_app, !len_cons, ?len_nil; lia).
  rewrite (slice_at _ (pre ++ chunkID ++ [s0; s1; s2; s3]) payload post)
    by (rewrite <- ?app_assoc, ?len_app, ?len_cons, ?len_nil; reflexivity || lia).
  cbn [bind]. unfold webp_next. reflexivity.
Qed.

Lemma webp_chunk_at_bounds data offset chunkID payload :
  webp_chunk_at data offset chunkID payload ->
  0 <= offset /\ offset + 8 + len payload <= len data.
Proof.
  intros (pre & post & s0 & s1 & s2 & s3 & -> & <- & Hid & _).
  rewrite !len_app, !len_cons, len_nil.
  pose proof (len_nonneg pre). pose proof (len_nonneg post). lia.
Qed.

Lemma webp_chunks_meets (k : string) (P : list byte -> list byte -> Prop) fuel data fileSize :
  len data < 2 ^ 31 -> 0 <= fileSize -> fileSize + 8 < 2 ^ 31 ->
  (forall chunkID payload m m',
     P chunkID payload ->
     webp_chunk fuel (string_of_list_byte chunkID) payload m = Ret m' -> k ∈ dom m') ->
  forall offset, webp_walk_meets P data fileSize offset ->
  forall n m r, webp_chunks n fuel data fileSize offset m = Ret r -> k ∈ dom r.
Proof.
  intros Hlen Hfs0 Hfs8 HP offset Hmeets.
  induction Hmeets as [offset id payload Hat Hfs HPc|offset id payload Hat Hfs _ IH];
    intros [|n] m r; cbn [webp_chunks]; try discriminate;
    pose proof (webp_chunk_at_bounds _ _ _ _ Hat) as [Hlo Hhi];
    pose proof (len_nonneg payload); nowrap;
    (replace ((offset <? len data) && (offset <? fileSize + 8)) with true
       by (symmetry; apply andb_true_iff; split; apply Z.ltb_lt; lia));
    rewrite (webp_step_at _ _ _ _ _ _ Hlen Hat);
    destruct (webp_chunk _ _ _ _) as [m'| |] eqn:E; try discriminate; cbn [bind].
  - intros Hr. apply (webp_chunks_keeps _ _ _ _ _ _ _ Hr), (HP _ _ _ _ HPc E).
  - apply IH.
Qed.

Lemma WebPParser_Parse_signed fuel (d4 d5 d6 d7 : byte) rest :
  let data := lit "RIFF" ++ [d4; d5; d6; d7] ++ lit "WEBP" ++ rest in
  WebPParser_Parse fuel data =
    (exifData <- webp_chunks (S (length data)) fuel data (le32 d4 d5 d6 d7) 12 ∅;
     if bool_decide (exifData = ∅)
     then Ret (Failure (Errorf "no metadata found in WebP file"))
     else Ret (Success exifData)).
Proof.
  intros data. unfold WebPParser_Parse. pose proof (len_nonneg rest).
  assert (Hlen : len data = 12 + len rest).
  { unfold data. rewrite !len_app, !len_cons, len_nil.
    change (len (lit "RIFF")) with 4. change (len (lit "WEBP")) with 4. lia. }
  replace (len data <? 12) with false by (symmetry; apply Z.ltb_ge; lia).
  rewrite (slice_at data [] (lit "RIFF") ([d4; d5; d6; d7] ++ lit "WEBP" ++ rest))
    by reflexivity.
  cbn [bind]. change (bytes_eqb (lit "RIFF") (lit "RIFF")) with true. cbn [negb].
  rewrite (slice_at data (lit "RIFF" ++ [d4; d5; d6; d7]) (lit "WEBP") rest)
    by reflexivity.
  cbn [bind]. change (bytes_eqb (lit "WEBP") (lit "WEBP")) with true. cbn [negb].
  rewrite (index_nth data 4 d4), (index_nth data 5 d5), (index_nth data 6 d6),
    (index_nth data 7 d7) by (reflexivity || lia).
  reflexivity.
Qed.

(** ** The JPEG segment walk *)

Lemma reader_Read_app (seg rest : list byte) :
  seg ++ rest <> [] -> reader_Read (seg ++ rest) (length seg) = Some (seg, rest).
Proof.
  intros Hne. unfold reader_Read.
  destruct (seg ++ rest) as [|b t] eqn:E; [contradiction|]. rewrite <- E.
  rewrite take_app_length, drop_app_length, Nat.sub_diag. cbn [repeat].
  rewrite app_nil_r. reflexivity.
Qed.

Lemma jpeg_segments_keeps fuel n :
  forall r m, keeps m (jpeg_segments n fuel r m).
Proof.
  induction n as [|n IH]; intros r m res; cbn [jpeg_segments]; [discriminate|].
  destruct (reader_Read r 2) as [[marker r1]|]; [|intros [= <-]; reflexivity].
  destruct (index marker 0) as [marker0| |]; try discriminate. cbn [bind].
  destruct (index marker 1) as [marker1| |]; try discriminate. cbn [bind].
  destruct (negb _); [apply IH|].
  destruct (_ =? 218); [intros [= <-]; reflexivity|].
  destruct (binary_Read_uint16 r1) as [[size r2]|]; [|intros [= <-]; reflexivity].
  destruct (size <? 2); [intros [= <-]; reflexivity|].
  destruct (reader_Read r2 _) as [[segmentData r3]|]; [|intros [= <-]; reflexivity].
  destruct (jpeg_segment _ _ _ _) as [m'| |] eqn:E; try discriminate. cbn [bind].
  intros Hr. etransitivity; [apply (jpeg_segment_keeps _ _ _ _ _ E)|apply (IH _ _ _ Hr)].
Qed.

Lemma jpeg_segments_at n fuel r marker1 segmentData rest m :
  jpeg_segment_at r marker1 segmentData rest ->
  jpeg_segments (S n) fuel r m =
    (m' <- jpeg_segment fuel (u8 marker1) segmentData m; jpeg_segments n fuel rest m').
Proof.
  intros (s0 & s1 & -> & Hda & Hsize & Hne).
  cbn [jpeg_segments]. rewrite reader_Read_2.
  change (index [xff; marker1] 0) with (Ret xff).
  change (index [xff; marker1] 1) with (Ret marker1).
  cbn [bind]. change (u8 xff =? 255) with true. cbn [negb].
  apply Z.eqb_neq in Hda. rewrite Hda.
  cbn [binary_Read_uint16]. rewrite Hsize.
  pose proof (len_nonneg segmentData).
  replace (len segmentData + 2 <? 2) with false by (symmetry; apply Z.ltb_ge; lia).
  replace (Z.to_nat (len segmentData + 2 - 2)) with (length segmentData)
    by (unfold len; lia).
  rewrite (reader_Read_app _ _ Hne). reflexivity.
Qed.

Lemma jpeg_segments_skip n fuel (b0 b1 : byte) r m :
  u8 b0 <> 0xFF ->
  jpeg_segments (S n) fuel (b0 :: b1 :: r) m = jpeg_segments n fuel r m.
Proof.
  intros Hb0. cbn [jpeg_segments]. rewrite reader_Read_2.
  change (index [b0; b1] 0) with (Ret b0).
  change (index [b0; b1] 1) with (Ret b1).
  cbn [bind]. apply Z.eqb_neq in Hb0. rewrite Hb0. reflexivity.
Qed.

Lemma jpeg_segments_meets (k : string) (P : byte -> list byte -> Prop) fuel :
  (forall marker1 segmentData m m',
     P marker1 segmentData ->
     jpeg_segment fuel (u8 marker1) segmentData m = Ret m' -> k ∈ dom m') ->
  forall r, jpeg_walk_meets P r ->
  forall n m res, jpeg_segments n fuel r m = Ret res -> k ∈ dom res.
Proof.
  intros HP r Hmeets.
  induction Hmeets as [r mk seg rest Hat HPc|r mk seg rest Hat _ IH|b0 b1 r Hb0 _ IH];
    intros [|n] m res; try discriminate.
  - rewrite (jpeg_segments_at _ _ _ _ _ _ _ Hat).
    destruct (jpeg_segment _ _ _ _) as [m'| |] eqn:E; try discriminate. cbn [bind].
    intros Hr. apply (jpeg_segments_keeps _ _ _ _ _ Hr), (HP _ _ _ _ HPc E).
  - rewrite (jpeg_segments_at _ _ _ _ _ _ _ Hat).
    destruct (jpeg_segment _ _ _ _) as [m'| |] eqn:E; try discriminate. cbn [bind].
    apply IH.
  - rewrite (jpeg_segments_skip _ _ _ _ _ _ Hb0). apply IH.
Qed.

Lemma SimpleExifParser_Parse_signed fuel r :
  SimpleExifParser_Parse fuel (xff :: xd8 :: r) =
    (exifData <- jpeg_segments (length (xff :: xd8 :: r)) fuel r ∅;
     if bool_decide (exifData = ∅)
     then Ret (Failure (Errorf "no metadata found in JPEG"))
     else Ret (Success exifData)).
Proof. unfold SimpleExifParser_Parse. rewrite reader_Read_2. reflexivity. Qed.

(** ** The container loops end by themselves *)

Lemma Uint32_range (bo : ByteOrder) (b : list byte) (v : Z) :
  Uint32 bo b = Ret v -> 0 <= v < 2 ^ 32.
Proof.
  unfold Uint32.
  destruct (index b 0) as [b0| |]; try discriminate. cbn [bind].
  destruct (index b 1) as [b1| |]; try discriminate. cbn [bind].
  destruct (index b 2) as [b2| |]; try discriminate. cbn [bind].
  destruct (index b 3) as [b3| |]; try discriminate. cbn [bind].
  intros [= <-]. destruct bo.
  - apply (le32_range b0 b1 b2 b3).
  - apply (le32_range b3 b2 b1 b0).
Qed.

(** An iteration of the PNG loop that goes on has moved the cursor by the
    8 bytes of the chunk header and the 4 bytes of the CRC at least. *)
Lemma png_step_advances fuel data offset m offset' m' :
  png_step fuel data offset m = Ret (Next (offset', m')) ->
  offset + 12 <= offset' <= len data.
Proof.
  unfold png_step.
  destruct (_ >? _); [discriminate|].
  destruct (slice data offset _) as [bl| |] eqn:E1; try discriminate. cbn [bind].
  apply slice_len in E1 as (H1 & H2 & _).
  destruct (Uint32 BigEndian bl) as [chunkLength| |]; try discriminate.
  cbn [bind].
  destruct (slice data _ _) as [bt| |] eqn:E2; try discriminate.
  cbn [bind]. cbv zeta. apply slice_len in E2 as (_ & H3 & _).
  destruct (_ >? _); [discriminate|].
  destruct (slice data _ _) as [chunkData| |] eqn:E3; try discriminate. cbn [bind].
  apply slice_len in E3 as (_ & H4 & _).
  destruct (slice data _ _) as [bc| |] eqn:E4; try discriminate. cbn [bind].
  apply slice_len in E4 as (_ & H5 & H6 & _).
  destruct (Uint32 BigEndian bc) as [chunkCRC| |]; try discriminate. cbn [bind].
  destruct (png_chunk _ _ _ _) as [m1| |]; try discriminate. cbn [bind].
  intros [= <- _].
  pose proof (iadd_range offset 4). pose proof (iadd_range offset 8).
  pose proof (to_int_range chunkLength).
  pose proof (iadd_range (offset +i 8) (to_int chunkLength)).
  pose proof (iadd_range (offset +i 8 +i to_int chunkLength) 4).
  destruct (iadd_above offset 8) as [_ Ha]; [lia..|]. rewrite Ha in *.
  destruct (iadd_above (offset + 8) (to_int chunkLength)) as [Hb0 Hb]; [lia..|].
  rewrite Hb in *.
  destruct (iadd_above (offset + 8 + to_int chunkLength) 4) as [_ Hc]; [lia..|].
  rewrite Hc in *.
  rewrite (iadd_small (to_int chunkLength) 4) by lia.
  rewrite iadd_small by lia. lia.
Qed.

(** Any two iteration bounds above the number of bytes left give the same
    outcome: the bound [S (length data)] of [PNGParser_Parse] is never what
    ends the loop. *)
Lemma png_chunks_bound fuel data :
  forall n1 n2 offset m,
    (Z.to_nat (len data - offset) < n1)%nat ->
    (Z.to_nat (len data - offset) < n2)%nat ->
    png_chunks n1 fuel data offset m = png_chunks n2 fuel data offset m.
Proof.
  induction n1 as [|n1 IH]; intros [|n2] offset m H1 H2; try lia.
  cbn [png_chunks].
  destruct (offset <? len data) eqn:Hlt; [|reflexivity]. apply Z.ltb_lt in Hlt.
  destruct (png_step fuel data offset m) as [[[offset' m']|m']| |] eqn:E;
    try reflexivity.
  cbn [bind]. apply png_step_advances in E. apply IH; lia.
Qed.

(** An iteration of the WebP loop that goes on has moved the cursor by the
    8 bytes of the chunk header at least, unless the offset past the pad
    byte has wrapped. *)
Lemma webp_step_advances fuel data offset m offset' m' :
  webp_step fuel data offset m = Ret (Next (offset', m')) ->
  offset + 8 <= offset' \/ offset' < 0.
Proof.
  unfold webp_step.
  destruct (_ >? _); [discriminate|].
  destruct (slice data offset _) as [bi| |] eqn:E1; try discriminate. cbn [bind].
  apply slice_len in E1 as (H1 & H2 & _).
  destruct (index data _) as [s0| |]; try discriminate. cbn [bind].
  destruct (index data _) as [s1| |]; try discriminate. cbn [bind].
  destruct (index data _) as [s2| |]; try discriminate. cbn [bind].
  destruct (index data _) as [s3| |]; try discriminate. cbn [bind].
  cbv zeta.
  destruct (_ >? _); [discriminate|].
  destruct (slice data _ _) as [chunkData| |] eqn:E2; try discriminate. cbn [bind].
  apply slice_len in E2 as (H3 & H4 & _).
  destruct (webp_chunk _ _ _ _) as [m1| |]; try discriminate. cbn [bind].
  intros [= <- _].
  pose proof (iadd_range offset 4). pose proof (iadd_range offset 8).
  pose proof (to_int_range (le32 s0 s1 s2 s3)).
  pose proof (iadd_range (offset +i 8) (to_int (le32 s0 s1 s2 s3))).
  destruct (iadd_above offset 4) as [_ Ha]; [lia..|].
  assert (Hb : offset +i 8 = offset + 8).
  { destruct (Z_lt_le_dec (offset + 8) (2 ^ 31)); [apply iadd_small; lia|].
    exfalso. unfold iadd in H3. rewrite wrap_int_high in H3 by lia. lia. }
  rewrite Hb in *.
  destruct (iadd_above (offset + 8) (to_int (le32 s0 s1 s2 s3))) as [Hc0 Hc]; [lia..|].
  rewrite Hc in *.
  destruct (_ =? 1); [|left; lia].
  destruct (Z_lt_le_dec (offset + 8 + to_int (le32 s0 s1 s2 s3) + 1) (2 ^ 31)).
  - left. rewrite iadd_small by lia. lia.
  - right. unfold iadd. rewrite wrap_int_high by lia. lia.
Qed.

(** Below offset 0 the loop ends, normally or by a panic. *)
Lemma webp_step_negative fuel data offset m :
  offset < 0 ->
  webp_step fuel data offset m = Panic \/ webp_step fuel data offset m = Ret (Stop m).
Proof.
  intros Hneg. unfold webp_step.
  destruct (_ >? _); [right; reflexivity|]. left.
  unfold slice. replace (0 <=? offset) with false by (symmetry; apply Z.leb_gt, Hneg).
  reflexivity.
Qed.

Lemma webp_chunks_bound fuel data fileSize :
  forall n1 n2 offset m,
    (Z.to_nat (len data - offset) < n1)%nat ->
    (Z.to_nat (len data - offset) < n2)%nat ->
    webp_chunks n1 fuel data fileSize offset m = webp_chunks n2 fuel data fileSize offset m.
Proof.
  induction n1 as [|n1 IH]; intros [|n2] offset m H1 H2; try lia.
  cbn [webp_chunks].
  destruct (offset <? len data) eqn:Hlt; [|reflexivity]. apply Z.ltb_lt in Hlt.
  destruct (offset <? _); [|reflexivity]. cbn [andb].
  destruct (webp_step fuel data offset m) as [[[offset' m']|m']| |] eqn:E;
    try reflexivity.
  cbn [bind]. apply webp_step_advances in E as [E|E]; [apply IH; lia|].
  destruct n1 as [|n1], n2 as [|n2]; try lia. cbn [webp_chunks].
  destruct (_ && _); [|reflexivity].
  destruct (webp_step_negative fuel data offset' m' E) as [-> | ->]; reflexivity.
Qed.

(** A successful read of the JPEG reader leaves fewer unread bytes, whatever
    the size of the buffer read into, when that size is not 0. *)
Lemma reader_Read_shrinks (r : list byte) (k : nat) (buf r' : list byte) :
  reader_Read r k = Some (buf, r') ->
  (length r' <= length r)%nat /\ (0 < k -> length r' < length r)%nat.
Proof.
  unfold reader_Read. destruct r as [|b r0]; [discriminate|].
  intros [= _ <-]. rewrite length_skipn. cbn [length]. lia.
Qed.

Lemma binary_Read_uint16_shrinks (r : list byte) (size : Z) (r' : list byte) :
  binary_Read_uint16 r = Some (size, r') -> (length r' <= length r)%nat.
Proof.
  destruct r as [|b0 [|b1 r0]]; try discriminate.
  intros [= _ <-]. cbn [length]. lia.
Qed.

Lemma jpeg_segments_bound fuel :
  forall n1 n2 r m,
    (length r < n1)%nat -> (length r < n2)%nat ->
    jpeg_segments n1 fuel r m = jpeg_segments n2 fuel r m.
Proof.
  induction n1 as [|n1 IH]; intros [|n2] r m H1 H2; try lia.
  cbn [jpeg_segments].
  destruct (reader_Read r 2) as [[marker r1]|] eqn:E1; [|reflexivity].
  apply reader_Read_shrinks in E1 as [_ E1]. specialize (E1 ltac:(lia)).
  destruct (index marker 0) as [marker0| |]; try reflexivity. cbn [bind].
  destruct (index marker 1) as [marker1| |]; try reflexivity. cbn [bind].
  destruct (negb _); [apply IH; lia|].
  destruct (_ =? 218); [reflexivity|].
  destruct (binary_Read_uint16 r1) as [[size r2]|] eqn:E2; [|reflexivity].
  apply binary_Read_uint16_shrinks in E2.
  destruct (size <? 2); [reflexivity|].
  destruct (reader_Read r2 _) as [[segmentData r3]|] eqn:E3; [|reflexivity].
  apply reader_Read_shrinks in E3 as [E3 _].
  destruct (jpeg_segment _ _ _ _) as [m'| |]; try reflexivity. cbn [bind].
  apply IH; lia.
Qed.

Lemma PNGParser_Parse_bound fuel data n m :
  (length data < n)%nat ->
  png_chunks n fuel data 8 m = png_chunks (S (length data)) fuel data 8 m.
Proof. intros H. apply png_chunks_bound; unfold len; lia. Qed.

Lemma WebPParser_Parse_bound fuel data fileSize n m :
  (length data < n)%nat ->
  webp_chunks n fuel data fileSize 12 m = webp_chunks (S (length data)) fuel data fileSize 12 m.
Proof. intros H. apply webp_chunks_bound; unfold len; lia. Qed.

Lemma SimpleExifParser_Parse_bound fuel data header r n m :
  reader_Read data 2 = Some (header, r) ->
  (length data <= n)%nat ->
  jpeg_segments n fuel r m = jpeg_segments (length data) fuel r m.
Proof.
  intros E H. apply reader_Read_shrinks in E as [_ E]. specialize (E ltac:(lia)).
  apply jpeg_segments_bound; lia.
Qed.

(** ** Reads within bounds *)

Lemma safe_Ret {A : Type} (a : A) : safe (Ret a).
Proof. discriminate. Qed.

Lemma safe_bind {A B : Type} (c : outcome A) (f : A -> outcome B) :
  safe c -> (forall a, c = Ret a -> safe (f a)) -> safe (a <- c; f a).
Proof.
  intros Hc Hf. destruct c as [a| |]; cbn [bind].
  - apply Hf. reflexivity.
  - contradiction.
  - discriminate.
Qed.

Lemma safe_slice (s : list byte) (lo hi : Z) :
  0 <= lo -> lo <= hi -> hi <= len s -> safe (slice s lo hi).
Proof. intros H1 H2 H3. rewrite slice_in_range by assumption. discriminate. Qed.

Lemma safe_index (s : list byte) (i : Z) : 0 <= i < len s -> safe (index s i).
Proof. intros H. destruct (index_in_range s i H) as [b ->]. discriminate. Qed.

Lemma safe_Uint16 (bo : ByteOrder) (b : list byte) : 2 <= len b -> safe (Uint16 bo b).
Proof.
  intros H. unfold Uint16.
  destruct (index_in_range b 0) as [b0 ->]; [lia|].
  destruct (index_in_range b 1) as [b1 ->]; [lia|]. discriminate.
Qed.

Lemma safe_Uint32 (bo : ByteOrder) (b : list byte) : 4 <= len b -> safe (Uint32 bo b).
Proof.
  intros H. unfold Uint32.
  destruct (index_in_range b 0) as [b0 ->]; [lia|].
  destruct (index_in_range b 1) as [b1 ->]; [lia|].
  destruct (index_in_range b 2) as [b2 ->]; [lia|].
  destruct (index_in_range b 3) as [b3 ->]; [lia|]. discriminate.
Qed.

Lemma IndexByte_from_range (s : list byte) (c : byte) (i : Z) :
  IndexByte_from s c i = -1 \/ i <= IndexByte_from s c i < i + len s.
Proof.
  revert i. induction s as [|b s IH]; intros i; cbn [IndexByte_from]; [left; reflexivity|].
  rewrite len_cons. pose proof (len_nonneg s).
  destruct (Byte.eqb b c); [right; lia|].
  destruct (IH (i + 1)) as [->|H']; [left; reflexivity|right; lia].
Qed.

Lemma IndexByte_range (s : list byte) (c : byte) : -1 <= IndexByte s c < Z.max 0 (len s).
Proof.
  unfold IndexByte. pose proof (len_nonneg s).
  destruct (IndexByte_from_range s c 0) as [->|H']; lia.
Qed.

Ltac safe_cmp :=
  match goal with
  | |- context [?a <? ?b] => destruct (Z.ltb_spec a b)
  | |- context [?a <=? ?b] => destruct (Z.leb_spec a b)
  | |- context [?a >? ?b] => rewrite (Z.gtb_ltb a b); destruct (Z.ltb_spec b a)
  | |- context [?a >=? ?b] => rewrite (Z.geb_leb a b); destruct (Z.leb_spec b a)
  end; cbn [andb orb negb].

Ltac safe_step :=
  match goal with
  | |- safe (Ret _) => apply safe_Ret
  | |- safe (bind (slice _ _ _) _) =>
      apply safe_bind;
      [apply safe_slice; lia
      |let H := fresh "Hs" in intros ? H; apply slice_len in H]
  | |- safe (bind (slice_from _ _) _) => unfold slice_from
  | |- safe (bind (slice_to _ _) _) => unfold slice_to
  | |- safe (bind (index _ _) _) => apply safe_bind; [apply safe_index; lia|intros ? _]
  | |- safe (bind (Uint16 _ _) _) => apply safe_bind; [apply safe_Uint16; lia|intros ? _]
  | |- safe (bind (Uint32 _ _) _) =>
      apply safe_bind;
      [apply safe_Uint32; lia
      |let H := fresh "Hu" in intros ? H; apply Uint32_range in H]
  | |- safe (let _ := _ in _) => cbv zeta
  | |- safe (if (_ =? _)%string then _ else _) => destruct (_ =? _)%string
  | |- safe (if negb (_ =? _)%string && _ then _ else _) =>
      destruct (_ =? _)%string; cbn [negb andb]
  | |- safe (if negb (_ =? _)%string then _ else _) =>
      destruct (_ =? _)%string; cbn [negb]
  | |- safe (if negb (_ =? _) then _ else _) => destruct (_ =? _); cbn [negb]
  | |- safe (if (_ =? _) && _ then _ else _) => destruct (_ =? _); cbn [andb]
  | |- safe (if (_ =? _) then _ else _) => destruct (_ =? _)
  | |- safe (if _ then _ else _) => safe_cmp
  | |- safe (match ?x with _ => _ end) => destruct x
  end.

Ltac safe_tac := repeat safe_step.

Lemma parseIHDR_safe data m : safe (parseIHDR data m).
Proof. unfold parseIHDR. pose proof (len_nonneg data). safe_tac. Qed.

Lemma parseTEXt_safe data m : safe (parseTEXt data m).
Proof.
  unfold parseTEXt. pose proof (IndexByte_range data x00). safe_tac.
Qed.

Lemma parseZTXt_safe data m : safe (parseZTXt data m).
Proof.
  unfold parseZTXt. pose proof (IndexByte_range data x00). safe_tac.
Qed.

Lemma parseITXt_safe data m : safe (parseITXt data m).
Proof.
  unfold parseITXt. pose proof (IndexByte_range data x00).
  destruct (Z.ltb_spec (IndexByte data x00) 0); cbn [orb]; [apply safe_Ret|].
  rewrite Z.geb_leb. destruct (Z.leb_spec (len data) (IndexByte data x00 + 2));
    [apply safe_Ret|].
  do 4 safe_step. unfold slice_from.
  apply safe_bind; [apply safe_slice; lia|intros remaining Hr].
  apply slice_len in Hr. pose proof (IndexByte_range remaining x00). cbv zeta.
  destruct (Z.ltb_spec (IndexByte remaining x00) 0); [apply safe_Ret|].
  unfold slice_to.
  apply safe_bind; [apply safe_slice; lia|intros languageTag _].
  apply safe_bind; [apply safe_slice; lia|intros remaining' Hr'].
  apply slice_len in Hr'. pose proof (IndexByte_range remaining' x00).
  destruct (Z.ltb_spec (IndexByte remaining' x00) 0); [apply safe_Ret|].
  apply safe_bind; [apply safe_slice; lia|intros translatedKeyword _].
  apply safe_bind; [apply safe_slice; lia|intros textData _].
  cbv zeta.
  match goal with |- safe (match ?x with _ => _ end) => destruct x end; apply safe_Ret.
Qed.

Lemma parsePHYs_safe data m : safe (parsePHYs data m).
Proof. unfold parsePHYs. pose proof (len_nonneg data). safe_tac. Qed.

Lemma parseTIME_safe data m : safe (parseTIME data m).
Proof. unfold parseTIME. pose proof (len_nonneg data). safe_tac. Qed.

Lemma parseICCP_safe data m : safe (parseICCP data m).
Proof.
  unfold parseICCP. pose proof (IndexByte_range data x00). safe_tac.
Qed.

(** Every chunk handler but the one of [eXIf] reads within the chunk. *)
Lemma png_chunk_safe fuel chunkType chunkData m :
  chunkType <> "eXIf" -> safe (png_chunk fuel chunkType chunkData m).
Proof.
  intros Hne. unfold png_chunk. pose proof (IndexByte_range chunkData x00).
  destruct (String.eqb_spec chunkType "eXIf"); [contradiction|].
  repeat match goal with
         | |- safe (if (_ =? _)%string then _ else _) => destruct (_ =? _)%string
         end;
    auto using parseIHDR_safe, parseTEXt_safe, parseZTXt_safe, parseITXt_safe,
      parsePHYs_safe, parseTIME_safe, parseICCP_safe, safe_Ret.
  safe_tac.
Qed.

(** Every chunk handler but the one of [EXIF] reads within the chunk. *)
Lemma webp_chunk_safe fuel chunkID chunkData m :
  chunkID <> "EXIF" -> safe (webp_chunk fuel chunkID chunkData m).
Proof.
  intros Hne. unfold webp_chunk. pose proof (len_nonneg chunkData).
  destruct (String.eqb_spec chunkID "EXIF"); [contradiction|].
  destruct (chunkID =? "XMP ")%string; [apply safe_Ret|].
  destruct (chunkID =? "VP8X")%string.
  { destruct (Z.geb_spec (len chunkData) 10); [|apply safe_Ret].
    repeat (apply safe_bind; [apply safe_index; lia|intros ? _]). apply safe_Ret. }
  destruct (chunkID =? "ICCP")%string; [apply safe_Ret|].
  destruct (chunkID =? "ANIM")%string.
  { destruct (Z.geb_spec (len chunkData) 6); [|apply safe_Ret].
    repeat (apply safe_bind; [apply safe_index; lia|intros ? _]). apply safe_Ret. }
  destruct (_ || _); [|apply safe_Ret].
  destruct (chunkID =? "VP8 ")%string; apply safe_Ret.
Qed.

(** *** The JPEG segment handlers *)

Lemma bytes_eqb_eq (a b : list byte) : bytes_eqb a b = true <-> a = b.
Proof.
  revert b. induction a as [|x a IH]; intros [|y b]; cbn [bytes_eqb];
    try (split; (discriminate || reflexivity)).
  rewrite andb_true_iff, IH. split.
  - intros [Hxy ->]. apply Byte.byte_dec_bl in Hxy. subst. reflexivity.
  - intros [= -> ->]. split; [apply Byte.byte_dec_lb|]; reflexivity.
Qed.

Lemma has_prefix_spec (s : list byte) (n : Z) (p : list byte) :
  len p <= n ->
  has_prefix s n p = Ret ((len s >=? n) && bytes_eqb (firstn (length p) s) p).
Proof.
  intros Hp. unfold has_prefix. pose proof (len_nonneg p).
  rewrite Z.geb_leb. destruct (Z.leb_spec n (len s)); [|reflexivity].
  rewrite slice_in_range by lia. cbn [bind andb skipn Z.to_nat].
  replace (Z.to_nat (len p - 0)) with (length p) by (unfold len; lia).
  reflexivity.
Qed.

Lemma index_out_of_range (s : list byte) (i : Z) : len s <= i -> index s i = Panic.
Proof.
  intros H. unfold index. destruct (Z.ltb_spec i (len s)); [lia|].
  rewrite andb_false_r. reflexivity.
Qed.

(** Every segment handler but those of APP0 and APP1 reads within the
    payload. *)
Lemma jpeg_segment_safe fuel marker1 segmentData m :
  marker1 <> 0xE0 -> marker1 <> 0xE1 -> safe (jpeg_segment fuel marker1 segmentData m).
Proof.
  intros Hne Hne1. unfold jpeg_segment. cbv zeta. pose proof (len_nonneg segmentData).
  destruct (marker1 =? 254); [apply safe_Ret|].
  destruct (Z.eqb_spec marker1 224); [contradiction|].
  destruct (Z.eqb_spec marker1 225); [contradiction|].
  repeat match goal with
         | |- safe (if (_ =? _) then _ else _) => destruct (_ =? _)
         | |- safe (if (_ <=? _) && (_ <=? _) then _ else _) => destruct (_ && _)
         | |- safe (if isPrintable _ && _ then _ else _) => destruct (_ && _)
         | |- safe (bind (has_prefix _ _ _) _) =>
             rewrite has_prefix_spec by (vm_compute; discriminate); cbn [bind]
         | |- safe (if (?a >=? ?b) && _ then _ else _) =>
             rewrite (Z.geb_leb a b); destruct (Z.leb_spec b a); cbn [andb]
         | |- safe (if bytes_eqb _ _ then _ else _) => destruct (bytes_eqb _ _)
         | |- safe (if (_ >? _) then _ else _) => destruct (_ >? _)
         | |- safe (Ret _) => apply safe_Ret
         | |- safe (bind (slice_from _ _) _) =>
             unfold slice_from; apply safe_bind; [apply safe_slice; lia|intros ? _]
         end.
Qed.

(** The APP0 handler panics exactly at the payloads of 5 or 6 bytes that
    start with "JFIF\0": its guard asks for 5 bytes and it reads bytes 5 and
    6. *)
Lemma jpeg_app0_panics_iff fuel segmentData m :
  jpeg_segment fuel 0xE0 segmentData m = Panic <->
  len segmentData < 7 /\ firstn 5 segmentData = lit0 "JFIF".
Proof.
  unfold jpeg_segment. cbv zeta.
  change (224 =? 254) with false. change (224 =? 224) with true. cbv iota.
  rewrite !has_prefix_spec by (vm_compute; discriminate). cbn [bind].
  change (length (lit0 "JFIF")) with 5%nat.
  change (length (lit0 "JFXX")) with 5%nat.
  rewrite Z.geb_leb.
  destruct (Z.leb_spec 5 (len segmentData)) as [H5|H5]; cbn [andb].
  - destruct (bytes_eqb (firstn 5 segmentData) (lit0 "JFIF")) eqn:E.
    + apply bytes_eqb_eq in E.
      destruct (Z.lt_ge_cases (len segmentData) 7) as [H7|H7].
      * split; [intros _; split; assumption|intros _].
        destruct (index segmentData 5) as [major| |] eqn:E5; cbn [bind]; try reflexivity.
        -- rewrite index_out_of_range; [reflexivity|].
           destruct (Z.lt_ge_cases 5 (len segmentData)); [lia|].
           rewrite index_out_of_range in E5 by lia. discriminate.
        -- unfold index in E5. destruct (_ && _); [|discriminate].
           destruct (nth_error _ _); discriminate.
      * destruct (index_in_range segmentData 5) as [major ->]; [lia|].
        destruct (index_in_range segmentData 6) as [minor ->]; [lia|].
        cbn [bind]. split; [discriminate|intros [? _]; lia].
    + split.
      * destruct (bytes_eqb (firstn 5 segmentData) (lit0 "JFXX")); [intros [=]|].
        destruct (_ >? _); intros [=].
      * intros [_ Hp]. apply bytes_eqb_eq in Hp. congruence.
  - split.
    + destruct (_ >? _); intros [=].
    + intros [_ Hp]. apply (f_equal (@length byte)) in Hp.
      rewrite length_firstn in Hp. change (length (lit0 "JFIF")) with 5%nat in Hp.
      unfold len in H5. lia.
Qed.

(** ** More budget changes no result *)

Lemma stable_refl {A : Type} (c : outcome A) : stable c c.
Proof. intros _. reflexivity. Qed.

Lemma stable_bind {A B : Type} (c c' : outcome A) (f f' : A -> outcome B) :
  stable c c' -> (forall a, stable (f a) (f' a)) ->
  stable (a <- c; f a) (a <- c'; f' a).
Proof.
  intros Hc Hf. destruct c as [a| |]; cbn [bind]; intros H.
  - rewrite Hc by discriminate. cbn [bind]. apply Hf, H.
  - rewrite Hc by discriminate. reflexivity.
  - contradiction.
Qed.

Ltac stable_step :=
  match goal with
  | |- stable ?c ?c => apply stable_refl
  | |- stable (bind ?c _) (bind ?c _) => apply stable_bind; [apply stable_refl|intros ?]
  | |- stable (if ?b then _ else _) (if ?b then _ else _) => destruct b
  | |- stable (match ?x with _ => _ end) (match ?x with _ => _ end) => destruct x
  | |- stable (let _ := _ in _) _ => cbv zeta
  end.

Ltac stable_tac := repeat stable_step.

Lemma parseTag_stable rec rec' tag dataType count offset data byteOrder m :
  (forall o m', stable (rec o m') (rec' o m')) ->
  stable (parseTag rec tag dataType count offset data byteOrder m)
         (parseTag rec' tag dataType count offset data byteOrder m).
Proof. intros Hrec. unfold parseTag. stable_tac. apply Hrec. Qed.

Lemma ifd_entries_stable rec rec' data byteOrder offset n :
  (forall o m', stable (rec o m') (rec' o m')) ->
  forall i m, stable (ifd_entries rec data byteOrder offset n i m)
                     (ifd_entries rec' data byteOrder offset n i m).
Proof.
  intros Hrec. induction n as [|n IH]; intros i m; cbn [ifd_entries]; stable_tac.
  apply stable_bind; [apply parseTag_stable, Hrec|intros m'; apply IH].
Qed.

Lemma parseIFD_stable fuel data :
  forall offset byteOrder m,
    stable (parseIFD fuel data offset byteOrder m)
           (parseIFD (S fuel) data offset byteOrder m).
Proof.
  induction fuel as [|fuel IH]; intros offset byteOrder m.
  - intros H. contradiction.
  - cbn [parseIFD]. unfold parseIFD_body. stable_tac.
    apply ifd_entries_stable. intros o m'. apply IH.
Qed.

Lemma ParseTIFF_stable fuel data m :
  stable (ParseTIFF fuel data m) (ParseTIFF (S fuel) data m).
Proof.
  unfold ParseTIFF. stable_tac;
    (apply stable_bind; [apply parseIFD_stable|intros ?; apply stable_refl]).
Qed.

Lemma jpeg_segment_stable fuel marker1 segmentData m :
  stable (jpeg_segment fuel marker1 segmentData m)
         (jpeg_segment (S fuel) marker1 segmentData m).
Proof.
  unfold jpeg_segment. cbv zeta. stable_tac.
  apply stable_bind; [apply ParseTIFF_stable|intros ?; apply stable_refl].
Qed.

Lemma jpeg_segments_stable fuel n :
  forall r m, stable (jpeg_segments n fuel r m) (jpeg_segments n (S fuel) r m).
Proof.
  induction n as [|n IH]; intros r m; cbn [jpeg_segments]; stable_tac; try apply IH.
  apply stable_bind; [apply jpeg_segment_stable|intros m'; apply IH].
Qed.

Lemma png_chunk_stable fuel chunkType chunkData m :
  stable (png_chunk fuel chunkType chunkData m) (png_chunk (S fuel) chunkType chunkData m).
Proof.
  unfold png_chunk. stable_tac.
  apply stable_bind; [apply ParseTIFF_stable|intros ?; apply stable_refl].
Qed.

Lemma png_chunks_stable fuel data n :
  forall offset m,
    stable (png_chunks n fuel data offset m) (png_chunks n (S fuel) data offset m).
Proof.
  induction n as [|n IH]; intros offset m; cbn [png_chunks]; stable_tac.
  apply stable_bind.
  - unfold png_step. stable_tac.
    apply stable_bind; [apply png_chunk_stable|intros ?; apply stable_refl].
  - intros [[offset' m']|m']; [apply IH|apply stable_refl].
Qed.

Lemma webp_chunk_stable fuel chunkID chunkData m :
  stable (webp_chunk fuel chunkID chunkData m) (webp_chunk (S fuel) chunkID chunkData m).
Proof.
  unfold webp_chunk.
  destruct (chunkID =? "EXIF")%string; [|apply stable_refl].
  apply stable_bind; [apply ParseTIFF_stable|intros ?; apply stable_refl].
Qed.

Lemma webp_chunks_stable fuel data fileSize n :
  forall offset m,
    stable (webp_chunks n fuel data fileSize offset m)
           (webp_chunks n (S fuel) data fileSize offset m).
Proof.
  induction n as [|n IH]; intros offset m; cbn [webp_chunks]; stable_tac.
  apply stable_bind.
  - unfold webp_step. stable_tac.
    apply stable_bind; [apply webp_chunk_stable|intros ?; apply stable_refl].
  - intros [[offset' m']|m']; [apply IH|apply stable_refl].
Qed.

(** A result, or a panic, of [ParseImage] under some recursion budget is
    its result under every larger budget. *)
Lemma ParseImage_stable fuel data :
  stable (ParseImage fuel data) (ParseImage (S fuel) data).
Proof.
  unfold ParseImage. destruct (GetParser _) as [[| | |]|]; cbn [Parse];
    try apply stable_refl.
  - unfold ExifParser_Parse, SimpleExifParser_Parse. stable_tac.
    apply stable_bind; [apply jpeg_segments_stable|intros ?; apply stable_refl].
  - unfold PNGParser_Parse. stable_tac.
    apply stable_bind; [apply png_chunks_stable|intros ?; apply stable_refl].
  - unfold WebPParser_Parse. stable_tac.
    apply stable_bind; [apply webp_chunks_stable|intros ?; apply stable_refl].
Qed.

Lemma ParseImage_more_fuel fuel fuel' data :
  (fuel <= fuel')%nat -> stable (ParseImage fuel data) (ParseImage fuel' data).
Proof.
  induction 1 as [|fuel' _ IH]; [apply stable_refl|].
  intros H. rewrite <- (IH H). apply ParseImage_stable. rewrite (IH H). exact H.
Qed.

(** ** Buffers without a known signature *)

Lemma u8_is (b : byte) (k : Z) : u8 b = k -> Byte.of_N (Z.to_N k) = Some b.
Proof. intros <-. unfold u8. rewrite N2Z.id. apply Byte.of_to_N. Qed.

(** Turns the comparisons of [E], a conjunction that holds, into the bytes
    they name. *)
Ltac bytes_of E :=
  repeat match type of E with
         | _ && _ = true =>
             let E' := fresh "E" in
             apply andb_true_iff in E as [E E'];
             try (apply Z.eqb_eq, u8_is in E'; vm_compute in E'; injection E' as <-)
         end;
  try (apply Z.eqb_eq, u8_is in E; vm_compute in E; injection E as <-).

(** The detector on a buffer that matches no signature of the
    specification's list: it finds nothing, or it finds the first four
    bytes of the PNG signature. *)
Lemma DetectFormat_no_known_signature (data : list byte) :
  spec_known_signature data = false ->
  DetectFormat data = FormatUnknown \/
  (DetectFormat data = FormatPNG /\
   exists rest, data = [x89; x50; x4e; x47] ++ rest /\ 8 <= len rest /\
                firstn 4 rest <> [x0d; x0a; x1a; x0a]).
Proof.
  intros Hno. unfold spec_known_signature in Hno.
  apply orb_false_iff in Hno as [Hno Hf]. apply orb_false_iff in Hno as [Hno Hw].
  apply orb_false_iff in Hno as [Hno Hp]. apply orb_false_iff in Hno as [Hno Ht2].
  apply orb_false_iff in Hno as [Hj Ht1].
  unfold DetectFormat.
  destruct (Z.ltb_spec (len data) 12) as [|Hl]; [left; reflexivity|].
  destruct data as [|b0 [|b1 [|b2 [|b3 [|b4 [|b5 [|b6 [|b7 [|b8 [|b9 [|b10 [|b11 rest]]]]]]]]]]]];
    try (rewrite ?len_cons, ?len_nil in Hl; lia).
  unfold byte_at_is. cbn [nth_error].
  match goal with |- context [if ?c then FormatJPEG else _] => destruct c eqn:E1 end.
  { exfalso. bytes_of E1. vm_compute in Hj. discriminate Hj. }
  match goal with |- context [if ?c then FormatTIFF else _] => destruct c eqn:E2 end.
  { exfalso. apply orb_true_iff in E2 as [E2|E2]; bytes_of E2.
    - vm_compute in Ht1. discriminate Ht1.
    - vm_compute in Ht2. discriminate Ht2. }
  match goal with |- context [if ?c then FormatPNG else _] => destruct c eqn:E3 end.
  { right. split; [reflexivity|]. bytes_of E3.
    exists (b4 :: b5 :: b6 :: b7 :: b8 :: b9 :: b10 :: b11 :: rest).
    split; [reflexivity|]. split.
    - rewrite !len_cons. pose proof (len_nonneg rest). lia.
    - intros Hsig. cbn [firstn] in Hsig. injection Hsig as -> -> -> ->.
      vm_compute in Hp. discriminate Hp. }
  match goal with |- context [if ?c then FormatWebP else _] => destruct c eqn:E4 end.
  { exfalso. bytes_of E4. vm_compute in Hw. discriminate Hw. }
  match goal with |- context [if ?c then FormatHEIF else _] => destruct c eqn:E5 end.
  { exfalso. bytes_of E5. vm_compute in Hf. discriminate Hf. }
  left. reflexivity.
Qed.

Lemma PNGParser_Parse_half_signature (fuel : nat) (rest : list byte) :
  8 <= len rest ->
  firstn 4 rest <> [x0d; x0a; x1a; x0a] ->
  PNGParser_Parse fuel ([x89; x50; x4e; x47] ++ rest) =
    Ret (Failure (Errorf "not a valid PNG file")).
Proof.
  intros Hlen Hsig.
  destruct rest as [|r0 [|r1 [|r2 [|r3 rest]]]];
    try (rewrite ?len_cons, ?len_nil in Hlen; lia).
  unfold PNGParser_Parse.
  replace (len ([x89; x50; x4e; x47] ++ r0 :: r1 :: r2 :: r3 :: rest) <? 8) with false
    by (symmetry; apply Z.ltb_ge; rewrite len_app, !len_cons, len_nil;
        pose proof (len_nonneg rest); lia).
  rewrite (slice_at _ [] [x89; x50; x4e; x47; r0; r1; r2; r3] rest 0 8)
    by reflexivity.
  cbn [bind].
  destruct (bytes_eqb _ pngSignature) eqn:Eq; [|reflexivity].
  apply bytes_eqb_eq in Eq. injection Eq as -> -> -> ->. exfalso. apply Hsig. reflexivity.
Qed.

(** C9, at the input where it fails: the 12 bytes 89 50 4E 47 00 .. 00
    match no signature of the specification's list (the PNG signature has
    eight bytes, as the comment in [DetectFormat] says too), but the
    detector compares the first four bytes only and answers PNG, and
    [ParseImage] returns the PNG decoder's error "not a valid PNG file"
    instead of the [UnsupportedFormatError].  This is the only way in which
    the claim fails: every buffer that matches no signature of the list
    gets the [UnsupportedFormatError], or starts with 89 50 4E 47, has 12
    bytes or more and gets that error of the PNG decoder; none makes
    [ParseImage] panic or run on. *)
Theorem ParseImage_png_half_signature_not_unsupported (fuel : nat) :
  spec_known_signature png_half_signature = false /\
  DetectFormat png_half_signature = FormatPNG /\
  ParseImage fuel png_half_signature = Ret (Failure (Errorf "not a valid PNG file")) /\
  (forall data,
     spec_known_signature data = false ->
     ParseImage fuel data = Ret (Failure (UnsupportedFormatError FormatUnknown)) \/
     (12 <= len data /\ firstn 4 data = [x89; x50; x4e; x47] /\
      ParseImage fuel data = Ret (Failure (Errorf "not a valid PNG file")))).
Proof.
  split; [vm_compute; reflexivity|]. split; [vm_compute; reflexivity|].
  split; [vm_compute; reflexivity|].
  intros data Hno.
  destruct (DetectFormat_no_known_signature data Hno)
    as [H|(H & rest & -> & Hl & Hs)].
  - left. unfold ParseImage. rewrite H. reflexivity.
  - right. split; [rewrite len_app; change (len [x89; x50; x4e; x47]) with 4; lia|].
    split; [reflexivity|].
    unfold ParseImage. rewrite H. cbn [GetParser Parse].
    apply PNGParser_Parse_half_signature; assumption.
Qed.

(** * Further properties of the decoders *)

(** ** What the detector reads, and where the dispatcher can end *)

Lemma byte_at_is_firstn (data : list byte) (k i : nat) (v : Z) :
  (i < k)%nat -> byte_at_is (firstn k data) i v = byte_at_is data i v.
Proof.
  unfold byte_at_is. revert k i.
  induction data as [|b data IH]; intros [|k] [|i] H; cbn; try lia; try reflexivity.
  apply IH. lia.
Qed.

Lemma len_firstn (data : list byte) (k : nat) :
  Z.of_nat k <= len data -> len (firstn k data) = Z.of_nat k.
Proof. unfold len. intros H. rewrite length_take. lia. Qed.

Lemma DetectFormat_firstn_12 (data : list byte) :
  12 <= len data -> DetectFormat (firstn 12 data) = DetectFormat data.
Proof.
  intros H. unfold DetectFormat.
  rewrite (len_firstn data 12) by (cbn; lia).
  replace (len data <? 12) with false by (symmetry; apply Z.ltb_ge; lia).
  replace (12 <=? len data) with true by (symmetry; apply Z.leb_le; lia).
  rewrite !byte_at_is_firstn by lia.
  reflexivity.
Qed.

(** X1: the exported probe [detectImageFormat] hands only the first 12
    bytes of its argument to [DetectFormat]; nothing is lost by that: its
    answer is the name of the format that [DetectFormat] finds in the whole
    buffer, whatever the length of the buffer. *)
Theorem detectImageFormat_full_buffer (jsArray : list byte) (rest : list (list byte)) :
  detectImageFormat (jsArray :: rest) = format_name (DetectFormat jsArray).
Proof.
  unfold detectImageFormat. cbv zeta.
  destruct (len jsArray >? 12) eqn:E.
  - change (Z.to_nat 12) with 12%nat.
    rewrite DetectFormat_firstn_12; [reflexivity|].
    rewrite Z.gtb_ltb in E. apply Z.ltb_lt in E. lia.
  - unfold len. rewrite Nat2Z.id, firstn_all. reflexivity.
Qed.

Lemma finish_cases (c : outcome ExifData) (msg : string) (r : parsed) :
  (exifData <- c;
   if bool_decide (exifData = ∅) then Ret (Failure (Errorf msg))
   else Ret (Success exifData)) = Ret r ->
  (exists msg', r = Failure (Errorf msg')) \/ exists m, r = Success m /\ m <> ∅.
Proof.
  destruct c as [e| |]; cbn [bind]; try discriminate.
  destruct (bool_decide_reflect (e = ∅)); intros [= <-]; eauto.
Qed.

Lemma SimpleExifParser_Parse_result fuel data r :
  SimpleExifParser_Parse fuel data = Ret r ->
  (exists msg, r = Failure (Errorf msg)) \/ exists m, r = Success m /\ m <> ∅.
Proof.
  unfold SimpleExifParser_Parse.
  destruct (reader_Read data 2) as [[h r']|]; [|intros [= <-]; eauto].
  destruct (index h 0); cbn [bind]; try discriminate.
  destruct (index h 1); cbn [bind]; try discriminate.
  destruct (negb _ || negb _); [intros [= <-]; eauto|].
  apply finish_cases.
Qed.

Lemma PNGParser_Parse_result fuel data r :
  PNGParser_Parse fuel data = Ret r ->
  (exists msg, r = Failure (Errorf msg)) \/ exists m, r = Success m /\ m <> ∅.
Proof.
  unfold PNGParser_Parse.
  destruct (len data <? 8); [intros [= <-]; eauto|].
  destruct (slice data 0 8); cbn [bind]; try discriminate.
  destruct (negb _); [intros [= <-]; eauto|].
  apply finish_cases.
Qed.

Lemma WebPParser_Parse_result fuel data r :
  WebPParser_Parse fuel data = Ret r ->
  (exists msg, r = Failure (Errorf msg)) \/ exists m, r = Success m /\ m <> ∅.
Proof.
  unfold WebPParser_Parse.
  destruct (len data <? 12); [intros [= <-]; eauto|].
  destruct (slice data 0 4); cbn [bind]; try discriminate.
  destruct (negb _); [intros [= <-]; eauto|].
  destruct (slice data 8 12); cbn [bind]; try discriminate.
  destruct (negb _); [intros [= <-]; eauto|].
  repeat (destruct (index data _); cbn [bind]; try discriminate).
  apply finish_cases.
Qed.

Lemma Parse_result p fuel data r :
  Parse p fuel data = Ret r ->
  (exists msg, r = Failure (Errorf msg)) \/ exists m, r = Success m /\ m <> ∅.
Proof.
  destruct p; cbn [Parse].
  - apply SimpleExifParser_Parse_result.
  - apply PNGParser_Parse_result.
  - apply WebPParser_Parse_result.
  - intros [= <-]; eauto.
Qed.

(** X2: a map that [ParseImage] returns is never empty: each decoder turns
    an empty map into its "no metadata" error. *)
Theorem ParseImage_success_is_nonempty (fuel : nat) (data : list byte) (m : ExifData) :
  ParseImage fuel data = Ret (Success m) -> m <> ∅.
Proof.
  unfold ParseImage. destruct (GetParser (DetectFormat data)) as [p|]; [|discriminate].
  intros H. apply Parse_result in H as [(msg & [=])|(m' & [= <-] & Hm)]. exact Hm.
Qed.

(** X3: [ParseImage] returns the [UnsupportedFormatError] exactly for the
    buffers in which the detector finds no signature, and the error then
    carries [FormatUnknown]; no decoder ever returns that error. *)
Theorem ParseImage_unsupported_iff (fuel : nat) (data : list byte) (format : ImageFormat) :
  ParseImage fuel data = Ret (Failure (UnsupportedFormatError format)) <->
  DetectFormat data = FormatUnknown /\ format = FormatUnknown.
Proof.
  unfold ParseImage. split.
  - destruct (DetectFormat data) eqn:E; cbn [GetParser];
      try (intros H; apply Parse_result in H as [(msg & [=])|(m' & [=] & _)]).
    intros [= <-]. auto.
  - intros [-> ->]. reflexivity.
Qed.

(** X4: a chunk length that wraps makes the PNG decoder panic.  The loop
    converts the 32-bit length field to [int] and adds it to the offset; in
    the 32 bits of the build's [int], a length with which [offset + 12 +
    length] reaches 2^31 makes that sum wrap, and when the wrapped sum is
    not beyond the end of the buffer the test against [len(data)] lets the
    chunk through and the slice expression that follows has its bounds out
    of order.  The buffer of 19 bytes with the signature, the length field
    FF FF FF FF, a type and three more bytes is such an input of
    [ParseImage]. *)
Theorem png_step_wrapped_length_panics (fuel : nat) (data : list byte) (offset : Z)
    (bl : list byte) (chunkLength : Z) (m : ExifData) :
  0 <= offset -> offset + 8 <= len data -> len data < 2 ^ 31 ->
  slice data offset (offset + 4) = Ret bl ->
  Uint32 BigEndian bl = Ret chunkLength ->
  2 ^ 31 <= offset + 12 + chunkLength ->
  offset + 12 + chunkLength - 2 ^ 32 <= len data ->
  png_step fuel data offset m = Panic /\
  ParseImage fuel png_wrapped_length = Panic.
Proof.
  intros Hoff Hhdr Hlen Hbl HL Hwrap Hfit. split; [|vm_compute; reflexivity].
  pose proof (Uint32_range _ _ _ HL) as HLr.
  unfold png_step. nowrap.
  replace (offset + 8 >? len data) with false
    by (symmetry; rewrite Z.gtb_ltb; apply Z.ltb_ge; lia).
  rewrite Hbl. cbn [bind]. rewrite HL. cbn [bind].
  rewrite (slice_in_range data (offset + 4) (offset + 8)) by lia.
  cbn [bind]. cbv zeta.
  destruct (Z_lt_le_dec chunkLength (2 ^ 31)) as [Hlo|Hhi].
  - rewrite (to_int_small chunkLength) by lia.
    destruct (Z_lt_le_dec (offset + 8 + chunkLength) (2 ^ 31)) as [Hs|Hs].
    + rewrite (iadd_small (offset + 8) chunkLength) by lia.
      assert (E4 : offset + 8 + chunkLength +i 4 = offset + 12 + chunkLength - 2 ^ 32).
      { unfold iadd. rewrite wrap_int_high by lia. lia. }
      rewrite E4.
      replace (_ >? len data) with false
        by (symmetry; rewrite Z.gtb_ltb; apply Z.ltb_ge; lia).
      destruct (slice data (offset + 8) _) as [chunkData| |] eqn:Es; cbn [bind];
        [|reflexivity|unfold slice in Es; destruct (_ && _); discriminate].
      rewrite slice_out_of_range by lia. reflexivity.
    + assert (E0 : offset + 8 +i chunkLength = offset + 8 + chunkLength - 2 ^ 32).
      { unfold iadd. rewrite wrap_int_high by lia. lia. }
      rewrite E0. rewrite (iadd_small _ 4) by lia.
      replace (_ >? len data) with false
        by (symmetry; rewrite Z.gtb_ltb; apply Z.ltb_ge; lia).
      rewrite slice_out_of_range by lia. reflexivity.
  - rewrite (to_int_high chunkLength) by lia.
    rewrite (iadd_small (offset + 8)) by lia. rewrite (iadd_small _ 4) by lia.
    replace (_ >? len data) with false
      by (symmetry; rewrite Z.gtb_ltb; apply Z.ltb_ge; lia).
    rewrite slice_out_of_range by lia. reflexivity.
Qed.

(** X5: the detector compares the first four bytes of the PNG signature,
    the PNG decoder all eight.  A buffer of at least 12 bytes that starts
    with 89 50 4E 47 and goes on with anything but 0D 0A 1A 0A is detected
    as PNG and then turned down with "not a valid PNG file". *)
Theorem ParseImage_png_half_signature (fuel : nat) (rest : list byte) :
  8 <= len rest ->
  firstn 4 rest <> [x0d; x0a; x1a; x0a] ->
  DetectFormat ([x89; x50; x4e; x47] ++ rest) = FormatPNG /\
  ParseImage fuel ([x89; x50; x4e; x47] ++ rest) =
    Ret (Failure (Errorf "not a valid PNG file")).
Proof.
  intros Hlen Hsig.
  assert (Hdet : DetectFormat ([x89; x50; x4e; x47] ++ rest) = FormatPNG).
  { unfold DetectFormat.
    replace (len ([x89; x50; x4e; x47] ++ rest) <? 12) with false
      by (symmetry; apply Z.ltb_ge; rewrite len_app, !len_cons, len_nil; lia).
    reflexivity. }
  split; [exact Hdet|].
  unfold ParseImage. rewrite Hdet. cbn [GetParser Parse].
  destruct rest as [|r0 [|r1 [|r2 [|r3 rest]]]];
    try (rewrite ?len_cons, ?len_nil in Hlen; lia).
  unfold PNGParser_Parse.
  replace (len ([x89; x50; x4e; x47] ++ r0 :: r1 :: r2 :: r3 :: rest) <? 8) with false
    by (symmetry; apply Z.ltb_ge; rewrite len_app, !len_cons, len_nil;
        pose proof (len_nonneg rest); lia).
  rewrite (slice_at _ [] [x89; x50; x4e; x47; r0; r1; r2; r3] rest 0 8)
    by reflexivity.
  cbn [bind].
  destruct (bytes_eqb _ pngSignature) eqn:Eq; [|reflexivity].
  apply bytes_eqb_eq in Eq. injection Eq as -> -> -> ->. exfalso. apply Hsig. reflexivity.
Qed.

(** X6: the registry and the [SupportsFormat] methods agree: [GetParser]
    answers a format with a decoder exactly when that decoder's
    [SupportsFormat] accepts the format. *)
Theorem GetParser_iff_SupportsFormat (format : ImageFormat) (p : Parser) :
  GetParser format = Some p <-> SupportsFormat p format = true.
Proof. destruct format, p; cbn; split; congruence. Qed.

(** ** The TIFF walker: errors, fields, directories without a pointer *)

(** X7: [ParseTIFF] returns an error exactly when the header check fails,
    that is when the buffer has fewer than 8 bytes or starts neither with
    "II" nor with "MM"; the map is then the one it was given.  Nothing
    after the header (an IFD offset beyond the buffer, a cut directory, an
    entry that cannot be decoded) is ever reported as an error. *)
Theorem ParseTIFF_error_iff (fuel : nat) (data : list byte) (m m' : ExifData) (e : string) :
  ParseTIFF fuel data m = Ret (m', Some e) <->
  bad_tiff_header data /\ m' = m /\ e = tiff_error_text data.
Proof.
  split.
  - unfold ParseTIFF, tiff_error_text, bad_tiff_header.
    destruct (Z.ltb_spec (len data) 8) as [Hlen|Hlen]; [intros [= <- <-]; auto|].
    destruct data as [|d0 [|d1 rest]]; try (rewrite ?len_cons, ?len_nil in Hlen; lia).
    rewrite (index_nth _ 0 d0), (index_nth _ 1 d1) by (reflexivity || lia).
    cbn [bind firstn].
    destruct ((u8 d0 =? 73) && (u8 d1 =? 73)) eqn:EII.
    { repeat (match goal with |- bind ?c _ = _ -> _ => destruct c end;
              cbn [bind]; try discriminate). }
    destruct ((u8 d0 =? 77) && (u8 d1 =? 77)) eqn:EMM.
    { repeat (match goal with |- bind ?c _ = _ -> _ => destruct c end;
              cbn [bind]; try discriminate). }
    intros [= <- <-]. split; [|auto]. right. split; intros [= -> ->]; discriminate.
  - intros (Hbad & -> & ->). apply ParseTIFF_bad_header, Hbad.
Qed.

Lemma adds_exif_fields_refl (m : ExifData) : adds_exif_fields m m.
Proof. intros k v H. left. exact H. Qed.

Lemma adds_exif_fields_trans (m1 m2 m3 : ExifData) :
  adds_exif_fields m1 m2 -> adds_exif_fields m2 m3 -> adds_exif_fields m1 m3.
Proof.
  intros H12 H23 k v H. destruct (H23 k v H) as [H2|H2]; [|right; exact H2].
  apply H12, H2.
Qed.

Lemma adds_exif_fields_insert (m : ExifData) (k v : string) :
  In k exif_fields -> v <> EmptyString -> adds_exif_fields m (<[k := v]> m).
Proof.
  intros Hk Hv k' v' H. destruct (decide (k = k')) as [<-|Hne].
  - rewrite lookup_insert_eq in H. injection H as <-. right. auto.
  - rewrite lookup_insert_ne in H by exact Hne. left. exact H.
Qed.

Lemma In_exif_fields (name : string) :
  existsb (String.eqb name) exif_fields = true -> In name exif_fields.
Proof.
  intros H. apply existsb_exists in H as (x & Hx & Heq).
  apply String.eqb_eq in Heq. subst. exact Hx.
Qed.

(** The names that [parseTag] can store are the 23 names of its table. *)
Lemma tag_name_Store (tag : Z) (name : string) :
  tag_name tag = Store name -> In name exif_fields.
Proof.
  unfold tag_name.
  repeat (match goal with
          | |- (if ?a =? ?b then Store _ else _) = _ -> _ =>
              destruct (a =? b);
              [intros [= <-]; apply In_exif_fields; vm_compute; reflexivity|]
          end).
  destruct (_ =? _); discriminate.
Qed.

(** The only tag that makes [parseTag] call [parseIFD] is 0x8769. *)
Lemma tag_name_SubIFD (tag : Z) : tag_name tag = SubIFD -> tag = tagExifIFDPointer.
Proof.
  unfold tag_name.
  repeat (match goal with
          | |- (if ?a =? ?b then Store _ else _) = _ -> _ =>
              destruct (a =? b); [discriminate|]
          end).
  destruct (Z.eqb_spec tag tagExifIFDPointer); [auto|discriminate].
Qed.

Lemma parseTag_adds rec tag dataType count offset data byteOrder m :
  (forall o m' r, rec o m' = Ret r -> adds_exif_fields m' r) ->
  forall r, parseTag rec tag dataType count offset data byteOrder m = Ret r ->
            adds_exif_fields m r.
Proof.
  intros Hrec r. unfold parseTag.
  destruct (tag_value _ _ _ _ _ _) as [value| |]; cbn [bind]; try discriminate.
  destruct (String.eqb_spec value EmptyString) as [_|Hv];
    [intros [= <-]; apply adds_exif_fields_refl|].
  destruct (tag_name tag) as [name| |] eqn:Et.
  - intros [= <-]. apply adds_exif_fields_insert; [apply (tag_name_Store tag), Et|exact Hv].
  - destruct (slice _ _ _); cbn [bind]; try discriminate.
    destruct (Uint32 _ _); cbn [bind]; try discriminate.
    apply Hrec.
  - intros [= <-]. apply adds_exif_fields_refl.
Qed.

Lemma ifd_entries_adds rec data byteOrder offset n :
  (forall o m' r, rec o m' = Ret r -> adds_exif_fields m' r) ->
  forall i m r, ifd_entries rec data byteOrder offset n i m = Ret r ->
                adds_exif_fields m r.
Proof.
  intros Hrec. induction n as [|n IH]; intros i m r; cbn [ifd_entries].
  - intros [= <-]. apply adds_exif_fields_refl.
  - cbv zeta. destruct (_ >? _); [intros [= <-]; apply adds_exif_fields_refl|].
    repeat (match goal with
            | |- bind (parseTag _ _ _ _ _ _ _ _) _ = _ -> _ => fail 1
            | |- bind ?c _ = _ -> _ => destruct c; cbn [bind]; try discriminate
            end).
    destruct (parseTag _ _ _ _ _ _ _ _) as [m1| |] eqn:Et; cbn [bind]; try discriminate.
    intros H. eapply adds_exif_fields_trans; [|apply (IH _ _ _ H)].
    apply (parseTag_adds _ _ _ _ _ _ _ _ Hrec _ Et).
Qed.

Lemma parseIFD_adds fuel data :
  forall offset byteOrder m r,
    parseIFD fuel data offset byteOrder m = Ret r -> adds_exif_fields m r.
Proof.
  induction fuel as [|fuel IH]; intros offset byteOrder m r; cbn [parseIFD];
    [discriminate|].
  unfold parseIFD_body.
  destruct (_ >? _); [intros [= <-]; apply adds_exif_fields_refl|].
  destruct (slice _ _ _); cbn [bind]; try discriminate.
  destruct (Uint16 _ _); cbn [bind]; try discriminate.
  apply ifd_entries_adds. intros o m' r'. apply IH.
Qed.

Lemma ParseTIFF_adds (fuel : nat) (data : list byte) (m m' : ExifData)
    (err : option string) :
  ParseTIFF fuel data m = Ret (m', err) -> adds_exif_fields m m'.
Proof.
  unfold ParseTIFF.
  destruct (len data <? 8); [intros [= <- _]; apply adds_exif_fields_refl|].
  destruct (index data 0); cbn [bind]; try discriminate.
  destruct (index data 1); cbn [bind]; try discriminate.
  assert (Hcont : forall byteOrder,
    (b <- slice data 4 8; ifdOffset <- Uint32 byteOrder b;
     m0 <- parseIFD fuel data (to_int ifdOffset) byteOrder m; Ret (m0, None)) =
      Ret (m', err) ->
    adds_exif_fields m m').
  { intros byteOrder.
    destruct (slice data 4 8); cbn [bind]; try discriminate.
    destruct (Uint32 _ _); cbn [bind]; try discriminate.
    destruct (parseIFD _ _ _ _ _) eqn:E; cbn [bind]; try discriminate.
    intros [= <- _]. apply (parseIFD_adds _ _ _ _ _ _ E). }
  destruct (_ && _); [apply Hcont|].
  destruct (_ && _); [apply Hcont|].
  intros [= <- _]. apply adds_exif_fields_refl.
Qed.

(** X8: whatever the buffer holds, [ParseTIFF] only adds fields of its tag
    table.  Every field of the map it returns was in the map it was given,
    or has one of the 23 names of the table and a non-empty value; and
    every key it was given is still there.  No buffer can make it store
    another key or an empty string, or drop a field. *)
Theorem ParseTIFF_adds_exif_fields (fuel : nat) (data : list byte) (m m' : ExifData)
    (err : option string) :
  ParseTIFF fuel data m = Ret (m', err) ->
  adds_exif_fields m m' /\ dom m ⊆ dom m'.
Proof.
  intros H. split.
  - exact (ParseTIFF_adds fuel data m m' err H).
  - exact (ParseTIFF_keeps fuel data m m' err H).
Qed.

(** X9: the IFD offset of the header, beyond the buffer.  When the offset
    and the two bytes of the entry count fit the 32 bits of the build's
    [int] ([ifdOffset + 2 < 2^31]) and point beyond the last byte of the
    buffer, this is not an error: [ParseTIFF] returns the map it was given
    and a nil error.  From [2^31 - 2] on, the conversion to [int] or the
    sum [offset + 2] wraps, the test against the end of the buffer lets the
    directory through and the read of the entry count panics.  The two
    bytes after the byte order mark (42 in a TIFF file) are never looked
    at. *)
Theorem ParseTIFF_ifd_offset_beyond_buffer (fuel : nat) (byteOrder : ByteOrder)
    (b2 b3 o0 o1 o2 o3 : byte) (rest : list byte) (ifdOffset : Z) (m : ExifData) :
  let mark := match byteOrder with LittleEndian => x49 | BigEndian => x4d end in
  let data := mark :: mark :: b2 :: b3 :: o0 :: o1 :: o2 :: o3 :: rest in
  Uint32 byteOrder [o0; o1; o2; o3] = Ret ifdOffset ->
  (ifdOffset + 2 < 2 ^ 31 -> len data < ifdOffset + 2 ->
   ParseTIFF (S fuel) data m = Ret (m, None)) /\
  (2 ^ 31 - 2 <= ifdOffset -> ParseTIFF (S fuel) data m = Panic).
Proof.
  intros mark data Hoff. pose proof (Uint32_range _ _ _ Hoff) as Hr.
  assert (Hlen8 : 8 <= len data).
  { unfold data. rewrite !len_cons. pose proof (len_nonneg rest). lia. }
  assert (Hhead : forall o,
    parseIFD (S fuel) data (to_int ifdOffset) byteOrder m = o ->
    ParseTIFF (S fuel) data m = (m' <- o; Ret (m', None))).
  { intros o <-. unfold ParseTIFF.
    replace (len data <? 8) with false by (symmetry; apply Z.ltb_ge; exact Hlen8).
    rewrite (index_nth data 0 mark), (index_nth data 1 mark) by (reflexivity || lia).
    cbn [bind].
    rewrite (slice_at data [mark; mark; b2; b3] [o0; o1; o2; o3] rest 4 8) by reflexivity.
    cbn [bind].
    destruct byteOrder; subst mark; cbn [u8 Byte.to_N Z.of_N Z.eqb Pos.eqb andb];
      rewrite Hoff; reflexivity. }
  split.
  - intros Hfit Hlen. rewrite (Hhead (Ret m)); [reflexivity|].
    cbn [parseIFD]. unfold parseIFD_body. nowrap.
    replace (ifdOffset + 2 >? len data) with true; [reflexivity|].
    symmetry. rewrite Z.gtb_ltb. apply Z.ltb_lt. exact Hlen.
  - intros Hwrap. rewrite (Hhead Panic); [reflexivity|].
    cbn [parseIFD]. unfold parseIFD_body.
    destruct (Z_lt_le_dec ifdOffset (2 ^ 31)) as [Hlo|Hhi].
    + rewrite (to_int_small ifdOffset) by lia.
      assert (E2 : ifdOffset +i 2 = ifdOffset + 2 - 2 ^ 32).
      { unfold iadd. rewrite wrap_int_high by lia. lia. }
      rewrite E2.
      replace (_ >? len data) with false
        by (symmetry; rewrite Z.gtb_ltb; apply Z.ltb_ge; lia).
      rewrite slice_out_of_range by lia. reflexivity.
    + rewrite (to_int_high ifdOffset) by lia. rewrite iadd_small by lia.
      replace (_ >? len data) with false
        by (symmetry; rewrite Z.gtb_ltb; apply Z.ltb_ge; lia).
      rewrite slice_out_of_range by lia. reflexivity.
Qed.

Lemma ends_Ret {A : Type} (a : A) : ends (Ret a).
Proof. discriminate. Qed.

Lemma ends_bind {A B : Type} (c : outcome A) (f : A -> outcome B) :
  ends c -> (forall a, c = Ret a -> ends (f a)) -> ends (a <- c; f a).
Proof. unfold ends. destruct c; cbn [bind]; auto. Qed.

Lemma ends_index (s : list byte) (i : Z) : ends (index s i).
Proof. unfold index. destruct (_ && _); [destruct (nth_error _ _)|]; discriminate. Qed.

Lemma ends_slice (s : list byte) (lo hi : Z) : ends (slice s lo hi).
Proof. unfold slice. destruct (_ && _); discriminate. Qed.

Lemma ends_Uint16 (bo : ByteOrder) (b : list byte) : ends (Uint16 bo b).
Proof.
  unfold Uint16. repeat (apply ends_bind; [apply ends_index|intros ? _]). apply ends_Ret.
Qed.

Lemma ends_Uint32 (bo : ByteOrder) (b : list byte) : ends (Uint32 bo b).
Proof.
  unfold Uint32. repeat (apply ends_bind; [apply ends_index|intros ? _]). apply ends_Ret.
Qed.

Ltac ends_step :=
  match goal with
  | |- ends (Ret _) => apply ends_Ret
  | |- ends (bind (slice _ _ _) _) => apply ends_bind; [apply ends_slice|intros ? ?]
  | |- ends (bind (slice_from _ _) _) => unfold slice_from
  | |- ends (bind (slice_to _ _) _) => unfold slice_to
  | |- ends (bind (index _ _) _) => apply ends_bind; [apply ends_index|intros ? ?]
  | |- ends (bind (Uint16 _ _) _) => apply ends_bind; [apply ends_Uint16|intros ? ?]
  | |- ends (bind (Uint32 _ _) _) => apply ends_bind; [apply ends_Uint32|intros ? ?]
  | |- ends (let _ := _ in _) => cbv zeta
  | |- ends (if ?b then _ else _) => destruct b
  | |- ends (match ?x with _ => _ end) => destruct x
  end.

Ltac ends_tac := repeat ends_step.

Lemma tag_value_ends tag dataType count offset data byteOrder :
  ends (tag_value tag dataType count offset data byteOrder).
Proof. unfold tag_value. ends_tac. Qed.

Lemma parseTag_ends rec tag dataType count offset data byteOrder m :
  tag <> tagExifIFDPointer ->
  ends (parseTag rec tag dataType count offset data byteOrder m).
Proof.
  intros Htag. unfold parseTag.
  apply ends_bind; [apply tag_value_ends|intros value _].
  destruct (value =? EmptyString)%string; [apply ends_Ret|].
  destruct (tag_name tag) eqn:Et; try apply ends_Ret.
  apply tag_name_SubIFD in Et. contradiction.
Qed.

Lemma ifd_entries_ends rec data byteOrder dir n :
  0 <= dir + 2 < 2 ^ 31 ->
  forall i m,
    0 <= i -> i + Z.of_nat n <= 2 ^ 16 ->
    (forall j b, i <= j < i + Z.of_nat n ->
       slice data (dir + 2 + j * 12) (dir + 2 + j * 12 + 2) = Ret b ->
       Uint16 byteOrder b <> Ret tagExifIFDPointer) ->
    ends (ifd_entries rec data byteOrder (dir + 2) n i m).
Proof.
  intros Hdir.
  induction n as [|n IH]; intros i m Hi Hn H; cbn [ifd_entries]; [apply ends_Ret|].
  cbv zeta. rewrite (imul_small i 12) by lia.
  destruct (_ >? _); [apply ends_Ret|].
  apply ends_bind; [apply ends_slice|intros bt Hbt].
  apply ends_bind; [apply ends_Uint16|intros tag Htag].
  do 4 ends_step.
  apply ends_bind.
  - apply parseTag_ends. intros ->. apply (H i bt); [lia| |exact Htag].
    pose proof (slice_len _ _ _ _ Hbt) as (Hb0 & Hb1 & _).
    pose proof (iadd_range (dir + 2) (i * 12)).
    assert (E : dir + 2 +i i * 12 = dir + 2 + i * 12).
    { destruct (Z_lt_le_dec (dir + 2 + i * 12) (2 ^ 31)); [apply iadd_small; lia|].
      exfalso. unfold iadd in Hb0. rewrite wrap_int_high in Hb0 by lia. lia. }
    rewrite E in *.
    destruct (iadd_above (dir + 2 + i * 12) 2) as [_ E2]; [lia..|].
    rewrite E2 in Hbt. exact Hbt.
  - intros m1 _. apply IH; [lia|lia|]. intros j b Hj. apply H. lia.
Qed.

(** X10: a directory none of whose declared entries carries the EXIF
    pointer tag (0x8769) is decoded in one pass: [parseIFD] never calls
    itself there, so it ends under the recursion budget 1 and its outcome,
    a map or a panic, is the same under every positive budget. *)
Theorem parseIFD_without_pointer_one_pass (data : list byte) (offset : Z)
    (byteOrder : ByteOrder) (m : ExifData) :
  ~ ifd_has_pointer data byteOrder offset ->
  ends (parseIFD 1 data offset byteOrder m) /\
  forall fuel,
    parseIFD (S fuel) data offset byteOrder m = parseIFD 1 data offset byteOrder m.
Proof.
  intros Hno.
  assert (Hends : ends (parseIFD 1 data offset byteOrder m)).
  { cbn [parseIFD]. unfold parseIFD_body.
    destruct (_ >? _); [apply ends_Ret|].
    apply ends_bind; [apply ends_slice|intros bn Hbn].
    apply ends_bind; [apply ends_Uint16|intros numEntries Hnum].
    pose proof (slice_len _ _ _ _ Hbn) as (Hb0 & Hb1 & _).
    pose proof (iadd_range offset 2).
    destruct (iadd_above offset 2) as [_ E2]; [lia..|]. rewrite E2 in *.
    pose proof (Uint16_range _ _ _ Hnum).
    apply ifd_entries_ends; try lia.
    intros j b Hj Hb Htag. apply Hno.
    exists bn, numEntries, j, b. repeat split; try assumption; lia. }
  split; [exact Hends|].
  induction fuel as [|fuel IH]; [reflexivity|].
  rewrite <- IH. apply parseIFD_stable. rewrite IH. exact Hends.
Qed.

(** ** Numbers written as bytes *)

Lemma u8_byte_of_Z (n : Z) : u8 (byte_of_Z n) = n mod 256.
Proof.
  unfold byte_of_Z, u8.
  pose proof (Z.mod_pos_bound n 256 ltac:(lia)) as Hr.
  destruct (Byte.of_N (Z.to_N (n mod 256))) as [b|] eqn:E.
  - apply Byte.to_of_N in E. rewrite E. lia.
  - apply Byte.of_N_None_iff in E. lia.
Qed.

Lemma be16_value (n : Z) :
  0 <= n < 2 ^ 16 ->
  Z.lor (u8 (byte_of_Z n)) (Z.shiftl (u8 (byte_of_Z (n / 2 ^ 8))) 8) = n.
Proof.
  intros H. rewrite lor_shiftl_add by (try lia; apply u8_range).
  rewrite !u8_byte_of_Z. change (2 ^ 8) with 256.
  rewrite (Z.mod_small (n / 256)) by (split; [apply Z.div_pos; lia|apply Z.div_lt_upper_bound; lia]).
  pose proof (Z.div_mod n 256 ltac:(lia)). lia.
Qed.

Lemma bytes32_value (n : Z) :
  0 <= n < 2 ^ 32 ->
  n mod 256 + 2 ^ 8 * ((n / 2 ^ 8) mod 256) + 2 ^ 16 * ((n / 2 ^ 16) mod 256)
    + 2 ^ 24 * ((n / 2 ^ 24) mod 256) = n.
Proof.
  intros H.
  change (2 ^ 8) with 256. change (2 ^ 16) with (256 * 256).
  change (2 ^ 24) with (256 * 256 * 256).
  rewrite <- !Z.div_div by lia.
  pose proof (Z.div_mod n 256 ltac:(lia)).
  pose proof (Z.div_mod (n / 256) 256 ltac:(lia)).
  pose proof (Z.div_mod (n / 256 / 256) 256 ltac:(lia)).
  assert (0 <= n / 256 / 256 / 256 < 256).
  { split; [repeat apply Z.div_pos; lia|].
    repeat (apply Z.div_lt_upper_bound; [lia|]). lia. }
  rewrite (Z.mod_small (n / 256 / 256 / 256)) by assumption.
  lia.
Qed.

Lemma le32_bytes_value (n : Z) :
  0 <= n < 2 ^ 32 ->
  le32 (byte_of_Z n) (byte_of_Z (n / 2 ^ 8)) (byte_of_Z (n / 2 ^ 16))
       (byte_of_Z (n / 2 ^ 24)) = n.
Proof. intros H. rewrite le32_value, !u8_byte_of_Z. apply bytes32_value, H. Qed.

Lemma Uint32_be32 (n : Z) : 0 <= n < 2 ^ 32 -> Uint32 BigEndian (be32 n) = Ret n.
Proof.
  intros H. unfold Uint32, be32.
  rewrite (index_nth _ 0 (byte_of_Z (n / 2 ^ 24))) by (reflexivity || lia).
  rewrite (index_nth _ 1 (byte_of_Z (n / 2 ^ 16))) by (reflexivity || lia).
  rewrite (index_nth _ 2 (byte_of_Z (n / 2 ^ 8))) by (reflexivity || lia).
  rewrite (index_nth _ 3 (byte_of_Z n)) by (reflexivity || lia).
  cbn [bind]. f_equal. apply (le32_bytes_value n H).
Qed.

(** ** The JPEG decoder over a written list of segments *)

(** X11: the panic of the segment handlers outside the TIFF walker.  For
    every marker but APP1 (E1), whose handler hands an "Exif" payload to the
    TIFF walker, a handler panics exactly when the marker is APP0 (E0), the
    payload starts with "JFIF\0" and has fewer than 7 bytes: the version
    bytes at 5 and 6 are read behind a guard that asks for 5 bytes only. *)
Theorem jpeg_segment_panics_iff (fuel : nat) (marker1 : Z) (segmentData : list byte)
    (m : ExifData) :
  marker1 <> 0xE1 ->
  (jpeg_segment fuel marker1 segmentData m = Panic <->
   marker1 = 0xE0 /\ len segmentData < 7 /\ firstn 5 segmentData = lit0 "JFIF").
Proof.
  intros Hne1. split.
  - intros H. destruct (Z.eq_dec marker1 0xE0) as [->|Hne].
    + split; [reflexivity|]. apply (jpeg_app0_panics_iff fuel segmentData m), H.
    + exfalso. exact (jpeg_segment_safe fuel marker1 segmentData m Hne Hne1 H).
  - intros (-> & H). apply jpeg_app0_panics_iff, H.
Qed.

Lemma jpeg_segment_bytes_at (marker1 : byte) (payload rest : list byte) :
  u8 marker1 <> 0xDA -> len payload <= 65533 -> payload ++ rest <> [] ->
  jpeg_segment_at (jpeg_segment_bytes (marker1, payload) ++ rest) marker1 payload rest.
Proof.
  intros Hm Hlen Hne. pose proof (len_nonneg payload).
  exists (byte_of_Z ((len payload + 2) / 2 ^ 8)), (byte_of_Z (len payload + 2)).
  repeat split; try assumption.
  apply be16_value. lia.
Qed.

Lemma jpeg_segments_list fuel (tail : list byte) :
  forall segs n m,
    Forall (fun seg => u8 (fst seg) <> 0xDA /\ len (snd seg) <= 65533) segs ->
    (length (concat (map jpeg_segment_bytes segs) ++ xff :: xda :: tail) < n)%nat ->
    jpeg_segments n fuel (concat (map jpeg_segment_bytes segs) ++ xff :: xda :: tail) m =
      jpeg_fold fuel segs m.
Proof.
  induction segs as [|[marker1 payload] segs IH]; intros n m Hwf Hn;
    (destruct n as [|n]; [cbn in Hn; lia|]).
  - reflexivity.
  - apply Forall_cons_iff in Hwf as [[Hm Hlen] Hwf]. cbn [fst snd] in Hm, Hlen.
    cbn [map concat jpeg_fold]. rewrite <- app_assoc.
    rewrite (jpeg_segments_at n fuel _ marker1 payload
               (concat (map jpeg_segment_bytes segs) ++ xff :: xda :: tail)).
    + destruct (jpeg_segment _ _ _ _); cbn [bind]; try reflexivity.
      apply IH; [exact Hwf|].
      cbn [map concat] in Hn. rewrite <- app_assoc in Hn.
      rewrite (length_app (jpeg_segment_bytes _)) in Hn.
      assert (4 <= length (jpeg_segment_bytes (marker1, payload)))%nat
        by (unfold jpeg_segment_bytes, be16; cbn [length app fst snd]; lia).
      lia.
    + apply jpeg_segment_bytes_at; try assumption.
      destruct payload, (concat _); discriminate.
Qed.

(** X12: the JPEG decoder run on SOI, a list of whole segments and a start
    of scan (FF DA) is the fold of the segment handlers over that list, in
    order, from the empty map, followed by the test for an empty map.
    Whatever follows FF DA (the scan, further segments, EOI) is never
    read. *)
Theorem SimpleExifParser_Parse_segments (fuel : nat) (segs : list (byte * list byte))
    (tail : list byte) :
  Forall (fun seg => u8 (fst seg) <> 0xDA /\ len (snd seg) <= 65533) segs ->
  SimpleExifParser_Parse fuel
    ([xff; xd8] ++ concat (map jpeg_segment_bytes segs) ++ [xff; xda] ++ tail) =
  (exifData <- jpeg_fold fuel segs ∅;
   Ret (finish "no metadata found in JPEG" exifData)).
Proof.
  intros Hwf. cbn [app]. rewrite SimpleExifParser_Parse_signed.
  rewrite jpeg_segments_list by (try exact Hwf; cbn [length]; lia).
  destruct (jpeg_fold _ _ _); cbn [bind]; try reflexivity.
  unfold finish. destruct (bool_decide _); reflexivity.
Qed.

(** X13: a comment segment (FF FE) written before the start of scan comes
    back verbatim as the field "JPEG_Comment", for every text of up to
    65533 bytes.  The empty comment is kept too: the result is a map with
    the empty string under that key, not the "no metadata" error. *)
Theorem SimpleExifParser_Parse_comment (fuel : nat) (text tail : list byte) :
  len text <= 65533 ->
  SimpleExifParser_Parse fuel
    ([xff; xd8] ++ jpeg_segment_bytes (xfe, text) ++ [xff; xda] ++ tail) =
  Ret (Success {[ "JPEG_Comment" := string_of_list_byte text ]}).
Proof.
  intros Hlen. cbn [app].
  replace (jpeg_segment_bytes (xfe, text) ++ xff :: xda :: tail)
    with (concat (map jpeg_segment_bytes [(xfe, text)]) ++ xff :: xda :: tail)
    by (cbn [map concat]; rewrite app_nil_r; reflexivity).
  rewrite SimpleExifParser_Parse_signed.
  rewrite (jpeg_segments_list fuel tail [(xfe, text)]).
  - cbn [jpeg_fold bind]. unfold jpeg_segment. cbn [u8 Byte.to_N Z.of_N Z.eqb Pos.eqb bind].
    rewrite (dom_elem_nonempty "JPEG_Comment"); [reflexivity|].
    apply elem_of_dom. rewrite lookup_insert_eq. eauto.
  - constructor; [|constructor]. split; [vm_compute; discriminate|exact Hlen].
  - cbn [map concat]. rewrite app_nil_r. cbn [length]. lia.
Qed.

Lemma reader_Read_short (r : list byte) (k : nat) :
  r <> [] -> (length r <= k)%nat ->
  reader_Read r k = Some (r ++ repeat x00 (k - length r), []).
Proof.
  intros Hne Hk. destruct r as [|b r]; [contradiction|].
  unfold reader_Read. rewrite firstn_all2, skipn_all2 by exact Hk. reflexivity.
Qed.

(** X14: a segment cut short by the end of the buffer is not dropped.  When
    a comment segment declares more bytes than the buffer still holds (and
    at least one byte is left), the handler gets the bytes that are there
    followed by zero bytes up to the declared length, and the result
    carries that padded text. *)
Theorem SimpleExifParser_Parse_cut_comment (fuel : nat) (s0 s1 : byte) (text : list byte) :
  let size := Z.lor (u8 s1) (Z.shiftl (u8 s0) 8) in
  text <> [] ->
  len text + 2 <= size ->
  SimpleExifParser_Parse fuel ([xff; xd8; xff; xfe; s0; s1] ++ text) =
    Ret (Success {[ "JPEG_Comment" :=
           string_of_list_byte
             (text ++ repeat x00 (Z.to_nat (size - 2 - len text))) ]}).
Proof.
  intros size Hne Hlen. cbn [app]. rewrite SimpleExifParser_Parse_signed.
  cbn [length]. remember (S (S (S (S (length text))))) as n eqn:En.
  cbn [jpeg_segments]. rewrite reader_Read_2.
  change (index [xff; xfe] 0) with (Ret xff).
  change (index [xff; xfe] 1) with (Ret xfe).
  cbn [bind binary_Read_uint16].
  change (negb (u8 xff =? 255)) with false.
  change (u8 xfe =? 218) with false. cbv iota.
  fold size.
  replace (size <? 2) with false
    by (symmetry; apply Z.ltb_ge; pose proof (len_nonneg text); lia).
  rewrite reader_Read_short by (try assumption; unfold len in Hlen; lia).
  unfold jpeg_segment. change (u8 xfe =? 254) with true. cbv iota. cbn [bind].
  subst n. cbn [jpeg_segments reader_Read bind].
  rewrite (dom_elem_nonempty "JPEG_Comment")
    by (apply elem_of_dom; rewrite lookup_insert_eq; eauto).
  replace (Z.to_nat (size - 2) - length text)%nat with (Z.to_nat (size - 2 - len text))
    by (unfold len; lia).
  reflexivity.
Qed.

(** ** The PNG decoder over a written list of chunks *)

(** Fewer than 8 bytes from [offset] on hold no chunk header: the loop
    stops. *)
Lemma png_step_short fuel data offset m :
  0 <= offset -> len data - offset < 8 -> offset + 8 < 2 ^ 31 ->
  png_step fuel data offset m = Ret (Stop m).
Proof.
  intros Hoff Hshort Hfit. unfold png_step. nowrap.
  replace (offset + 8 >? len data) with true; [reflexivity|].
  symmetry. rewrite Z.gtb_ltb. apply Z.ltb_lt. lia.
Qed.

Lemma png_chunk_bytes_at (pre chunkType payload post : list byte) (crc : Z) :
  len chunkType = 4 -> len payload < 2 ^ 32 -> 0 <= crc < 2 ^ 32 ->
  png_chunk_at (pre ++ png_chunk_bytes (chunkType, payload, crc) ++ post) (len pre)
    chunkType payload crc.
Proof.
  intros Ht Hp Hc. pose proof (len_nonneg payload).
  exists pre, (be32 (len payload)), (be32 crc), post.
  repeat split; try assumption.
  - unfold png_chunk_bytes. rewrite <- !app_assoc. reflexivity.
  - apply Uint32_be32. lia.
  - apply Uint32_be32. exact Hc.
Qed.

Lemma len_png_chunk_bytes (chunkType payload : list byte) (crc : Z) :
  len chunkType = 4 -> len (png_chunk_bytes (chunkType, payload, crc)) = 12 + len payload.
Proof.
  intros Ht. unfold png_chunk_bytes. rewrite !len_app, Ht.
  change (len (be32 (len payload))) with 4. change (len (be32 crc)) with 4. lia.
Qed.

Lemma png_chunks_list fuel (tail : list byte) :
  len tail < 8 ->
  forall chunks pre n m,
    Forall (fun '(chunkType, payload, crc) =>
              len chunkType = 4 /\ 0 <= crc < 2 ^ 32) chunks ->
    len (pre ++ concat (map png_chunk_bytes chunks) ++ tail) < 2 ^ 31 - 8 ->
    (Z.to_nat (len (concat (map png_chunk_bytes chunks) ++ tail)) < n)%nat ->
    png_chunks n fuel (pre ++ concat (map png_chunk_bytes chunks) ++ tail) (len pre) m =
      png_fold fuel chunks m.
Proof.
  intros Htail.
  induction chunks as [|[[chunkType payload] crc] chunks IH]; intros pre n m Hwf Hlen Hn;
    (destruct n as [|n]; [lia|]); cbn [png_chunks].
  - cbn [map concat app png_fold] in *. destruct (_ <? _); [|reflexivity].
    pose proof (len_nonneg pre). pose proof (len_nonneg tail).
    rewrite len_app in Hlen.
    rewrite png_step_short; [reflexivity|lia|rewrite len_app; lia|lia].
  - apply Forall_cons_iff in Hwf as [(Ht & Hc) Hwf].
    cbn [map concat png_fold] in *. rewrite <- app_assoc in *.
    pose proof (len_nonneg pre).
    pose proof (len_nonneg (concat (map png_chunk_bytes chunks) ++ tail)).
    assert (Hp : len payload < 2 ^ 31).
    { rewrite len_app, (len_app (png_chunk_bytes _)), len_png_chunk_bytes in Hlen
        by exact Ht. lia. }
    pose proof (png_chunk_bytes_at pre chunkType payload
                  (concat (map png_chunk_bytes chunks) ++ tail) crc Ht ltac:(lia) Hc) as Hat.
    pose proof (png_chunk_at_bounds _ _ _ _ _ Hat) as [_ Hb].
    replace (len pre <? _) with true
      by (symmetry; apply Z.ltb_lt; pose proof (len_nonneg payload); lia).
    match type of Hlen with
    | ?l < _ => assert (Hlen' : l < 2 ^ 31) by lia
    end.
    rewrite (png_step_at _ _ _ _ _ _ _ Hlen' Hat).
    destruct (png_chunk _ _ _ _) as [m'| |]; cbn [bind]; try reflexivity.
    replace (len pre + 12 + len payload)
      with (len (pre ++ png_chunk_bytes (chunkType, payload, crc)))
      by (rewrite len_app, len_png_chunk_bytes by exact Ht; lia).
    rewrite (app_assoc pre). apply IH; [exact Hwf|rewrite <- app_assoc; exact Hlen|].
    rewrite (len_app (png_chunk_bytes _)), len_png_chunk_bytes in Hn by exact Ht.
    pose proof (len_nonneg payload). lia.
Qed.

(** X15: the PNG decoder run on the signature, a list of whole chunks and
    a tail of fewer than 8 bytes (too short for a chunk header), the whole
    of fewer than 2^31 - 8 bytes so that no offset of the loop wraps in the
    32 bits of the build's [int], is the fold over that list, in order and
    from the empty map, of: the CRC warning when the CRC field differs from
    the CRC-32 of type and data, then the handler of the chunk type;
    followed by the test for an empty map.  A CRC mismatch skips no chunk,
    the tail is ignored without an error, and a chunk after [IEND] is
    handled like any other. *)
Theorem PNGParser_Parse_chunks (fuel : nat) (chunks : list (list byte * list byte * Z))
    (tail : list byte) :
  Forall (fun '(chunkType, payload, crc) =>
            len chunkType = 4 /\ 0 <= crc < 2 ^ 32) chunks ->
  len tail < 8 ->
  len (pngSignature ++ concat (map png_chunk_bytes chunks) ++ tail) < 2 ^ 31 - 8 ->
  PNGParser_Parse fuel (pngSignature ++ concat (map png_chunk_bytes chunks) ++ tail) =
  (exifData <- png_fold fuel chunks ∅;
   Ret (finish "no metadata found in PNG" exifData)).
Proof.
  intros Hwf Htail Hlen. rewrite PNGParser_Parse_signed.
  change 8 with (len pngSignature) at 1.
  rewrite (png_chunks_list fuel tail Htail chunks pngSignature) by
    (try exact Hwf; try exact Hlen; rewrite length_app; unfold len; lia).
  destruct (png_fold _ _ _); cbn [bind]; try reflexivity.
  unfold finish. destruct (bool_decide _); reflexivity.
Qed.

(** ** The PNG text and header chunks *)

Lemma IndexByte_from_app (kw rest : list byte) (c : byte) (i : Z) :
  ~ In c kw -> IndexByte_from (kw ++ c :: rest) c i = i + len kw.
Proof.
  revert i. induction kw as [|b kw IH]; intros i Hn; cbn [app IndexByte_from].
  - rewrite (Byte.byte_dec_lb (eq_refl c)), len_nil. lia.
  - destruct (Byte.eqb b c) eqn:E.
    + apply Byte.byte_dec_bl in E. subst. exfalso. apply Hn. left. reflexivity.
    + rewrite IH by (intros Hin; apply Hn; right; exact Hin). rewrite len_cons. lia.
Qed.

Lemma IndexByte_from_absent (s : list byte) (c : byte) (i : Z) :
  ~ In c s -> IndexByte_from s c i = -1.
Proof.
  revert i. induction s as [|b s IH]; intros i Hn; cbn [IndexByte_from]; [reflexivity|].
  destruct (Byte.eqb b c) eqn:E.
  - apply Byte.byte_dec_bl in E. subst. exfalso. apply Hn. left. reflexivity.
  - apply IH. intros Hin. apply Hn. right. exact Hin.
Qed.

Lemma IndexByte_app (kw rest : list byte) (c : byte) :
  ~ In c kw -> IndexByte (kw ++ c :: rest) c = len kw.
Proof. intros H. unfold IndexByte. rewrite IndexByte_from_app by exact H. lia. Qed.

(** X16: [parseTEXt] splits its chunk at the first NUL byte.  A keyword
    without NUL, a NUL and a non-empty text come back as the field
    "PNG_<keyword>" with that text (which may hold further NULs, and the
    keyword may be empty).  A chunk that ends with the NUL, or that holds
    no NUL at all, adds nothing. *)
Theorem parseTEXt_round_trip (keyword text : list byte) (m : ExifData) :
  ~ In x00 keyword ->
  (text <> [] ->
   parseTEXt (keyword ++ x00 :: text) m =
     Ret (<["PNG_" +:+ string_of_list_byte keyword := string_of_list_byte text]> m)) /\
  parseTEXt (keyword ++ [x00]) m = Ret m /\
  parseTEXt keyword m = Ret m.
Proof.
  intros Hkw. pose proof (len_nonneg keyword). repeat split.
  - intros Htext. unfold parseTEXt. cbv zeta. rewrite IndexByte_app by exact Hkw.
    assert (0 < len text).
    { destruct text; [contradiction|]. rewrite len_cons. pose proof (len_nonneg text). lia. }
    replace ((len keyword <? 0) || _) with false.
    2:{ symmetry. apply orb_false_iff. split; [apply Z.ltb_ge; lia|].
        rewrite Z.geb_leb. apply Z.leb_gt. rewrite len_app, len_cons. lia. }
    unfold slice_to, slice_from.
    rewrite (slice_at _ [] keyword (x00 :: text)) by reflexivity.
    cbn [bind].
    rewrite (slice_at _ (keyword ++ [x00]) text [])
      by (rewrite <- ?app_assoc, ?app_nil_r, ?len_app, ?len_cons, ?len_nil;
          reflexivity || lia).
    reflexivity.
  - unfold parseTEXt. cbv zeta. rewrite IndexByte_app by exact Hkw.
    replace (len keyword >=? len (keyword ++ [x00]) - 1) with true;
      [rewrite orb_true_r; reflexivity|].
    symmetry. rewrite Z.geb_leb. apply Z.leb_le. rewrite len_app, len_cons, len_nil. lia.
  - unfold parseTEXt, IndexByte. cbv zeta.
    rewrite IndexByte_from_absent by exact Hkw. reflexivity.
Qed.

(** X17: [parseIHDR] reads width and height as big-endian 32-bit numbers
    and renders them in decimal: a header written from [width] and
    [height] comes back with exactly these numbers, and the depth,
    compression and filter bytes come back as their decimal values.  A
    payload of fewer than 13 bytes adds nothing. *)
Theorem parseIHDR_round_trip (width height : Z)
    (bitDepth colorType compression filter interlace : byte)
    (rest short : list byte) (m : ExifData) :
  0 <= width < 2 ^ 32 -> 0 <= height < 2 ^ 32 ->
  (exists m',
     parseIHDR (be32 width ++ be32 height ++
                bitDepth :: colorType :: compression :: filter :: interlace :: rest) m
       = Ret m' /\
     m' !! "PNG_ImageWidth" = Some (fmt_d width) /\
     m' !! "PNG_ImageHeight" = Some (fmt_d height) /\
     m' !! "PNG_BitDepth" = Some (fmt_d (u8 bitDepth)) /\
     m' !! "PNG_Compression" = Some (fmt_d (u8 compression)) /\
     m' !! "PNG_Filter" = Some (fmt_d (u8 filter))) /\
  (len short < 13 -> parseIHDR short m = Ret m).
Proof.
  intros Hw Hh. split.
  2:{ intros Hs. unfold parseIHDR. apply Z.ltb_lt in Hs. rewrite Hs. reflexivity. }
  set (tl := bitDepth :: colorType :: compression :: filter :: interlace :: rest).
  set (data := be32 width ++ be32 height ++ tl).
  unfold parseIHDR.
  replace (len data <? 13) with false.
  2:{ symmetry. apply Z.ltb_ge. unfold data, tl. rewrite !len_app, !len_cons.
      change (len (be32 width)) with 4. change (len (be32 height)) with 4.
      pose proof (len_nonneg rest). lia. }
  rewrite (slice_at data [] (be32 width) (be32 height ++ tl)) by reflexivity.
  cbn [bind]. rewrite (Uint32_be32 width Hw). cbn [bind].
  rewrite (slice_at data (be32 width) (be32 height) tl) by reflexivity.
  cbn [bind]. rewrite (Uint32_be32 height Hh). cbn [bind].
  rewrite (index_nth data 8 bitDepth), (index_nth data 9 colorType),
    (index_nth data 10 compression), (index_nth data 11 filter),
    (index_nth data 12 interlace) by (reflexivity || lia).
  cbn [bind]. cbv zeta.
  destruct (colorTypes (u8 colorType));
    destruct (u8 interlace =? 0); try destruct (u8 interlace =? 1);
    (eexists; split; [reflexivity|]);
    repeat split;
    repeat (rewrite lookup_insert_ne by discriminate);
    apply lookup_insert_eq.
Qed.

(** ** The WebP decoder over a written list of chunks *)

(** Fewer than 8 bytes from [offset] on hold no chunk header: the loop
    stops. *)
Lemma webp_step_short fuel data offset m :
  0 <= offset -> offset + 8 < 2 ^ 31 -> len data - offset < 8 ->
  webp_step fuel data offset m = Ret (Stop m).
Proof.
  intros Hoff Hfit Hshort. unfold webp_step. nowrap.
  replace (offset + 8 >? len data) with true; [reflexivity|].
  symmetry. rewrite Z.gtb_ltb. apply Z.ltb_lt. lia.
Qed.

Lemma len_webp_chunk_bytes (chunkID payload : list byte) :
  len chunkID = 4 ->
  len (webp_chunk_bytes (chunkID, payload)) =
    8 + len payload + (if len payload mod 2 =? 1 then 1 else 0).
Proof.
  intros Hid. unfold webp_chunk_bytes. rewrite !len_app, Hid.
  change (len (le32_bytes (len payload))) with 4.
  destruct (len payload mod 2 =? 1); rewrite ?len_cons, ?len_nil; lia.
Qed.

Lemma webp_next_small (offset size : Z) :
  - 2 ^ 31 <= offset + 8 + size + 1 < 2 ^ 31 ->
  webp_next offset size = offset + 8 + size + (if size mod 2 =? 1 then 1 else 0).
Proof.
  intros H. unfold webp_next. destruct (_ =? 1); [apply iadd_small; lia|lia].
Qed.

Lemma webp_chunk_bytes_at (pre chunkID payload post : list byte) :
  len chunkID = 4 -> len payload < 2 ^ 32 ->
  webp_chunk_at (pre ++ webp_chunk_bytes (chunkID, payload) ++ post) (len pre)
    chunkID payload.
Proof.
  intros Hid Hp. pose proof (len_nonneg payload).
  exists pre, ((if len payload mod 2 =? 1 then [x00] else []) ++ post),
    (byte_of_Z (len payload)), (byte_of_Z (len payload / 2 ^ 8)),
    (byte_of_Z (len payload / 2 ^ 16)), (byte_of_Z (len payload / 2 ^ 24)).
  repeat split; try assumption.
  - unfold webp_chunk_bytes, le32_bytes. rewrite <- !app_assoc. reflexivity.
  - apply le32_bytes_value. lia.
Qed.

Lemma webp_chunks_list fuel (tail : list byte) (fileSize : Z) :
  0 <= fileSize -> fileSize + 8 < 2 ^ 31 ->
  forall chunks pre n m,
    Forall (fun '(chunkID, payload) => len chunkID = 4) chunks ->
    len (pre ++ concat (map webp_chunk_bytes chunks) ++ tail) < 2 ^ 31 - 8 ->
    len pre + len (concat (map webp_chunk_bytes chunks)) <= fileSize + 8 ->
    len tail < 8 \/ fileSize + 8 = len pre + len (concat (map webp_chunk_bytes chunks)) ->
    (Z.to_nat (len (concat (map webp_chunk_bytes chunks) ++ tail)) < n)%nat ->
    webp_chunks n fuel (pre ++ concat (map webp_chunk_bytes chunks) ++ tail) fileSize
      (len pre) m = webp_fold fuel chunks m.
Proof.
  intros Hfs0 Hfs8.
  induction chunks as [|[chunkID payload] chunks IH];
    intros pre n m Hwf Hlen Hsize Htail Hn;
    (destruct n as [|n]; [lia|]); cbn [webp_chunks]; nowrap;
    pose proof (len_nonneg pre) as Hpre0; pose proof (len_nonneg tail) as Ht0.
  - cbn [map concat app webp_fold] in *. rewrite len_nil in *.
    destruct (Z.ltb_spec (len pre) (len (pre ++ tail))); [|reflexivity].
    destruct (Z.ltb_spec (len pre) (fileSize + 8)); [|reflexivity].
    cbn [andb]. rewrite webp_step_short; [reflexivity|lia|lia|]. rewrite len_app. lia.
  - apply Forall_cons_iff in Hwf as [Hid Hwf].
    cbn [map concat webp_fold] in *. rewrite <- app_assoc in *.
    pose proof (len_nonneg payload) as Hp0.
    pose proof (len_nonneg (concat (map webp_chunk_bytes chunks))) as Hc0.
    pose proof (len_webp_chunk_bytes chunkID payload Hid) as Hcl.
    assert (Hpad : 0 <= (if len payload mod 2 =? 1 then 1 else 0) <= 1)
      by (destruct (_ =? 1); lia).
    assert (Hlen' : len pre + len (webp_chunk_bytes (chunkID, payload)) +
                    len (concat (map webp_chunk_bytes chunks)) + len tail < 2 ^ 31 - 8)
      by (rewrite !len_app in Hlen; lia).
    rewrite (len_app (webp_chunk_bytes _)) in Hsize, Htail, Hn.
    pose proof (webp_next_small (len pre) (len payload) ltac:(lia)) as Hnext.
    pose proof (webp_chunk_bytes_at pre chunkID payload
                  (concat (map webp_chunk_bytes chunks) ++ tail) Hid ltac:(lia)) as Hat.
    pose proof (webp_chunk_at_bounds _ _ _ _ Hat) as [_ Hb].
    replace (len pre <? _) with true by (symmetry; apply Z.ltb_lt; lia).
    replace (len pre <? fileSize + 8) with true by (symmetry; apply Z.ltb_lt; lia).
    cbn [andb].
    match type of Hlen with
    | ?l < _ => assert (Hlen2 : l < 2 ^ 31) by lia
    end.
    rewrite (webp_step_at _ _ _ _ _ _ Hlen2 Hat).
    destruct (webp_chunk _ _ _ _) as [m'| |]; cbn [bind]; try reflexivity.
    replace (webp_next (len pre) (len payload))
      with (len (pre ++ webp_chunk_bytes (chunkID, payload)))
      by (rewrite len_app; lia).
    rewrite (app_assoc pre). apply IH; try exact Hwf.
    + rewrite <- app_assoc. exact Hlen.
    + rewrite len_app. lia.
    + rewrite len_app. lia.
    + rewrite len_app in *. lia.
Qed.

(** X18: the WebP decoder run on a RIFF header that declares [size] bytes,
    a list of whole chunks (each with its pad byte after an odd payload)
    that fit in the declared size, and a tail, is the fold of the chunk
    handlers over that list, in order and from the empty map, followed by
    the test for an empty map.  The tail is ignored without an error when
    it is shorter than a chunk header, and also, whatever it holds, when
    the chunks fill the declared size exactly.  The declared size and the
    length of the buffer are below 2^31 - 8, so that neither the end of the
    walk, [int(fileSize) + 8], nor an offset of the loop wraps in the 32
    bits of the build's [int]. *)
Theorem WebPParser_Parse_chunks (fuel : nat) (size : Z)
    (chunks : list (list byte * list byte)) (tail : list byte) :
  Forall (fun '(chunkID, payload) => len chunkID = 4) chunks ->
  4 + len (concat (map webp_chunk_bytes chunks)) <= size < 2 ^ 31 - 8 ->
  len tail < 8 \/ size = 4 + len (concat (map webp_chunk_bytes chunks)) ->
  len (lit "RIFF" ++ le32_bytes size ++ lit "WEBP" ++
       concat (map webp_chunk_bytes chunks) ++ tail) < 2 ^ 31 - 8 ->
  WebPParser_Parse fuel
    (lit "RIFF" ++ le32_bytes size ++ lit "WEBP" ++
     concat (map webp_chunk_bytes chunks) ++ tail) =
  (exifData <- webp_fold fuel chunks ∅;
   Ret (finish "no metadata found in WebP file" exifData)).
Proof.
  intros Hwf Hsize Htail Hlen. revert Hlen.
  pose proof (len_nonneg (concat (map webp_chunk_bytes chunks))) as Hc0.
  unfold le32_bytes. rewrite WebPParser_Parse_signed.
  rewrite (le32_bytes_value size) by lia.
  set (pre := lit "RIFF" ++ [byte_of_Z size; byte_of_Z (size / 2 ^ 8);
                             byte_of_Z (size / 2 ^ 16); byte_of_Z (size / 2 ^ 24)]
              ++ lit "WEBP").
  replace (lit "RIFF" ++ _ ++ lit "WEBP" ++ concat (map webp_chunk_bytes chunks) ++ tail)
    with (pre ++ concat (map webp_chunk_bytes chunks) ++ tail)
    by (unfold pre; rewrite <- !app_assoc; reflexivity).
  intros Hlen. change 12 with (len pre).
  rewrite (webp_chunks_list fuel tail size ltac:(lia) ltac:(lia) chunks pre);
    try exact Hwf; try exact Hlen; change (len pre) with 12; try lia.
  - destruct (webp_fold _ _ _); cbn [bind]; try reflexivity.
    unfold finish. destruct (bool_decide _); reflexivity.
  - rewrite length_app. unfold len. lia.
Qed.

(** X19: the size field of the RIFF header is trusted: when it declares 4
    bytes or fewer, no chunk is looked at, whatever the buffer holds after
    the signature, and the answer is the "no metadata" error. *)
Theorem WebPParser_Parse_small_declared_size (fuel : nat) (d4 d5 d6 d7 : byte)
    (rest : list byte) :
  le32 d4 d5 d6 d7 <= 4 ->
  WebPParser_Parse fuel (lit "RIFF" ++ [d4; d5; d6; d7] ++ lit "WEBP" ++ rest) =
    Ret (Failure (Errorf "no metadata found in WebP file")).
Proof.
  intros Hsize. rewrite WebPParser_Parse_signed. cbn [webp_chunks].
  pose proof (le32_range d4 d5 d6 d7). nowrap.
  replace (12 <? le32 d4 d5 d6 d7 + 8) with false
    by (symmetry; apply Z.ltb_ge; lia).
  rewrite andb_false_r. reflexivity.
Qed.

(** ** Warnings and parse errors as fields of the result *)

Lemma png_chunk_ends fuel chunkType chunkData m :
  chunkType <> "eXIf" -> ends (png_chunk fuel chunkType chunkData m).
Proof.
  intros Hne. unfold png_chunk.
  destruct (String.eqb_spec chunkType "eXIf"); [contradiction|].
  unfold parseIHDR, parseTEXt, parseZTXt, parseITXt, parsePHYs, parseTIME, parseICCP.
  ends_tac.
Qed.

(** Every chunk handler but the one of [eXIf] returns. *)
Lemma png_chunk_returns fuel chunkType chunkData m :
  chunkType <> "eXIf" -> exists m', png_chunk fuel chunkType chunkData m = Ret m'.
Proof.
  intros Hne.
  pose proof (png_chunk_safe fuel chunkType chunkData m Hne) as Hs.
  pose proof (png_chunk_ends fuel chunkType chunkData m Hne) as He.
  destruct (png_chunk fuel chunkType chunkData m) as [m'| |];
    [eauto|contradiction|contradiction].
Qed.

(** Over chunks none of which is an [eXIf] chunk with a payload that passes
    the TIFF header check, the fold returns; it drops no key, a chunk whose
    CRC field does not match leaves the warning, and an [eXIf] chunk leaves
    the parse error. *)
Lemma png_fold_returns fuel chunks :
  Forall (fun '(chunkType, payload, crc) =>
            chunkType <> lit "eXIf" \/ bad_tiff_header payload) chunks ->
  forall m, exists r,
    png_fold fuel chunks m = Ret r /\ dom m ⊆ dom r /\
    (Exists (fun '(chunkType, payload, crc) => crc_mismatch chunkType payload crc) chunks ->
     "PNG_Warning" ∈ dom r) /\
    (Exists (fun '(chunkType, payload, crc) => png_bad_exif_chunk chunkType payload crc)
       chunks ->
     "EXIF_ParseError" ∈ dom r).
Proof.
  induction chunks as [|[[ty p] crc] chunks IH]; intros Hwf m.
  - exists m. split; [reflexivity|]. split; [reflexivity|].
    split; intros H; inversion H.
  - apply Forall_cons_iff in Hwf as [Hok Hwf]. cbn [png_fold]. cbv zeta.
    assert (Hty : string_of_list_byte ty = "eXIf" -> ty = lit "eXIf").
    { intros H. rewrite <- (list_byte_of_string_of_list_byte ty), H. reflexivity. }
    match goal with
    | |- context [png_chunk fuel _ p ?m0] => set (m1 := m0)
    end.
    assert (Hm1 : dom m ⊆ dom m1)
      by (unfold m1; destruct (negb _); [apply dom_insert_grows|reflexivity]).
    assert (Hw1 : crc_mismatch ty p crc -> "PNG_Warning" ∈ dom m1).
    { intros Hc. apply Z.eqb_neq in Hc. unfold m1. rewrite Hc. cbn [negb].
      apply elem_of_dom. rewrite lookup_insert_eq. eauto. }
    clearbody m1.
    assert (Hret : exists m',
              png_chunk fuel (string_of_list_byte ty) p m1 = Ret m' /\
              (png_bad_exif_chunk ty p crc -> "EXIF_ParseError" ∈ dom m')).
    { destruct (String.eqb_spec (string_of_list_byte ty) "eXIf") as [Heq|Hneq].
      - destruct Hok as [Hne|Hbad]; [destruct (Hne (Hty Heq))|].
        rewrite Heq, (png_chunk_bad_exif _ _ _ Hbad). eexists. split; [reflexivity|].
        intros _. rewrite dom_insert_L. set_solver.
      - destruct (png_chunk_returns fuel _ p m1 Hneq) as [m' E]. exists m'.
        split; [exact E|]. intros [-> _]. destruct Hneq. reflexivity. }
    destruct Hret as (m' & E & He1).
    rewrite E. cbn [bind]. pose proof (png_chunk_keeps _ _ _ _ _ E) as Hk.
    destruct (IH Hwf m') as (r & Er & Hsub & Hw & He).
    exists r. split; [exact Er|].
    split; [etransitivity; [exact Hm1|]; etransitivity; [exact Hk|exact Hsub]|]. split.
    + intros Hex. apply Exists_cons in Hex as [Hc|Hex]; [|exact (Hw Hex)].
      apply Hsub, Hk, Hw1, Hc.
    + intros Hex. apply Exists_cons in Hex as [Hc|Hex]; [|exact (He Hex)].
      apply Hsub, He1, Hc.
Qed.

Lemma webp_chunk_ends fuel chunkID chunkData m :
  chunkID <> "EXIF" -> ends (webp_chunk fuel chunkID chunkData m).
Proof.
  intros Hne. unfold webp_chunk.
  destruct (String.eqb_spec chunkID "EXIF"); [contradiction|].
  ends_tac.
Qed.

(** Every chunk handler but the one of [EXIF] returns. *)
Lemma webp_chunk_returns fuel chunkID chunkData m :
  chunkID <> "EXIF" -> exists m', webp_chunk fuel chunkID chunkData m = Ret m'.
Proof.
  intros Hne.
  pose proof (webp_chunk_safe fuel chunkID chunkData m Hne) as Hs.
  pose proof (webp_chunk_ends fuel chunkID chunkData m Hne) as He.
  destruct (webp_chunk fuel chunkID chunkData m) as [m'| |];
    [eauto|contradiction|contradiction].
Qed.

Lemma webp_fold_returns fuel chunks :
  Forall (fun '(chunkID, payload) =>
            chunkID <> lit "EXIF" \/ bad_tiff_header payload) chunks ->
  forall m, exists r,
    webp_fold fuel chunks m = Ret r /\ dom m ⊆ dom r /\
    (Exists (fun '(chunkID, payload) => webp_bad_exif_chunk chunkID payload) chunks ->
     "EXIF_ParseError" ∈ dom r).
Proof.
  induction chunks as [|[id p] chunks IH]; intros Hwf m.
  - exists m. split; [reflexivity|]. split; [reflexivity|]. intros H. inversion H.
  - apply Forall_cons_iff in Hwf as [Hok Hwf]. cbn [webp_fold].
    assert (Hid : string_of_list_byte id = "EXIF" -> id = lit "EXIF").
    { intros H. rewrite <- (list_byte_of_string_of_list_byte id), H. reflexivity. }
    assert (Hret : exists m',
              webp_chunk fuel (string_of_list_byte id) p m = Ret m' /\
              (webp_bad_exif_chunk id p -> "EXIF_ParseError" ∈ dom m')).
    { destruct (String.eqb_spec (string_of_list_byte id) "EXIF") as [Heq|Hneq].
      - destruct Hok as [Hne|Hbad]; [destruct (Hne (Hid Heq))|].
        rewrite Heq, (webp_chunk_bad_exif _ _ _ Hbad). eexists. split; [reflexivity|].
        intros _. rewrite dom_insert_L. set_solver.
      - destruct (webp_chunk_returns fuel _ p m Hneq) as [m' E]. exists m'.
        split; [exact E|]. intros [-> _]. destruct Hneq. reflexivity. }
    destruct Hret as (m' & E & He1).
    rewrite E. cbn [bind]. pose proof (webp_chunk_keeps _ _ _ _ _ E) as Hk.
    destruct (IH Hwf m') as (r & Er & Hsub & He).
    exists r. split; [exact Er|]. split; [etransitivity; [exact Hk|exact Hsub]|].
    intros Hex. apply Exists_cons in Hex as [Hc|Hex]; [|exact (He Hex)].
    apply Hsub, He1, Hc.
Qed.

(** C7: in a buffer of fewer than 2^31 bytes, as every buffer of the 32-bit
    build is, a chunk whose stored CRC-32 differs from the one computed over
    its type and data gets the field "PNG_Warning" and is then handled like
    any other chunk, the walk going on with the chunk after it; a parse
    whose walk meets such a chunk never returns an error: what it returns is
    a map with the warning.  A parse does return it when the buffer is the
    signature, a list of whole chunks none of which is an [eXIf] chunk, and
    fewer than 8 more bytes (the handler of [eXIf] is the one that can
    panic or use up the recursion budget).  The sample with the [tEXt]
    chunk "Comment\0Hello" and a zeroed CRC returns the comment and the
    warning. *)
Theorem png_crc_mismatch_is_a_warning (fuel : nat) :
  (forall data offset chunkType payload crc m,
     len data < 2 ^ 31 ->
     png_chunk_at data offset chunkType payload crc ->
     crc_mismatch chunkType payload crc ->
     png_step fuel data offset m =
       (m' <- png_chunk fuel (string_of_list_byte chunkType) payload
                (<["PNG_Warning" :=
                     "CRC mismatch for chunk " +:+ string_of_list_byte chunkType]> m);
        Ret (Next (offset + 12 + len payload, m')))) /\
  (forall rest r,
     len (pngSignature ++ rest) < 2 ^ 31 ->
     png_walk_meets crc_mismatch (pngSignature ++ rest) 8 ->
     PNGParser_Parse fuel (pngSignature ++ rest) = Ret r ->
     exists m, r = Success m /\ "PNG_Warning" ∈ dom m) /\
  (forall chunks tail,
     Forall (fun '(chunkType, payload, crc) =>
               len chunkType = 4 /\ 0 <= crc < 2 ^ 32 /\ chunkType <> lit "eXIf") chunks ->
     Exists (fun '(chunkType, payload, crc) => crc_mismatch chunkType payload crc) chunks ->
     len tail < 8 ->
     len (pngSignature ++ concat (map png_chunk_bytes chunks) ++ tail) < 2 ^ 31 - 8 ->
     exists m,
       PNGParser_Parse fuel (pngSignature ++ concat (map png_chunk_bytes chunks) ++ tail) =
         Ret (Success m) /\
       "PNG_Warning" ∈ dom m) /\
  ParseImage fuel png_text_bad_crc =
    Ret (Success {[ "PNG_Comment" := "Hello";
                    "PNG_Warning" := "CRC mismatch for chunk tEXt" ]}).
Proof.
  split; [|split; [|split]].
  - intros data offset ty payload crc m Hlen Hat Hcrc.
    exact (png_step_crc_mismatch _ _ _ _ _ _ _ Hlen Hat Hcrc).
  - intros rest r Hlen Hmeets E.
    apply (PNGParser_Parse_meets "PNG_Warning" crc_mismatch) in E;
      [exact E|exact Hlen|clear E|exact Hmeets].
    intros offset ty payload crc m s Hat Hcrc.
    rewrite (png_step_crc_mismatch _ _ _ _ _ _ _ Hlen Hat Hcrc).
    destruct (png_chunk _ _ _ _) as [m'| |] eqn:E'; try discriminate. cbn [bind].
    intros [= <-]. exists m'. split; [reflexivity|].
    apply (png_chunk_keeps _ _ _ _ _ E'). rewrite dom_insert_L. set_solver.
  - intros chunks tail Hwf Hex Htail Hlen. rewrite PNGParser_Parse_signed.
    change 8 with (len pngSignature) at 1.
    rewrite (png_chunks_list fuel tail Htail chunks pngSignature);
      [|eapply Forall_impl; [exact Hwf|]; intros [[ty p] crc] (H1 & H2 & _); auto
       |exact Hlen|rewrite length_app; unfold len; lia].
    destruct (png_fold_returns fuel chunks) with (m := (∅ : ExifData))
      as (r & -> & _ & Hw & _).
    { eapply Forall_impl; [exact Hwf|]. intros [[ty p] crc] (_ & _ & H3). left. exact H3. }
    specialize (Hw Hex). cbn [bind].
    rewrite (dom_elem_nonempty _ _ Hw). eauto.
  - vm_compute. reflexivity.
Qed.

(** C10: at an EXIF payload that fails the TIFF header check (shorter than
    8 bytes, or starting neither with II nor with MM) each of the three
    container handlers stores the error text under "EXIF_ParseError" and
    returns normally; a parse whose walk meets such a payload never returns
    an error, [NoMetadataFound] included: what it returns is a map with that
    key.  For PNG and WebP this is about buffers of fewer than 2^31 bytes,
    as every buffer of the 32-bit build is, and for WebP about a declared
    RIFF size below 2^31 - 8, so that the end of the walk, [fileSize + 8],
    is the one the loop computes.  A PNG or WebP parse does return that map
    when the buffer is written as whole chunks followed by fewer than 8
    bytes and no other EXIF payload gets as far as the TIFF walker.  The
    three samples, whose only content is such a payload, return the map
    with just that entry. *)
Theorem exif_parse_error_is_a_field (fuel : nat) :
  (forall payload m,
     bad_tiff_header payload ->
     png_chunk fuel "eXIf" payload m =
       Ret (<["EXIF_ParseError" := tiff_error_text payload]> m) /\
     webp_chunk fuel "EXIF" payload m =
       Ret (<["EXIF_ParseError" := tiff_error_text payload]> m) /\
     forall e4 e5,
       jpeg_segment fuel 0xE1 (lit "Exif" ++ e4 :: e5 :: payload) m =
         Ret (<["EXIF_ParseError" := tiff_error_text payload]> m)) /\
  (forall r res,
     jpeg_walk_meets jpeg_bad_exif_segment r ->
     SimpleExifParser_Parse fuel (xff :: xd8 :: r) = Ret res ->
     exists m, res = Success m /\ "EXIF_ParseError" ∈ dom m) /\
  (forall rest res,
     len (pngSignature ++ rest) < 2 ^ 31 ->
     png_walk_meets png_bad_exif_chunk (pngSignature ++ rest) 8 ->
     PNGParser_Parse fuel (pngSignature ++ rest) = Ret res ->
     exists m, res = Success m /\ "EXIF_ParseError" ∈ dom m) /\
  (forall (d4 d5 d6 d7 : byte) rest res,
     let data := lit "RIFF" ++ [d4; d5; d6; d7] ++ lit "WEBP" ++ rest in
     len data < 2 ^ 31 ->
     le32 d4 d5 d6 d7 + 8 < 2 ^ 31 ->
     webp_walk_meets webp_bad_exif_chunk data (le32 d4 d5 d6 d7) 12 ->
     WebPParser_Parse fuel data = Ret res ->
     exists m, res = Success m /\ "EXIF_ParseError" ∈ dom m) /\
  (forall chunks tail,
     Forall (fun '(chunkType, payload, crc) =>
               len chunkType = 4 /\ 0 <= crc < 2 ^ 32 /\
               (chunkType <> lit "eXIf" \/ bad_tiff_header payload)) chunks ->
     Exists (fun '(chunkType, payload, crc) => png_bad_exif_chunk chunkType payload crc)
       chunks ->
     len tail < 8 ->
     len (pngSignature ++ concat (map png_chunk_bytes chunks) ++ tail) < 2 ^ 31 - 8 ->
     exists m,
       PNGParser_Parse fuel (pngSignature ++ concat (map png_chunk_bytes chunks) ++ tail) =
         Ret (Success m) /\
       "EXIF_ParseError" ∈ dom m) /\
  (forall size chunks tail,
     let data := lit "RIFF" ++ le32_bytes size ++ lit "WEBP" ++
                 concat (map webp_chunk_bytes chunks) ++ tail in
     Forall (fun '(chunkID, payload) =>
               len chunkID = 4 /\
               (chunkID <> lit "EXIF" \/ bad_tiff_header payload)) chunks ->
     Exists (fun '(chunkID, payload) => webp_bad_exif_chunk chunkID payload) chunks ->
     4 + len (concat (map webp_chunk_bytes chunks)) <= size < 2 ^ 31 - 8 ->
     len tail < 8 \/ size = 4 + len (concat (map webp_chunk_bytes chunks)) ->
     len data < 2 ^ 31 - 8 ->
     exists m, WebPParser_Parse fuel data = Ret (Success m) /\
               "EXIF_ParseError" ∈ dom m) /\
  ParseImage fuel jpeg_bad_exif =
    Ret (Success {[ "EXIF_ParseError" := "TIFF header too short" ]}) /\
  ParseImage fuel png_bad_exif =
    Ret (Success {[ "EXIF_ParseError" := "TIFF header too short" ]}) /\
  ParseImage fuel webp_bad_exif =
    Ret (Success {[ "EXIF_ParseError" := "TIFF header too short" ]}).
Proof.
  assert (Hin : forall (m : ExifData) v, "EXIF_ParseError" ∈ dom (<["EXIF_ParseError" := v]> m)).
  { intros m v. rewrite dom_insert_L. set_solver. }
  split; [|split; [|split; [|split; [|split; [|split;
    [|repeat split; vm_compute; reflexivity]]]]]].
  - intros payload m H. split; [|split].
    + apply png_chunk_bad_exif, H.
    + apply webp_chunk_bad_exif, H.
    + intros e4 e5. apply jpeg_segment_bad_exif, H.
  - intros r res Hmeets. rewrite SimpleExifParser_Parse_signed.
    destruct (jpeg_segments _ _ _ _) as [m| |] eqn:E; try discriminate. cbn [bind].
    assert (Hk : "EXIF_ParseError" ∈ dom m).
    { apply (jpeg_segments_meets _ jpeg_bad_exif_segment fuel) with (3 := E); [|exact Hmeets].
      intros mk seg m0 m' [-> (e4 & e5 & payload & -> & Hbad)].
      change (u8 xe1) with 225.
      rewrite (jpeg_segment_bad_exif _ _ _ _ _ Hbad). intros [= <-]. apply Hin. }
    rewrite (dom_elem_nonempty _ _ Hk). intros [= <-]. eauto.
  - intros rest res Hlen Hmeets E.
    apply (PNGParser_Parse_meets "EXIF_ParseError" png_bad_exif_chunk) in E;
      [exact E|exact Hlen|clear E|exact Hmeets].
    intros offset ty payload crc m s Hat [-> Hbad].
    rewrite (png_step_at _ _ _ _ _ _ _ Hlen Hat).
    change (string_of_list_byte (lit "eXIf")) with "eXIf".
    rewrite (png_chunk_bad_exif _ _ _ Hbad). cbn [bind].
    intros [= <-]. eexists. split; [reflexivity|apply Hin].
  - intros d4 d5 d6 d7 rest res data Hlen Hfs Hmeets. unfold data.
    rewrite WebPParser_Parse_signed.
    destruct (webp_chunks _ _ _ _ _ _) as [m| |] eqn:E; try discriminate. cbn [bind].
    assert (Hk : "EXIF_ParseError" ∈ dom m).
    { pose proof (le32_range d4 d5 d6 d7).
      apply (webp_chunks_meets _ webp_bad_exif_chunk fuel) with (6 := E);
        [exact Hlen|lia|exact Hfs| |exact Hmeets].
      intros id payload m0 m' [-> Hbad].
      change (string_of_list_byte (lit "EXIF")) with "EXIF".
      rewrite (webp_chunk_bad_exif _ _ _ Hbad). intros [= <-]. apply Hin. }
    rewrite (dom_elem_nonempty _ _ Hk). intros [= <-]. eauto.
  - intros chunks tail Hwf Hex Htail Hlen. rewrite PNGParser_Parse_signed.
    change 8 with (len pngSignature) at 1.
    rewrite (png_chunks_list fuel tail Htail chunks pngSignature);
      [|eapply Forall_impl; [exact Hwf|]; intros [[ty p] crc] (H1 & H2 & _); auto
       |exact Hlen|rewrite length_app; unfold len; lia].
    destruct (png_fold_returns fuel chunks) with (m := (∅ : ExifData))
      as (r & -> & _ & _ & He).
    { eapply Forall_impl; [exact Hwf|]. intros [[ty p] crc] (_ & _ & H3). exact H3. }
    specialize (He Hex). cbn [bind].
    rewrite (dom_elem_nonempty _ _ He). eauto.
  - intros size chunks tail data Hwf Hex Hsize Htail. unfold data. clear data.
    pose proof (len_nonneg (concat (map webp_chunk_bytes chunks))) as Hc0.
    unfold le32_bytes. rewrite WebPParser_Parse_signed.
    rewrite (le32_bytes_value size) by lia.
    set (pre := lit "RIFF" ++ [byte_of_Z size; byte_of_Z (size / 2 ^ 8);
                               byte_of_Z (size / 2 ^ 16); byte_of_Z (size / 2 ^ 24)]
                ++ lit "WEBP").
    replace (lit "RIFF" ++ _ ++ lit "WEBP" ++ concat (map webp_chunk_bytes chunks) ++ tail)
      with (pre ++ concat (map webp_chunk_bytes chunks) ++ tail)
      by (unfold pre; rewrite <- !app_assoc; reflexivity).
    intros Hlen. change 12 with (len pre).
    rewrite (webp_chunks_list fuel tail size ltac:(lia) ltac:(lia) chunks pre);
      [|eapply Forall_impl; [exact Hwf|]; intros [id p] [H1 _]; exact H1
       |exact Hlen|change (len pre) with 12; lia|change (len pre) with 12; lia
       |rewrite length_app; unfold len; lia].
    destruct (webp_fold_returns fuel chunks) with (m := (∅ : ExifData))
      as (r & -> & _ & He).
    { eapply Forall_impl; [exact Hwf|]. intros [id p] [_ H2]. exact H2. }
    specialize (He Hex). cbn [bind].
    rewrite (dom_elem_nonempty _ _ He). eauto.
Qed.

(** ** One ASCII tag through the three containers *)

Lemma lxor_range (a b n : Z) :
  0 <= a < 2 ^ n -> 0 <= b < 2 ^ n -> 0 <= Z.lxor a b < 2 ^ n.
Proof.
  intros Ha Hb. assert (Hnn : 0 <= Z.lxor a b) by (apply Z.lxor_nonneg; lia).
  split; [exact Hnn|].
  destruct (Z.eq_dec (Z.lxor a b) 0) as [->|Hne]; [lia|].
  assert (Hn : 0 < n).
  { destruct (Z_lt_le_dec 0 n) as [|Hle]; [assumption|]. exfalso.
    assert (2 ^ n <= 1).
    { destruct (Z.eq_dec n 0) as [->|]; [cbn; lia|]. rewrite Z.pow_neg_r; lia. }
    assert (a = 0) by lia. assert (b = 0) by lia. subst. apply Hne. reflexivity. }
  apply Z.log2_lt_pow2; [lia|].
  eapply Z.le_lt_trans; [apply Z.log2_lxor; lia|].
  apply Z.max_lub_lt.
  - destruct (Z.eq_dec a 0) as [->|]; [cbn; lia|apply Z.log2_lt_pow2; lia].
  - destruct (Z.eq_dec b 0) as [->|]; [cbn; lia|apply Z.log2_lt_pow2; lia].
Qed.

Lemma crc32_bit_range (c : Z) : 0 <= c < 2 ^ 32 -> 0 <= crc32_bit c < 2 ^ 32.
Proof.
  intros Hc. unfold crc32_bit.
  assert (0 <= Z.shiftr c 1 < 2 ^ 32).
  { rewrite Z.shiftr_div_pow2 by lia. change (2 ^ 1) with 2.
    pose proof (Z.div_mod c 2 ltac:(lia)). pose proof (Z.mod_pos_bound c 2 ltac:(lia)). lia. }
  destruct (Z.testbit c 0); [apply lxor_range; lia|assumption].
Qed.

Lemma crc32_update_range (crc : Z) (b : byte) :
  0 <= crc < 2 ^ 32 -> 0 <= crc32_update crc b < 2 ^ 32.
Proof.
  intros Hc. unfold crc32_update. cbn [Nat.iter].
  repeat apply crc32_bit_range.
  apply lxor_range; [exact Hc|]. pose proof (u8_range b). lia.
Qed.

(** The CRC-32 is a 32-bit number. *)
Lemma ChecksumIEEE_range (data : list byte) : 0 <= ChecksumIEEE data < 2 ^ 32.
Proof.
  unfold ChecksumIEEE. apply lxor_range; [|lia].
  assert (H : forall crc, 0 <= crc < 2 ^ 32 ->
                          0 <= fold_left crc32_update data crc < 2 ^ 32).
  { induction data as [|b data IH]; intros crc Hc; cbn [fold_left]; [exact Hc|].
    apply IH, crc32_update_range, Hc. }
  apply H. lia.
Qed.

Lemma string_of_list_byte_nonempty (l : list byte) :
  l <> [] -> string_of_list_byte l <> EmptyString.
Proof. destruct l; [contradiction|discriminate]. Qed.

(** The tags of the table are 16-bit numbers. *)
Lemma tag_name_Store_range (tag : Z) (name : string) :
  tag_name tag = Store name -> 0 <= tag < 2 ^ 16.
Proof.
  unfold tag_name.
  repeat (match goal with
          | |- (if ?a =? ?b then Store _ else _) = _ -> _ =>
              destruct (Z.eqb_spec a b) as [->|_];
              [intros _; vm_compute; split; [discriminate|reflexivity]|]
          end).
  destruct (_ =? _); discriminate.
Qed.

Ltac sliced v :=
  nowrap;
  rewrite slice_in_range by lia;
  match goal with
  | |- context [bind (Ret ?t) _] => change t with v
  end;
  cbn [bind].

Lemma ParseTIFF_ascii_entry (fuel : nat) (tag : Z) (name : string) (text : list byte)
    (m : ExifData) :
  tag_name tag = Store name ->
  4 < len text < 2 ^ 31 - 26 ->
  TrimRight0 text <> [] ->
  ParseTIFF (S fuel) (tiff_ascii_entry tag text) m =
    Ret (<[name := string_of_list_byte (TrimRight0 text)]> m, None).
Proof.
  intros Hname Hlen Htrim.
  pose proof (tag_name_Store_range tag name Hname) as Htag.
  set (t0 := byte_of_Z tag). set (t1 := byte_of_Z (tag / 2 ^ 8)).
  set (c0 := byte_of_Z (len text)). set (c1 := byte_of_Z (len text / 2 ^ 8)).
  set (c2 := byte_of_Z (len text / 2 ^ 16)). set (c3 := byte_of_Z (len text / 2 ^ 24)).
  set (head := [x49; x49; x2a; x00; x08; x00; x00; x00; x01; x00; t0; t1; x02; x00;
                c0; c1; c2; c3; x1a; x00; x00; x00; x00; x00; x00; x00]).
  set (data := tiff_ascii_entry tag text).
  assert (Hdata : data = head ++ text) by reflexivity.
  assert (Hl : len data = 26 + len text) by (rewrite Hdata, len_app; reflexivity).
  unfold ParseTIFF.
  replace (len data <? 8) with false by (symmetry; apply Z.ltb_ge; lia).
  rewrite (index_nth data 0 x49), (index_nth data 1 x49) by (reflexivity || lia).
  cbn [bind]. change ((u8 x49 =? 73) && (u8 x49 =? 73)) with true. cbv iota.
  sliced [x08; x00; x00; x00].
  change (Uint32 LittleEndian [x08; x00; x00; x00]) with (Ret 8).
  cbn [bind parseIFD]. unfold parseIFD_body. nowrap.
  replace (8 + 2 >? len data) with false
    by (symmetry; rewrite Z.gtb_ltb; apply Z.ltb_ge; lia).
  sliced [x01; x00].
  change (Uint16 LittleEndian [x01; x00]) with (Ret 1).
  cbn [bind]. change (Z.to_nat 1) with 1%nat. cbn [ifd_entries]. cbv zeta. nowrap.
  replace (8 + 2 + 0 * 12 + 12 >? len data) with false
    by (symmetry; rewrite Z.gtb_ltb; apply Z.ltb_ge; lia).
  sliced [t0; t1].
  change (Uint16 LittleEndian [t0; t1])
    with (Ret (Z.lor (u8 t0) (Z.shiftl (u8 t1) 8))).
  cbn [bind]. unfold t0, t1 at 1. rewrite (be16_value tag Htag).
  sliced [x02; x00].
  change (Uint16 LittleEndian [x02; x00]) with (Ret 2). cbn [bind].
  sliced [c0; c1; c2; c3].
  change (Uint32 LittleEndian [c0; c1; c2; c3]) with (Ret (le32 c0 c1 c2 c3)).
  cbn [bind]. unfold c0, c1, c2, c3 at 1. rewrite (le32_bytes_value (len text)) by lia.
  unfold parseTag, tag_value. change (2 =? 2) with true. cbv iota.
  replace (len text <=? 4) with false by (symmetry; apply Z.leb_gt; lia).
  sliced [x1a; x00; x00; x00].
  change (Uint32 LittleEndian [x1a; x00; x00; x00]) with (Ret 26). cbn [bind].
  cbv zeta. nowrap.
  replace (26 + len text <=? len data) with true by (symmetry; apply Z.leb_le; lia).
  rewrite (slice_at data head text [] 26 (26 + len text))
    by (rewrite ?app_nil_r; reflexivity || exact Hdata).
  cbn [bind].
  replace (string_of_list_byte (TrimRight0 text) =? EmptyString)%string with false
    by (symmetry; apply String.eqb_neq, string_of_list_byte_nonempty, Htrim).
  rewrite Hname. reflexivity.
Qed.

Lemma len_tiff_ascii_entry (tag : Z) (text : list byte) :
  len (tiff_ascii_entry tag text) = 26 + len text.
Proof.
  change (tiff_ascii_entry tag text)
    with ([x49; x49; x2a; x00; x08; x00; x00; x00; x01; x00] ++ le16_bytes tag ++
          [x02; x00] ++ le32_bytes (len text) ++ [x1a; x00; x00; x00] ++
          [x00; x00; x00; x00] ++ text).
  rewrite !len_app. unfold le16_bytes, le32_bytes. rewrite !len_cons, !len_nil. lia.
Qed.

Lemma jpeg_segment_exif fuel (e4 e5 : byte) payload m :
  jpeg_segment fuel 0xE1 (lit "Exif" ++ e4 :: e5 :: payload) m =
    ('(m', err) <- ParseTIFF fuel payload m;
     match err with
     | Some e => Ret (<["EXIF_ParseError" := e]> m')
     | None => Ret m'
     end).
Proof.
  unfold jpeg_segment. cbv zeta.
  change (225 =? 254) with false. change (225 =? 224) with false.
  change (225 =? 225) with true. cbv iota.
  set (seg := lit "Exif" ++ e4 :: e5 :: payload).
  assert (Hlen : len seg = 6 + len payload).
  { unfold seg. rewrite len_app, !len_cons. change (len (lit "Exif")) with 4. lia. }
  pose proof (len_nonneg payload).
  unfold has_prefix.
  replace (len seg >=? 6) with true by (symmetry; apply Z.geb_le; lia).
  rewrite (slice_at seg [] (lit "Exif") (e4 :: e5 :: payload)) by reflexivity.
  cbn [bind]. change (bytes_eqb (lit "Exif") (lit "Exif")) with true. cbv iota.
  unfold slice_from. rewrite Hlen.
  rewrite (slice_at seg (lit "Exif" ++ [e4; e5]) payload [])
    by (unfold seg; rewrite <- ?app_assoc, ?app_nil_r; reflexivity).
  reflexivity.
Qed.

(** X20: one ASCII tag, three containers, one answer.  A little-endian
    TIFF block whose single directory entry is an ASCII tag of the table
    with a text of more than 4 bytes stored behind the directory, wrapped
    as the APP1 "Exif" segment of a JPEG, as the [eXIf] chunk of a PNG or
    as the [EXIF] chunk of a WebP, makes [ParseImage] return the same map:
    the tag's name with the text, trailing NUL bytes trimmed, and nothing
    else. *)
Theorem ParseImage_exif_ascii_round_trip (fuel : nat) (tag : Z) (name : string)
    (text tail : list byte) :
  tag_name tag = Store name ->
  4 < len text <= 65000 ->
  TrimRight0 text <> [] ->
  let tiff := tiff_ascii_entry tag text in
  let result := Ret (Success {[ name := string_of_list_byte (TrimRight0 text) ]}) in
  ParseImage (S fuel) (jpeg_with_exif tiff tail) = result /\
  ParseImage (S fuel) (png_with_exif tiff) = result /\
  ParseImage (S fuel) (webp_with_exif tiff) = result.
Proof.
  intros Hname Hlen Htrim tiff result.
  pose proof (ParseTIFF_ascii_entry fuel tag name text ∅ Hname ltac:(lia) Htrim) as Htiff.
  fold tiff in Htiff.
  pose proof (len_tiff_ascii_entry tag text) as Hl. fold tiff in Hl.
  pose proof (len_nonneg tail) as Htail.
  assert (Hne : bool_decide (<[name := string_of_list_byte (TrimRight0 text)]> ∅
                             = (∅ : ExifData)) = false).
  { apply (dom_elem_nonempty name), elem_of_dom. rewrite lookup_insert_eq. eauto. }
  repeat split.
  - set (payload := lit "Exif" ++ x00 :: x00 :: tiff).
    assert (Hp : len payload = 6 + len tiff).
    { unfold payload. rewrite len_app, !len_cons. change (len (lit "Exif")) with 4. lia. }
    change (jpeg_with_exif tiff tail)
      with (xff :: xd8 :: xff :: xe1 :: be16 (len payload + 2) ++ payload ++ xff :: xda :: tail).
    rewrite ParseImage_jpeg
      by (rewrite len_cons, !len_app, !len_cons; change (len (be16 (len payload + 2))) with 2;
          lia).
    unfold ExifParser_Parse.
    replace (xff :: xe1 :: be16 (len payload + 2) ++ payload ++ xff :: xda :: tail)
      with (concat (map jpeg_segment_bytes [(xe1, payload)]) ++ xff :: xda :: tail)
      by (cbn [map concat]; rewrite app_nil_r; unfold jpeg_segment_bytes;
          cbn [fst snd app]; rewrite <- app_assoc; reflexivity).
    rewrite SimpleExifParser_Parse_signed.
    rewrite (jpeg_segments_list (S fuel) tail [(xe1, payload)]).
    + cbn [jpeg_fold]. change (u8 xe1) with 225. unfold payload.
      rewrite jpeg_segment_exif, Htiff. cbn [bind]. rewrite Hne. reflexivity.
    + constructor; [|constructor]. cbn [fst snd]. split; [vm_compute; discriminate|lia].
    + cbn [length]. lia.
  - unfold png_with_exif.
    rewrite ParseImage_png
      by (rewrite len_png_chunk_bytes by reflexivity; lia).
    rewrite PNGParser_Parse_signed.
    set (c := (lit "eXIf", tiff, ChecksumIEEE (lit "eXIf" ++ tiff))).
    replace (pngSignature ++ png_chunk_bytes c)
      with (pngSignature ++ concat (map png_chunk_bytes [c]) ++ [])
      by (cbn [map concat]; rewrite !app_nil_r; reflexivity).
    change 8 with (len pngSignature) at 1.
    rewrite (png_chunks_list (S fuel) [] ltac:(rewrite len_nil; lia) [c] pngSignature).
    + unfold c. cbn [png_fold]. rewrite Z.eqb_refl. cbn [negb].
      change (png_chunk (S fuel) (string_of_list_byte (lit "eXIf")) tiff ∅)
        with ('(m', err) <- ParseTIFF (S fuel) tiff ∅;
              match err with
              | Some e => Ret (<["EXIF_ParseError" := e]> m')
              | None => Ret m'
              end).
      rewrite Htiff. cbn [bind]. rewrite Hne. reflexivity.
    + constructor; [|constructor]. unfold c.
      split; [reflexivity|apply ChecksumIEEE_range].
    + cbn [map concat]. rewrite !app_nil_r, len_app. unfold c.
      rewrite len_png_chunk_bytes by reflexivity.
      change (len pngSignature) with 8. lia.
    + rewrite length_app. unfold len. lia.
  - unfold webp_with_exif. cbv zeta.
    set (c := (lit "EXIF", tiff)).
    assert (Hc : len (webp_chunk_bytes c) =
                 8 + len tiff + (if len tiff mod 2 =? 1 then 1 else 0))
      by (apply len_webp_chunk_bytes; reflexivity).
    assert (Hc' : 8 + len tiff <= len (webp_chunk_bytes c) <= 9 + len tiff)
      by (rewrite Hc; destruct (_ =? 1); lia).
    unfold le32_bytes. rewrite ParseImage_webp, WebPParser_Parse_signed.
    rewrite (le32_bytes_value (4 + len (webp_chunk_bytes c))) by lia.
    set (size := 4 + len (webp_chunk_bytes c)).
    set (pre := lit "RIFF" ++ [byte_of_Z size; byte_of_Z (size / 2 ^ 8);
                               byte_of_Z (size / 2 ^ 16); byte_of_Z (size / 2 ^ 24)]
                ++ lit "WEBP").
    replace (lit "RIFF" ++ _ ++ lit "WEBP" ++ webp_chunk_bytes c)
      with (pre ++ concat (map webp_chunk_bytes [c]) ++ [])
      by (unfold pre; cbn [map concat]; rewrite <- !app_assoc, !app_nil_r; reflexivity).
    change 12 with (len pre).
    rewrite (webp_chunks_list (S fuel) [] size ltac:(lia) ltac:(lia) [c] pre).
    + unfold c. cbn [webp_fold].
      change (webp_chunk (S fuel) (string_of_list_byte (lit "EXIF")) tiff ∅)
        with ('(m', err) <- ParseTIFF (S fuel) tiff ∅;
              match err with
              | Some e => Ret (<["EXIF_ParseError" := e]> m')
              | None => Ret m'
              end).
      rewrite Htiff. cbn [bind]. rewrite Hne. reflexivity.
    + constructor; [|constructor]. reflexivity.
    + cbn [map concat]. rewrite !app_nil_r, len_app. change (len pre) with 12. lia.
    + cbn [map concat]. rewrite app_nil_r. change (len pre) with 12. lia.
    + left. rewrite len_nil. lia.
    + rewrite length_app. unfold len. lia.
Qed.

(** ** Buffers detected as TIFF *)

Lemma DetectFormat_tiff_bytes (data : list byte) :
  DetectFormat data = FormatTIFF ->
  exists rest, data = x49 :: x49 :: rest \/ data = x4d :: x4d :: rest.
Proof.
  unfold DetectFormat. intros H.
  destruct (len data <? 12) eqn:Hlen; [discriminate|].
  apply Z.ltb_ge in Hlen.
  destruct data as [|b0 [|b1 rest]];
    try (rewrite ?len_cons, ?len_nil in Hlen; lia).
  exists rest.
  unfold byte_at_is in H; cbn [nth_error] in H.
  destruct ((u8 b0 =? 255) && (u8 b1 =? 216) && _) eqn:E1; [discriminate|].
  destruct (_ || _) eqn:E2; [clear H|repeat destruct (_ && _) in H; discriminate].
  apply orb_true_iff in E2 as [E2|E2];
    apply andb_true_iff in E2 as [E2 _];
    apply andb_true_iff in E2 as [E2 _];
    apply andb_true_iff in E2 as [E2 E2'];
    apply Z.eqb_eq in E2, E2'.
  - left. rewrite (u8_inj b0 x49 E2), (u8_inj b1 x49 E2'). reflexivity.
  - right. rewrite (u8_inj b0 x4d E2), (u8_inj b1 x4d E2'). reflexivity.
Qed.

(** X21: no buffer detected as TIFF is ever decoded.  The registry sends
    TIFF to the JPEG/TIFF decoder, whose first step is the JPEG header
    check; a TIFF byte order mark fails it, so the answer is always the
    error "not a valid JPEG file" with the mark in hexadecimal, "49 49" or
    "4D 4D".  The TIFF walker is reached through a container only. *)
Theorem ParseImage_tiff_never_decoded (fuel : nat) (data : list byte) :
  DetectFormat data = FormatTIFF ->
  ParseImage fuel data = Ret (Failure (Errorf "not a valid JPEG file (header: 49 49)")) \/
  ParseImage fuel data = Ret (Failure (Errorf "not a valid JPEG file (header: 4D 4D)")).
Proof.
  intros H. unfold ParseImage. rewrite H. cbn [GetParser Parse].
  destruct (DetectFormat_tiff_bytes data H) as (rest & [->| ->]); [left|right];
    unfold ExifParser_Parse, SimpleExifParser_Parse; rewrite reader_Read_2; reflexivity.
Qed.

(** ** The PNG international text chunk *)

Lemma slice_from_at (s pre x : list byte) (lo : Z) :
  s = pre ++ x -> lo = len pre -> slice_from s lo = Ret x.
Proof.
  intros -> ->. unfold slice_from.
  apply (slice_at _ pre x []); [rewrite app_nil_r; reflexivity|reflexivity|].
  rewrite len_app. reflexivity.
Qed.

Lemma slice_to_at (s x post : list byte) (hi : Z) :
  s = x ++ post -> hi = len x -> slice_to s hi = Ret x.
Proof.
  intros -> ->. unfold slice_to. apply (slice_at _ [] x post); reflexivity.
Qed.

Lemma append_assoc (a b c : string) : (a +:+ b) +:+ c = a +:+ (b +:+ c).
Proof.
  induction a as [|x a IH]; [reflexivity|].
  change (String x ((a +:+ b) +:+ c) = String x (a +:+ (b +:+ c))).
  f_equal. exact IH.
Qed.

(** X22: [parseITXt] splits its chunk at the NUL after the keyword, the two
    bytes after it (compression flag and method), and the NULs after the
    language tag and the translated keyword.  For parts without NUL the
    text is stored under "PNG_<keyword>", followed by the language tag and
    the translated keyword in parentheses when they are not empty.  With
    flag 1 and method 0 the text goes through zlib first and a text that
    does not inflate is skipped without an error; with any other flag or
    method the bytes are stored as they are, an empty text included. *)
Theorem parseITXt_round_trip (keyword languageTag translatedKeyword text : list byte)
    (compressionFlag compressionMethod : byte) (m : ExifData) :
  ~ In x00 keyword -> ~ In x00 languageTag -> ~ In x00 translatedKeyword ->
  let data := keyword ++ [x00; compressionFlag; compressionMethod] ++
              languageTag ++ [x00] ++ translatedKeyword ++ [x00] ++ text in
  let key := itxt_key (string_of_list_byte keyword) (string_of_list_byte languageTag)
               (string_of_list_byte translatedKeyword) in
  parseITXt data m =
    if (u8 compressionFlag =? 1) && (u8 compressionMethod =? 0)
    then match zlib_inflate text with
         | Some inflated => Ret (<[key := string_of_list_byte inflated]> m)
         | None => Ret m
         end
    else Ret (<[key := string_of_list_byte text]> m).
Proof.
  intros Hkw Hlang Htrans data key.
  set (remaining' := translatedKeyword ++ x00 :: text).
  set (remaining := languageTag ++ x00 :: remaining').
  assert (Hdata : data = keyword ++ x00 :: compressionFlag :: compressionMethod :: remaining)
    by reflexivity.
  pose proof (len_nonneg keyword). pose proof (len_nonneg languageTag).
  pose proof (len_nonneg translatedKeyword). pose proof (len_nonneg remaining).
  assert (Hlen : len data = len keyword + 3 + len remaining)
    by (rewrite Hdata, len_app, !len_cons; lia).
  assert (Hnp1 : IndexByte data x00 = len keyword)
    by (rewrite Hdata; apply IndexByte_app, Hkw).
  assert (Hnp2 : IndexByte remaining x00 = len languageTag)
    by (apply IndexByte_app, Hlang).
  assert (Hnp3 : IndexByte remaining' x00 = len translatedKeyword)
    by (apply IndexByte_app, Htrans).
  unfold parseITXt. cbv zeta. rewrite !Hnp1.
  replace ((len keyword <? 0) || (len keyword + 2 >=? len data)) with false.
  2:{ symmetry. apply orb_false_iff. split; [apply Z.ltb_ge; lia|].
      rewrite Z.geb_leb. apply Z.leb_gt. lia. }
  rewrite (slice_to_at data keyword (x00 :: compressionFlag :: compressionMethod :: remaining))
    by (reflexivity || exact Hdata).
  cbn [bind].
  rewrite (index_at data (keyword ++ [x00]) (compressionMethod :: remaining) compressionFlag)
    by (rewrite <- ?app_assoc, ?len_app, ?len_cons, ?len_nil; (exact Hdata || lia)).
  rewrite (index_at data (keyword ++ [x00; compressionFlag]) remaining compressionMethod)
    by (rewrite <- ?app_assoc, ?len_app, ?len_cons, ?len_nil; (exact Hdata || lia)).
  cbn [bind].
  rewrite (slice_from_at data (keyword ++ [x00; compressionFlag; compressionMethod]) remaining)
    by (rewrite <- ?app_assoc, ?len_app, ?len_cons, ?len_nil; (exact Hdata || lia)).
  cbn [bind]. rewrite !Hnp2.
  replace (len languageTag <? 0) with false by (symmetry; apply Z.ltb_ge; lia).
  rewrite (slice_to_at remaining languageTag (x00 :: remaining')) by reflexivity.
  cbn [bind].
  rewrite (slice_from_at remaining (languageTag ++ [x00]) remaining')
    by (rewrite <- ?app_assoc, ?len_app, ?len_cons, ?len_nil; (reflexivity || lia)).
  cbn [bind]. rewrite !Hnp3.
  replace (len translatedKeyword <? 0) with false by (symmetry; apply Z.ltb_ge; lia).
  rewrite (slice_to_at remaining' translatedKeyword (x00 :: text)) by reflexivity.
  cbn [bind].
  rewrite (slice_from_at remaining' (translatedKeyword ++ [x00]) text)
    by (rewrite <- ?app_assoc, ?len_app, ?len_cons, ?len_nil; (reflexivity || lia)).
  cbn [bind].
  assert (Hkey :
    (if negb (string_of_list_byte languageTag =? EmptyString)%string
        || negb (string_of_list_byte translatedKeyword =? EmptyString)%string
     then
       ("PNG_" +:+ string_of_list_byte keyword) +:+ " (" +:+
       join_details
         ((if negb (string_of_list_byte translatedKeyword =? EmptyString)%string
           then (if negb (string_of_list_byte languageTag =? EmptyString)%string
                 then [] ++ ["lang:" +:+ string_of_list_byte languageTag] else [])
                ++ ["translated:" +:+ string_of_list_byte translatedKeyword]
           else (if negb (string_of_list_byte languageTag =? EmptyString)%string
                 then [] ++ ["lang:" +:+ string_of_list_byte languageTag] else []))) +:+ ")"
     else "PNG_" +:+ string_of_list_byte keyword) = key).
  { unfold key, itxt_key.
    destruct (string_of_list_byte languageTag), (string_of_list_byte translatedKeyword);
      cbn [String.eqb negb orb app join_details fold_left]; try reflexivity;
      rewrite ?append_assoc; reflexivity. }
  destruct ((u8 compressionFlag =? 1) && (u8 compressionMethod =? 0));
    [destruct (zlib_inflate text)|]; try reflexivity; rewrite <- Hkey; reflexivity.
Qed.

(** ** The reader over a byte slice *)

(** X23: [readerAt.ReadAt] keeps the contract of [io.ReaderAt].  The
    buffer keeps its length and the count is between 0 and that length.
    The error is nil exactly when the offset lies inside the data and the
    whole buffer fits between the offset and the end of the data; the
    buffer then holds exactly [data[off : off+len(p)]] and the count is its
    length.  In every other case, a negative offset and a read across the
    end included, the error is [io.EOF]. *)
Theorem ReadAt_contract (data p : list byte) (off : Z) (p' : list byte) (n : Z)
    (eof : bool) :
  ReadAt data p off = (p', n, eof) ->
  len p' = len p /\
  0 <= n <= len p /\
  (eof = false <-> 0 <= off < len data /\ off + len p <= len data) /\
  (eof = false -> n = len p /\ slice data off (off + len p) = Ret p').
Proof.
  unfold ReadAt. pose proof (len_nonneg p) as Hp.
  destruct (Z.ltb_spec off 0) as [Hneg|Hpos]; cbn [orb].
  { intros [= <- <- <-]. repeat split; try lia; try discriminate. }
  rewrite Z.geb_leb. destruct (Z.leb_spec (len data) off) as [Hout|Hin].
  { intros [= <- <- <-]. repeat split; try lia; try discriminate. }
  set (src := skipn (Z.to_nat off) data).
  assert (Hsrc : len src = len data - off).
  { unfold src, len. rewrite length_drop. unfold len in Hin. lia. }
  set (k := Nat.min (length p) (length src)).
  intros [= <- <- <-].
  assert (Hlen : len (firstn k src ++ skipn k p) = len p).
  { unfold len. rewrite length_app, length_take, length_drop. lia. }
  assert (Hk : (k <? length p)%nat = false <-> off + len p <= len data).
  { rewrite Nat.ltb_ge. unfold k, len in *. lia. }
  split; [exact Hlen|].
  split; [unfold k, len in *; lia|].
  split; [split; [intros E; split; [lia|apply Hk, E]|intros [_ E]; apply Hk, E]|].
  intros E. apply Hk in E.
  assert (Hkp : k = length p) by (unfold k, len in *; lia).
  split; [unfold len; lia|].
  rewrite slice_in_range by lia.
  rewrite Hkp, skipn_all, app_nil_r. fold src.
  replace (Z.to_nat (off + len p - off)) with (length p) by (unfold len; lia).
  reflexivity.
Qed.

(** ** The compressed text chunk, and numbers in a directory *)

(** X24: [parseZTXt] splits its chunk at the first NUL byte; the byte after
    it is the compression method and the rest goes through zlib.  The
    inflated text is stored under "PNG_<keyword>".  A chunk with nothing
    after the method byte, a method other than 0 and a text that does not
    inflate all add nothing, and none of them is an error. *)
Theorem parseZTXt_cases (keyword compressed : list byte) (compressionMethod : byte)
    (m : ExifData) :
  ~ In x00 keyword ->
  parseZTXt (keyword ++ x00 :: compressionMethod :: compressed) m =
    match compressed with
    | [] => Ret m
    | _ :: _ =>
        if u8 compressionMethod =? 0 then
          match zlib_inflate compressed with
          | Some text =>
              Ret (<["PNG_" +:+ string_of_list_byte keyword := string_of_list_byte text]> m)
          | None => Ret m
          end
        else Ret m
    end.
Proof.
  intros Hkw. pose proof (len_nonneg keyword).
  set (data := keyword ++ x00 :: compressionMethod :: compressed).
  assert (Hlen : len data = len keyword + 2 + len compressed)
    by (unfold data; rewrite len_app, !len_cons; lia).
  unfold parseZTXt. cbv zeta.
  replace (IndexByte data x00) with (len keyword)
    by (symmetry; apply IndexByte_app, Hkw).
  destruct compressed as [|c compressed].
  - replace (len keyword + 2 >=? len data) with true; [rewrite orb_true_r; reflexivity|].
    symmetry. rewrite Z.geb_leb. apply Z.leb_le. rewrite Hlen, len_nil. lia.
  - set (rest := c :: compressed) in *.
    assert (0 < len rest) by (unfold rest; rewrite len_cons; pose proof (len_nonneg compressed); lia).
    replace ((len keyword <? 0) || (len keyword + 2 >=? len data)) with false.
    2:{ symmetry. apply orb_false_iff. split; [apply Z.ltb_ge; lia|].
        rewrite Z.geb_leb. apply Z.leb_gt. lia. }
    rewrite (slice_to_at data keyword (x00 :: compressionMethod :: rest)) by reflexivity.
    cbn [bind].
    rewrite (index_at data (keyword ++ [x00]) rest compressionMethod)
      by (unfold data; rewrite <- ?app_assoc, ?len_app, ?len_cons, ?len_nil;
          (reflexivity || lia)).
    cbn [bind]. destruct (u8 compressionMethod =? 0); cbn [negb]; [|reflexivity].
    rewrite (slice_from_at data (keyword ++ [x00; compressionMethod]) rest)
      by (unfold data; rewrite <- ?app_assoc, ?len_app, ?len_cons, ?len_nil;
          (reflexivity || lia)).
    reflexivity.
Qed.

Lemma fmt_d_nonempty (n : Z) : fmt_d n <> EmptyString.
Proof.
  unfold fmt_d.
  assert (H : N.to_uint (Z.to_N n) <> Decimal.Nil).
  { destruct (Z.to_N n) as [|p]; [discriminate|apply DecimalPos.Unsigned.to_uint_nonnil]. }
  destruct (N.to_uint (Z.to_N n)); [contradiction|discriminate..].
Qed.

(** X25: numbers in a directory.  A little-endian TIFF block whose single
    entry is a tag of the table with type SHORT and count 1 gives the
    tag's name with the 16-bit value in decimal, whatever the tag is (the
    type the tag should have is not checked).  With any other count the
    entry adds nothing and is no error: arrays of numbers are skipped. *)
Theorem ParseTIFF_short_entry (fuel : nat) (tag count v : Z) (name : string)
    (m : ExifData) :
  tag_name tag = Store name ->
  0 <= count < 2 ^ 32 ->
  0 <= v < 2 ^ 16 ->
  ParseTIFF (S fuel) (tiff_short_entry tag count v) m =
    Ret (if count =? 1 then <[name := fmt_d v]> m else m, None).
Proof.
  intros Hname Hcount Hv.
  pose proof (tag_name_Store_range tag name Hname) as Htag.
  set (t0 := byte_of_Z tag). set (t1 := byte_of_Z (tag / 2 ^ 8)).
  set (c0 := byte_of_Z count). set (c1 := byte_of_Z (count / 2 ^ 8)).
  set (c2 := byte_of_Z (count / 2 ^ 16)). set (c3 := byte_of_Z (count / 2 ^ 24)).
  set (v0 := byte_of_Z v). set (v1 := byte_of_Z (v / 2 ^ 8)).
  set (data := tiff_short_entry tag count v).
  assert (Hl : len data = 26) by reflexivity.
  unfold ParseTIFF.
  replace (len data <? 8) with false by (symmetry; apply Z.ltb_ge; lia).
  rewrite (index_nth data 0 x49), (index_nth data 1 x49) by (reflexivity || lia).
  cbn [bind]. change ((u8 x49 =? 73) && (u8 x49 =? 73)) with true. cbv iota.
  sliced [x08; x00; x00; x00].
  change (Uint32 LittleEndian [x08; x00; x00; x00]) with (Ret 8).
  cbn [bind parseIFD]. unfold parseIFD_body. nowrap.
  replace (8 + 2 >? len data) with false
    by (symmetry; rewrite Z.gtb_ltb; apply Z.ltb_ge; lia).
  sliced [x01; x00].
  change (Uint16 LittleEndian [x01; x00]) with (Ret 1).
  cbn [bind]. change (Z.to_nat 1) with 1%nat. cbn [ifd_entries]. cbv zeta. nowrap.
  replace (8 + 2 + 0 * 12 + 12 >? len data) with false
    by (symmetry; rewrite Z.gtb_ltb; apply Z.ltb_ge; lia).
  sliced [t0; t1].
  change (Uint16 LittleEndian [t0; t1])
    with (Ret (Z.lor (u8 t0) (Z.shiftl (u8 t1) 8))).
  cbn [bind]. unfold t0, t1 at 1. rewrite (be16_value tag Htag).
  sliced [x03; x00].
  change (Uint16 LittleEndian [x03; x00]) with (Ret 3). cbn [bind].
  sliced [c0; c1; c2; c3].
  change (Uint32 LittleEndian [c0; c1; c2; c3]) with (Ret (le32 c0 c1 c2 c3)).
  cbn [bind]. unfold c0, c1, c2, c3 at 1. rewrite (le32_bytes_value count Hcount).
  unfold parseTag, tag_value.
  change (3 =? 2) with false. change (3 =? 3) with true. cbv iota.
  destruct (count =? 1); cbn [bind String.eqb]; [|reflexivity].
  sliced [v0; v1].
  change (Uint16 LittleEndian [v0; v1])
    with (Ret (Z.lor (u8 v0) (Z.shiftl (u8 v1) 8))).
  cbn [bind]. unfold v0, v1. rewrite !(be16_value v Hv).
  replace (fmt_d v =? EmptyString)%string with false
    by (symmetry; apply String.eqb_neq, fmt_d_nonempty).
  rewrite Hname. reflexivity.
Qed.

(** ** Images that always give a field *)

Lemma elem_of_dom_insert (m : ExifData) (k v : string) : k ∈ dom (<[k := v]> m).
Proof. apply elem_of_dom. rewrite lookup_insert_eq. eauto. Qed.

Lemma parseIHDR_width (data : list byte) (m m' : ExifData) :
  13 <= len data -> parseIHDR data m = Ret m' -> "PNG_ImageWidth" ∈ dom m'.
Proof.
  intros Hlen. unfold parseIHDR.
  replace (len data <? 13) with false by (symmetry; apply Z.ltb_ge; exact Hlen).
  repeat (match goal with
          | |- bind ?c _ = _ -> _ => destruct c; cbn [bind]; try discriminate
          end).
  cbv zeta.
  destruct (colorTypes _); destruct (_ =? 0); try destruct (_ =? 1);
    intros [= <-]; apply elem_of_dom;
    repeat (rewrite lookup_insert_ne by discriminate);
    rewrite lookup_insert_eq; eauto.
Qed.

Lemma jpeg_segment_jfif fuel segmentData m m' :
  7 <= len segmentData -> firstn 5 segmentData = lit0 "JFIF" ->
  jpeg_segment fuel 0xE0 segmentData m = Ret m' -> "JFIF_Version" ∈ dom m'.
Proof.
  intros Hlen Hpre. unfold jpeg_segment. cbv zeta.
  change (224 =? 254) with false. change (224 =? 224) with true. cbv iota.
  rewrite (has_prefix_spec segmentData 5 (lit0 "JFIF")) by (vm_compute; discriminate).
  change (length (lit0 "JFIF")) with 5%nat. rewrite Hpre.
  replace (len segmentData >=? 5) with true by (symmetry; apply Z.geb_le; lia).
  change (bytes_eqb (lit0 "JFIF") (lit0 "JFIF")) with true. cbn [andb bind].
  destruct (index segmentData 5); cbn [bind]; try discriminate.
  destruct (index segmentData 6); cbn [bind]; try discriminate.
  intros [= <-]. apply elem_of_dom_insert.
Qed.

(** X26: a JPEG whose segments, read one after the other, hold a JFIF
    header (APP0, "JFIF\0" and at least the two version bytes) never gets
    the "no metadata" error: whenever the decoder returns, it returns a map
    that has the field "JFIF_Version", whatever the other segments hold. *)
Theorem SimpleExifParser_Parse_jfif (fuel : nat) (r : list byte) (res : parsed) :
  jpeg_walk_meets jpeg_jfif_segment r ->
  SimpleExifParser_Parse fuel (xff :: xd8 :: r) = Ret res ->
  exists m, res = Success m /\ "JFIF_Version" ∈ dom m.
Proof.
  intros Hmeets. rewrite SimpleExifParser_Parse_signed.
  destruct (jpeg_segments _ _ _ _) as [m| |] eqn:E; try discriminate. cbn [bind].
  assert (Hk : "JFIF_Version" ∈ dom m).
  { apply (jpeg_segments_meets _ jpeg_jfif_segment fuel) with (3 := E); [|exact Hmeets].
    intros mk seg m0 m' (-> & Hlen & Hpre). change (u8 xe0) with 224.
    apply jpeg_segment_jfif; assumption. }
  rewrite (dom_elem_nonempty _ _ Hk). intros [= <-]. eauto.
Qed.

(** X27: a PNG of fewer than 2^31 bytes, as every buffer of the 32-bit
    build is, whose chunks, read one after the other, hold an [IHDR] chunk
    of at least 13 bytes never gets the "no metadata" error: whenever the
    decoder returns, it returns a map that has the field "PNG_ImageWidth",
    whatever the other chunks hold and whether or not the checksums
    match. *)
Theorem PNGParser_Parse_ihdr (fuel : nat) (rest : list byte) (res : parsed) :
  len (pngSignature ++ rest) < 2 ^ 31 ->
  png_walk_meets png_ihdr_chunk (pngSignature ++ rest) 8 ->
  PNGParser_Parse fuel (pngSignature ++ rest) = Ret res ->
  exists m, res = Success m /\ "PNG_ImageWidth" ∈ dom m.
Proof.
  intros Hlen Hmeets E.
  apply (PNGParser_Parse_meets "PNG_ImageWidth" png_ihdr_chunk) in E;
    [exact E|exact Hlen|clear E|exact Hmeets].
  intros offset ty payload crc m s Hat [-> Hl].
  rewrite (png_step_at _ _ _ _ _ _ _ Hlen Hat).
  change (png_chunk fuel (string_of_list_byte (lit "IHDR")) payload ?m0)
    with (parseIHDR payload m0).
  destruct (parseIHDR payload _) as [m'| |] eqn:Eh; cbn [bind]; try discriminate.
  intros [= <-]. eexists. split; [reflexivity|].
  apply (parseIHDR_width payload _ m' Hl Eh).
Qed.

(** X28: a WebP of fewer than 2^31 bytes, as every buffer of the 32-bit
    build is, with a declared RIFF size below 2^31 - 8, so that the end of
    the walk, [fileSize + 8], is the one the loop computes, and whose
    chunks, read one after the other below that end, hold a chunk of image
    data ("VP8 " or "VP8L") never gets the "no metadata" error: whenever the
    decoder returns, it returns a map that has the field "WebP_Format". *)
Theorem WebPParser_Parse_image_chunk (fuel : nat) (d4 d5 d6 d7 : byte) (rest : list byte)
    (res : parsed) :
  let data := lit "RIFF" ++ [d4; d5; d6; d7] ++ lit "WEBP" ++ rest in
  len data < 2 ^ 31 ->
  le32 d4 d5 d6 d7 + 8 < 2 ^ 31 ->
  webp_walk_meets webp_image_chunk data (le32 d4 d5 d6 d7) 12 ->
  WebPParser_Parse fuel data = Ret res ->
  exists m, res = Success m /\ "WebP_Format" ∈ dom m.
Proof.
  intros data Hlen Hfs Hmeets. unfold data. rewrite WebPParser_Parse_signed.
  destruct (webp_chunks _ _ _ _ _ _) as [m| |] eqn:E; try discriminate. cbn [bind].
  assert (Hk : "WebP_Format" ∈ dom m).
  { pose proof (le32_range d4 d5 d6 d7).
    apply (webp_chunks_meets _ webp_image_chunk fuel) with (6 := E);
      [exact Hlen|lia|exact Hfs| |exact Hmeets].
    intros id payload m0 m' [-> | ->]; intros [= <-]; apply elem_of_dom_insert. }
  rewrite (dom_elem_nonempty _ _ Hk). intros [= <-]. eauto.
Qed.

End Parsers.

(** * Instances at the sample buffers *)

Lemma DetectFormat_jpeg_needs_12_witness :
  DetectFormat jpeg_jfif_short = FormatJPEG /\
  DetectFormat [xff; xd8; xff] = FormatUnknown.
Proof.
  split.
  - apply (proj1 (DetectFormat_jpeg_needs_12 jpeg_jfif_short)).
    + vm_compute. discriminate.
    + reflexivity.
  - apply (proj2 (DetectFormat_jpeg_needs_12 [xff; xd8; xff])).
    reflexivity.
Defined.

Lemma ParseImage_png_half_signature_not_unsupported_witness :
  spec_known_signature png_half_signature = false /\
  (ParseImage zlib_reject f2_blank 0 png_half_signature =
     Ret (Failure (UnsupportedFormatError FormatUnknown)) \/
   (12 <= len png_half_signature /\
    firstn 4 png_half_signature = [x89; x50; x4e; x47] /\
    ParseImage zlib_reject f2_blank 0 png_half_signature =
      Ret (Failure (Errorf "not a valid PNG file")))).
Proof.
  assert (H : spec_known_signature png_half_signature = false) by reflexivity.
  split; [exact H|].
  exact (proj2 (proj2 (proj2
           (ParseImage_png_half_signature_not_unsupported zlib_reject f2_blank 0)))
           png_half_signature H).
Defined.

Lemma vp8x_canvas_is_raw_plus_one_witness :
  10 <= len vp8x_99_49 /\
  exists m',
    webp_chunk f2_blank 0 "VP8X" vp8x_99_49 ∅ = Ret m' /\
    m' !! "WebP_Canvas_Width" = Some "100" /\
    m' !! "WebP_Canvas_Height" = Some "50".
Proof.
  assert (Hlen : 10 <= len vp8x_99_49) by (vm_compute; discriminate).
  split; [exact Hlen|].
  destruct (vp8x_canvas_is_raw_plus_one f2_blank 0 vp8x_99_49 ∅ Hlen)
    as (c4 & c5 & c6 & c7 & c8 & c9 & m' & H4 & H5 & H6 & H7 & H8 & H9 & Hr & Hw & Hh).
  injection H4 as <-. injection H5 as <-. injection H6 as <-.
  injection H7 as <-. injection H8 as <-. injection H9 as <-.
  exists m'. split; [exact Hr|]. split; [exact Hw|exact Hh].
Defined.

Lemma png_text_bad_crc_meets : png_walk_meets crc_mismatch png_text_bad_crc 8.
Proof.
  apply (png_meets_here _ _ 8 (lit "tEXt") (lit0 "Comment" ++ lit "Hello") 0).
  - exists pngSignature, [x00; x00; x00; x0d], [x00; x00; x00; x00], [].
    repeat split; reflexivity.
  - vm_compute. discriminate.
Defined.

Lemma png_crc_mismatch_is_a_warning_witness :
  len png_text_bad_crc < 2 ^ 31 /\
  png_walk_meets crc_mismatch png_text_bad_crc 8 /\
  exists m,
    PNGParser_Parse zlib_reject f2_blank 0 png_text_bad_crc = Ret (Success m) /\
    "PNG_Warning" ∈ dom m.
Proof.
  assert (Hlen : len png_text_bad_crc < 2 ^ 31) by reflexivity.
  split; [exact Hlen|]. split; [exact png_text_bad_crc_meets|].
  assert (E : PNGParser_Parse zlib_reject f2_blank 0 png_text_bad_crc =
              Ret (Success {[ "PNG_Comment" := "Hello";
                              "PNG_Warning" := "CRC mismatch for chunk tEXt" ]}))
    by (vm_compute; reflexivity).
  destruct (proj1 (proj2 (png_crc_mismatch_is_a_warning zlib_reject f2_blank 0))
              _ _ Hlen png_text_bad_crc_meets E) as (m & Hm & Hk).
  exists m. split; [rewrite E, Hm; reflexivity|exact Hk].
Defined.

Lemma jpeg_bad_exif_meets :
  jpeg_walk_meets jpeg_bad_exif_segment
    ([xff; xe1; x00; x0b] ++ lit0 "Exif" ++ [x00] ++ lit "abc").
Proof.
  apply (jpeg_meets_here _ _ xe1 (lit0 "Exif" ++ [x00] ++ lit "abc") []).
  - exists x00, x0b. repeat split; try reflexivity; vm_compute; discriminate.
  - split; [reflexivity|].
    exists x00, x00, (lit "abc"). split; [reflexivity|].
    left. vm_compute. reflexivity.
Defined.

Lemma png_bad_exif_meets : png_walk_meets png_bad_exif_chunk png_bad_exif 8.
Proof.
  apply (png_meets_here _ _ 8 (lit "eXIf") (lit "abc") 0x25F43C91).
  - exists pngSignature, [x00; x00; x00; x03], [x25; xf4; x3c; x91], [].
    repeat split; reflexivity.
  - split; [reflexivity|]. left. vm_compute. reflexivity.
Defined.

Lemma webp_bad_exif_meets :
  webp_walk_meets webp_bad_exif_chunk webp_bad_exif (le32 x10 x00 x00 x00) 12.
Proof.
  apply (webp_meets_here _ _ _ 12 (lit "EXIF") (lit "abc")).
  - exists (lit "RIFF" ++ [x10; x00; x00; x00] ++ lit "WEBP"), [x00], x03, x00, x00, x00.
    repeat split; reflexivity.
  - vm_compute. reflexivity.
  - split; [reflexivity|]. left. vm_compute. reflexivity.
Defined.

Lemma exif_parse_error_is_a_field_witness :
  len png_bad_exif < 2 ^ 31 /\ len webp_bad_exif < 2 ^ 31 /\
  le32 x10 x00 x00 x00 + 8 < 2 ^ 31 /\
  (exists m, SimpleExifParser_Parse f2_blank 0 jpeg_bad_exif = Ret (Success m) /\
             "EXIF_ParseError" ∈ dom m) /\
  (exists m, PNGParser_Parse zlib_reject f2_blank 0 png_bad_exif = Ret (Success m) /\
             "EXIF_ParseError" ∈ dom m) /\
  (exists m, WebPParser_Parse f2_blank 0 webp_bad_exif = Ret (Success m) /\
             "EXIF_ParseError" ∈ dom m).
Proof.
  destruct (exif_parse_error_is_a_field zlib_reject f2_blank 0)
    as (_ & Hjpeg & Hpng & Hwebp & _).
  assert (Hlp : len png_bad_exif < 2 ^ 31) by reflexivity.
  assert (Hlw : len webp_bad_exif < 2 ^ 31) by reflexivity.
  assert (Hfs : le32 x10 x00 x00 x00 + 8 < 2 ^ 31) by reflexivity.
  split; [exact Hlp|]. split; [exact Hlw|]. split; [exact Hfs|].
  assert (Ej : SimpleExifParser_Parse f2_blank 0 jpeg_bad_exif =
               Ret (Success {[ "EXIF_ParseError" := "TIFF header too short" ]}))
    by (vm_compute; reflexivity).
  assert (Ep : PNGParser_Parse zlib_reject f2_blank 0 png_bad_exif =
               Ret (Success {[ "EXIF_ParseError" := "TIFF header too short" ]}))
    by (vm_compute; reflexivity).
  assert (Ew : WebPParser_Parse f2_blank 0 webp_bad_exif =
               Ret (Success {[ "EXIF_ParseError" := "TIFF header too short" ]}))
    by (vm_compute; reflexivity).
  split; [|split].
  - destruct (Hjpeg _ _ jpeg_bad_exif_meets Ej) as (m & Hm & Hk).
    exists m. split; [rewrite Ej, Hm; reflexivity|exact Hk].
  - destruct (Hpng _ _ Hlp png_bad_exif_meets Ep) as (m & Hm & Hk).
    exists m. split; [rewrite Ep, Hm; reflexivity|exact Hk].
  - destruct (Hwebp x10 x00 x00 x00 _ _ Hlw Hfs webp_bad_exif_meets Ew) as (m & Hm & Hk).
    exists m. split; [rewrite Ew, Hm; reflexivity|exact Hk].
Defined.

(** * Instances of the further properties *)

Lemma ParseImage_success_is_nonempty_witness :
  ParseImage zlib_reject f2_blank 0 png_text_after_iend =
    Ret (Success {[ "PNG_Comment" := "Hello" ]}) /\
  ({[ "PNG_Comment" := "Hello" ]} : ExifData) <> ∅.
Proof.
  assert (H : ParseImage zlib_reject f2_blank 0 png_text_after_iend =
              Ret (Success {[ "PNG_Comment" := "Hello" ]})) by (vm_compute; reflexivity).
  split; [exact H|].
  exact (ParseImage_success_is_nonempty zlib_reject f2_blank 0 png_text_after_iend _ H).
Defined.

Lemma ParseImage_unsupported_iff_witness :
  DetectFormat [] = FormatUnknown /\
  ParseImage zlib_reject f2_blank 0 [] =
    Ret (Failure (UnsupportedFormatError FormatUnknown)).
Proof.
  split; [reflexivity|].
  apply (proj2 (ParseImage_unsupported_iff zlib_reject f2_blank 0 [] FormatUnknown)).
  split; reflexivity.
Defined.

Lemma png_step_wrapped_length_panics_witness :
  0 <= 8 /\ 8 + 8 <= len png_wrapped_length /\ len png_wrapped_length < 2 ^ 31 /\
  slice png_wrapped_length 8 (8 + 4) = Ret [xff; xff; xff; xff] /\
  Uint32 BigEndian [xff; xff; xff; xff] = Ret 4294967295 /\
  2 ^ 31 <= 8 + 12 + 4294967295 /\
  8 + 12 + 4294967295 - 2 ^ 32 <= len png_wrapped_length /\
  png_step zlib_reject f2_blank 0 png_wrapped_length 8 ∅ = Panic /\
  ParseImage zlib_reject f2_blank 0 png_wrapped_length = Panic.
Proof.
  assert (H1 : 0 <= 8) by discriminate.
  assert (H2 : 8 + 8 <= len png_wrapped_length) by discriminate.
  assert (H3 : len png_wrapped_length < 2 ^ 31) by reflexivity.
  assert (H4 : slice png_wrapped_length 8 (8 + 4) = Ret [xff; xff; xff; xff])
    by reflexivity.
  assert (H5 : Uint32 BigEndian [xff; xff; xff; xff] = Ret 4294967295) by reflexivity.
  assert (H6 : 2 ^ 31 <= 8 + 12 + 4294967295) by discriminate.
  assert (H7 : 8 + 12 + 4294967295 - 2 ^ 32 <= len png_wrapped_length) by discriminate.
  split; [exact H1|]. split; [exact H2|]. split; [exact H3|]. split; [exact H4|].
  split; [exact H5|]. split; [exact H6|]. split; [exact H7|].
  exact (png_step_wrapped_length_panics zlib_reject f2_blank 0 png_wrapped_length 8
           [xff; xff; xff; xff] 4294967295 ∅ H1 H2 H3 H4 H5 H6 H7).
Defined.

Lemma ParseImage_png_half_signature_witness :
  8 <= len [x00; x00; x00; x00; x00; x00; x00; x00] /\
  firstn 4 [x00; x00; x00; x00; x00; x00; x00; x00] <> [x0d; x0a; x1a; x0a] /\
  DetectFormat ([x89; x50; x4e; x47] ++ [x00; x00; x00; x00; x00; x00; x00; x00])
    = FormatPNG /\
  ParseImage zlib_reject f2_blank 0
    ([x89; x50; x4e; x47] ++ [x00; x00; x00; x00; x00; x00; x00; x00]) =
    Ret (Failure (Errorf "not a valid PNG file")).
Proof.
  assert (H1 : 8 <= len [x00; x00; x00; x00; x00; x00; x00; x00])
    by (vm_compute; discriminate).
  assert (H2 : firstn 4 [x00; x00; x00; x00; x00; x00; x00; x00] <> [x0d; x0a; x1a; x0a])
    by (vm_compute; discriminate).
  split; [exact H1|]. split; [exact H2|].
  exact (ParseImage_png_half_signature zlib_reject f2_blank 0 _ H1 H2).
Defined.

Lemma GetParser_iff_SupportsFormat_witness :
  GetParser FormatPNG = Some PNGParser /\ SupportsFormat PNGParser FormatPNG = true.
Proof.
  split; [reflexivity|].
  apply (proj1 (GetParser_iff_SupportsFormat FormatPNG PNGParser)). reflexivity.
Defined.

Lemma ParseTIFF_error_iff_witness :
  bad_tiff_header (lit "abc") /\
  ParseTIFF f2_blank 0 (lit "abc") ∅ = Ret (∅, Some "TIFF header too short").
Proof.
  assert (H : bad_tiff_header (lit "abc")) by (left; vm_compute; reflexivity).
  split; [exact H|].
  apply (proj2 (ParseTIFF_error_iff f2_blank 0 (lit "abc") ∅ ∅ "TIFF header too short")).
  split; [exact H|]. split; reflexivity.
Defined.

Lemma ParseTIFF_adds_exif_fields_witness :
  ParseTIFF f2_blank 1 tiff_make_acme ∅ = Ret ({[ "Make" := "Acme" ]}, None) /\
  adds_exif_fields ∅ {[ "Make" := "Acme" ]} /\
  dom (∅ : ExifData) ⊆ dom ({[ "Make" := "Acme" ]} : ExifData).
Proof.
  assert (H : ParseTIFF f2_blank 1 tiff_make_acme ∅ = Ret ({[ "Make" := "Acme" ]}, None))
    by (vm_compute; reflexivity).
  split; [exact H|].
  exact (ParseTIFF_adds_exif_fields f2_blank 1 tiff_make_acme ∅ _ _ H).
Defined.

Lemma ParseTIFF_ifd_offset_beyond_buffer_witness :
  (Uint32 LittleEndian [x64; x00; x00; x00] = Ret 100 /\
   100 + 2 < 2 ^ 31 /\
   len [x49; x49; x2a; x00; x64; x00; x00; x00] < 100 + 2 /\
   ParseTIFF f2_blank 1 [x49; x49; x2a; x00; x64; x00; x00; x00] ∅ = Ret (∅, None)) /\
  (Uint32 LittleEndian [xff; xff; xff; x7f] = Ret 2147483647 /\
   2 ^ 31 - 2 <= 2147483647 /\
   ParseTIFF f2_blank 1 [x49; x49; x2a; x00; xff; xff; xff; x7f] ∅ = Panic).
Proof.
  assert (H1 : Uint32 LittleEndian [x64; x00; x00; x00] = Ret 100) by reflexivity.
  assert (H2 : 100 + 2 < 2 ^ 31) by reflexivity.
  assert (H3 : len [x49; x49; x2a; x00; x64; x00; x00; x00] < 100 + 2) by reflexivity.
  assert (H4 : Uint32 LittleEndian [xff; xff; xff; x7f] = Ret 2147483647) by reflexivity.
  assert (H5 : 2 ^ 31 - 2 <= 2147483647) by discriminate.
  split.
  - split; [exact H1|]. split; [exact H2|]. split; [exact H3|].
    exact (proj1 (ParseTIFF_ifd_offset_beyond_buffer f2_blank 0 LittleEndian x2a x00
                    x64 x00 x00 x00 [] 100 ∅ H1) H2 H3).
  - split; [exact H4|]. split; [exact H5|].
    exact (proj2 (ParseTIFF_ifd_offset_beyond_buffer f2_blank 0 LittleEndian x2a x00
                    xff xff xff x7f [] 2147483647 ∅ H4) H5).
Defined.

Lemma tiff_make_acme_has_no_pointer : ~ ifd_has_pointer tiff_make_acme LittleEndian 8.
Proof.
  intros (bn & n & i & b & H1 & H2 & Hi & H3 & H4).
  vm_compute in H1. injection H1 as <-.
  vm_compute in H2. injection H2 as <-.
  assert (i = 0) by lia. subst i.
  vm_compute in H3. injection H3 as <-.
  vm_compute in H4. discriminate H4.
Defined.

Lemma parseIFD_without_pointer_one_pass_witness :
  ~ ifd_has_pointer tiff_make_acme LittleEndian 8 /\
  ends (parseIFD f2_blank 1 tiff_make_acme 8 LittleEndian ∅) /\
  forall fuel,
    parseIFD f2_blank (S fuel) tiff_make_acme 8 LittleEndian ∅ =
    parseIFD f2_blank 1 tiff_make_acme 8 LittleEndian ∅.
Proof.
  split; [exact tiff_make_acme_has_no_pointer|].
  exact (parseIFD_without_pointer_one_pass f2_blank tiff_make_acme 8 LittleEndian ∅
           tiff_make_acme_has_no_pointer).
Defined.

Lemma jpeg_segment_panics_iff_witness :
  0xE0 <> 0xE1 /\
  len (lit0 "JFIF") < 7 /\
  firstn 5 (lit0 "JFIF") = lit0 "JFIF" /\
  jpeg_segment f2_blank 0 0xE0 (lit0 "JFIF") ∅ = Panic.
Proof.
  assert (H0 : 0xE0 <> 0xE1) by discriminate.
  assert (H1 : len (lit0 "JFIF") < 7) by reflexivity.
  assert (H2 : firstn 5 (lit0 "JFIF") = lit0 "JFIF") by reflexivity.
  split; [exact H0|]. split; [exact H1|]. split; [exact H2|].
  apply (proj2 (jpeg_segment_panics_iff f2_blank 0 0xE0 (lit0 "JFIF") ∅ H0)).
  split; [reflexivity|]. split; [exact H1|exact H2].
Defined.

Lemma SimpleExifParser_Parse_segments_witness :
  Forall (fun seg => u8 (fst seg) <> 0xDA /\ len (snd seg) <= 65533) [(xfe, lit "Hi")] /\
  SimpleExifParser_Parse f2_blank 0
    ([xff; xd8] ++ concat (map jpeg_segment_bytes [(xfe, lit "Hi")]) ++ [xff; xda] ++ []) =
  (exifData <- jpeg_fold f2_blank 0 [(xfe, lit "Hi")] ∅;
   Ret (finish "no metadata found in JPEG" exifData)).
Proof.
  assert (H : Forall (fun seg => u8 (fst seg) <> 0xDA /\ len (snd seg) <= 65533)
                [(xfe, lit "Hi")]).
  { constructor; [|constructor]. split; vm_compute; discriminate. }
  split; [exact H|].
  exact (SimpleExifParser_Parse_segments f2_blank 0 [(xfe, lit "Hi")] [] H).
Defined.

Lemma SimpleExifParser_Parse_comment_witness :
  len (lit "Hi") <= 65533 /\
  SimpleExifParser_Parse f2_blank 0
    ([xff; xd8] ++ jpeg_segment_bytes (xfe, lit "Hi") ++ [xff; xda] ++ [xff; xd9]) =
  Ret (Success {[ "JPEG_Comment" := "Hi" ]}).
Proof.
  assert (H : len (lit "Hi") <= 65533) by (vm_compute; discriminate).
  split; [exact H|].
  exact (SimpleExifParser_Parse_comment f2_blank 0 (lit "Hi") [xff; xd9] H).
Defined.

Lemma SimpleExifParser_Parse_cut_comment_witness :
  lit "Hi" <> [] /\
  len (lit "Hi") + 2 <= 10 /\
  SimpleExifParser_Parse f2_blank 0 ([xff; xd8; xff; xfe; x00; x0a] ++ lit "Hi") =
    Ret (Success {[ "JPEG_Comment" :=
           string_of_list_byte (lit "Hi" ++ [x00; x00; x00; x00; x00; x00]) ]}).
Proof.
  assert (H1 : lit "Hi" <> []) by discriminate.
  assert (H2 : len (lit "Hi") + 2 <= 10) by (vm_compute; discriminate).
  split; [exact H1|]. split; [exact H2|].
  exact (SimpleExifParser_Parse_cut_comment f2_blank 0 x00 x0a (lit "Hi") H1 H2).
Defined.

Lemma PNGParser_Parse_chunks_witness :
  Forall (fun '(chunkType, payload, crc) => len chunkType = 4 /\ 0 <= crc < 2 ^ 32)
    [(lit "tEXt", lit0 "Comment" ++ lit "Hello", 0x273E8120)] /\
  len [] < 8 /\
  len (pngSignature ++
       concat (map png_chunk_bytes [(lit "tEXt", lit0 "Comment" ++ lit "Hello", 0x273E8120)])
       ++ []) < 2 ^ 31 - 8 /\
  PNGParser_Parse zlib_reject f2_blank 0
    (pngSignature ++
     concat (map png_chunk_bytes [(lit "tEXt", lit0 "Comment" ++ lit "Hello", 0x273E8120)])
     ++ []) =
  (exifData <- png_fold zlib_reject f2_blank 0
                 [(lit "tEXt", lit0 "Comment" ++ lit "Hello", 0x273E8120)] ∅;
   Ret (finish "no metadata found in PNG" exifData)).
Proof.
  assert (H1 : Forall (fun '(chunkType, payload, crc) =>
                         len chunkType = 4 /\ 0 <= crc < 2 ^ 32)
                 [(lit "tEXt", lit0 "Comment" ++ lit "Hello", 0x273E8120)]).
  { constructor; [|constructor].
    split; [reflexivity|]. split; [discriminate|reflexivity]. }
  assert (H2 : len [] < 8) by reflexivity.
  assert (H3 : len (pngSignature ++
                    concat (map png_chunk_bytes
                              [(lit "tEXt", lit0 "Comment" ++ lit "Hello", 0x273E8120)])
                    ++ []) < 2 ^ 31 - 8) by reflexivity.
  split; [exact H1|]. split; [exact H2|]. split; [exact H3|].
  exact (PNGParser_Parse_chunks zlib_reject f2_blank 0 _ [] H1 H2 H3).
Defined.

Lemma lit_Comment_has_no_NUL : ~ In x00 (lit "Comment").
Proof.
  intros H. vm_compute in H.
  repeat (destruct H as [H|H]; [discriminate H|]). exact H.
Defined.

Lemma parseTEXt_round_trip_witness :
  ~ In x00 (lit "Comment") /\
  lit "Hello" <> [] /\
  parseTEXt (lit "Comment" ++ x00 :: lit "Hello") ∅ =
    Ret {[ "PNG_Comment" := "Hello" ]}.
Proof.
  assert (H : lit "Hello" <> []) by discriminate.
  split; [exact lit_Comment_has_no_NUL|]. split; [exact H|].
  exact (proj1 (parseTEXt_round_trip (lit "Comment") (lit "Hello") ∅
                  lit_Comment_has_no_NUL) H).
Defined.

Lemma parseIHDR_round_trip_witness :
  0 <= 640 < 2 ^ 32 /\
  0 <= 480 < 2 ^ 32 /\
  exists m',
    parseIHDR (be32 640 ++ be32 480 ++ [x08; x02; x00; x00; x00]) ∅ = Ret m' /\
    m' !! "PNG_ImageWidth" = Some "640" /\
    m' !! "PNG_ImageHeight" = Some "480".
Proof.
  assert (H1 : 0 <= 640 < 2 ^ 32) by (split; [discriminate|reflexivity]).
  assert (H2 : 0 <= 480 < 2 ^ 32) by (split; [discriminate|reflexivity]).
  split; [exact H1|]. split; [exact H2|].
  destruct (proj1 (parseIHDR_round_trip 640 480 x08 x02 x00 x00 x00 [] [] ∅ H1 H2))
    as (m' & Hm & Hw & Hh & _).
  exists m'. split; [exact Hm|]. split; [exact Hw|exact Hh].
Defined.

Lemma WebPParser_Parse_chunks_witness :
  Forall (fun '(chunkID, payload) => len chunkID = 4) [(lit "VP8X", vp8x_99_49)] /\
  4 + len (concat (map webp_chunk_bytes [(lit "VP8X", vp8x_99_49)])) <= 22 < 2 ^ 31 - 8 /\
  (len [x00; x01; x02] < 8 \/
   22 = 4 + len (concat (map webp_chunk_bytes [(lit "VP8X", vp8x_99_49)]))) /\
  len (lit "RIFF" ++ le32_bytes 22 ++ lit "WEBP" ++
       concat (map webp_chunk_bytes [(lit "VP8X", vp8x_99_49)]) ++ [x00; x01; x02])
    < 2 ^ 31 - 8 /\
  WebPParser_Parse f2_blank 0
    (lit "RIFF" ++ le32_bytes 22 ++ lit "WEBP" ++
     concat (map webp_chunk_bytes [(lit "VP8X", vp8x_99_49)]) ++ [x00; x01; x02]) =
  (exifData <- webp_fold f2_blank 0 [(lit "VP8X", vp8x_99_49)] ∅;
   Ret (finish "no metadata found in WebP file" exifData)).
Proof.
  assert (H1 : Forall (fun '(chunkID, payload) => len chunkID = 4)
                 [(lit "VP8X", vp8x_99_49)]).
  { constructor; [|constructor]. reflexivity. }
  assert (H2 : 4 + len (concat (map webp_chunk_bytes [(lit "VP8X", vp8x_99_49)])) <= 22
               < 2 ^ 31 - 8)
    by (split; [vm_compute; discriminate|reflexivity]).
  assert (H4 : len (lit "RIFF" ++ le32_bytes 22 ++ lit "WEBP" ++
                    concat (map webp_chunk_bytes [(lit "VP8X", vp8x_99_49)]) ++
                    [x00; x01; x02]) < 2 ^ 31 - 8) by reflexivity.
  assert (H3 : len [x00; x01; x02] < 8 \/
               22 = 4 + len (concat (map webp_chunk_bytes [(lit "VP8X", vp8x_99_49)])))
    by (left; reflexivity).
  split; [exact H1|]. split; [exact H2|]. split; [exact H3|]. split; [exact H4|].
  exact (WebPParser_Parse_chunks f2_blank 0 22 _ [x00; x01; x02] H1 H2 H3 H4).
Defined.

Lemma WebPParser_Parse_small_declared_size_witness :
  le32 x04 x00 x00 x00 <= 4 /\
  WebPParser_Parse f2_blank 0
    (lit "RIFF" ++ [x04; x00; x00; x00] ++ lit "WEBP" ++ lit "VP8X" ++
     [x0a; x00; x00; x00] ++ vp8x_99_49) =
    Ret (Failure (Errorf "no metadata found in WebP file")).
Proof.
  assert (H : le32 x04 x00 x00 x00 <= 4) by (vm_compute; discriminate).
  split; [exact H|].
  exact (WebPParser_Parse_small_declared_size f2_blank 0 x04 x00 x00 x00 _ H).
Defined.

Lemma ParseImage_exif_ascii_round_trip_witness :
  tag_name 0x010F = Store "Make" /\
  4 < len (lit "Canon") <= 65000 /\
  TrimRight0 (lit "Canon") <> [] /\
  ParseImage zlib_reject f2_blank 1
    (jpeg_with_exif (tiff_ascii_entry 0x010F (lit "Canon")) [xff; xd9]) =
    Ret (Success {[ "Make" := "Canon" ]}) /\
  ParseImage zlib_reject f2_blank 1 (png_with_exif (tiff_ascii_entry 0x010F (lit "Canon"))) =
    Ret (Success {[ "Make" := "Canon" ]}) /\
  ParseImage zlib_reject f2_blank 1 (webp_with_exif (tiff_ascii_entry 0x010F (lit "Canon"))) =
    Ret (Success {[ "Make" := "Canon" ]}).
Proof.
  assert (H1 : tag_name 0x010F = Store "Make") by reflexivity.
  assert (H2 : 4 < len (lit "Canon") <= 65000) by (split; [reflexivity|discriminate]).
  assert (H3 : TrimRight0 (lit "Canon") <> []) by discriminate.
  split; [exact H1|]. split; [exact H2|]. split; [exact H3|].
  exact (ParseImage_exif_ascii_round_trip zlib_reject f2_blank 0 0x010F "Make"
           (lit "Canon") [xff; xd9] H1 H2 H3).
Defined.

Lemma ParseImage_tiff_never_decoded_witness :
  DetectFormat tiff_make_acme = FormatTIFF /\
  (ParseImage zlib_reject f2_blank 1 tiff_make_acme =
     Ret (Failure (Errorf "not a valid JPEG file (header: 49 49)")) \/
   ParseImage zlib_reject f2_blank 1 tiff_make_acme =
     Ret (Failure (Errorf "not a valid JPEG file (header: 4D 4D)"))).
Proof.
  assert (H : DetectFormat tiff_make_acme = FormatTIFF) by reflexivity.
  split; [exact H|].
  exact (ParseImage_tiff_never_decoded zlib_reject f2_blank 1 tiff_make_acme H).
Defined.

Lemma lit_Title_has_no_NUL : ~ In x00 (lit "Title").
Proof.
  intros H. vm_compute in H.
  repeat (destruct H as [H|H]; [discriminate H|]). exact H.
Defined.

Lemma lit_en_has_no_NUL : ~ In x00 (lit "en").
Proof.
  intros H. vm_compute in H.
  repeat (destruct H as [H|H]; [discriminate H|]). exact H.
Defined.

Lemma nil_has_no_NUL : ~ In x00 [].
Proof. intros H. exact H. Defined.

Lemma parseITXt_round_trip_witness :
  ~ In x00 (lit "Title") /\ ~ In x00 (lit "en") /\ ~ In x00 [] /\
  parseITXt zlib_reject
    (lit "Title" ++ [x00; x00; x00] ++ lit "en" ++ [x00] ++ [] ++ [x00] ++ lit "Hi") ∅ =
    Ret {[ "PNG_Title (lang:en)" := "Hi" ]}.
Proof.
  split; [exact lit_Title_has_no_NUL|]. split; [exact lit_en_has_no_NUL|].
  split; [exact nil_has_no_NUL|].
  exact (parseITXt_round_trip zlib_reject (lit "Title") (lit "en") [] (lit "Hi") x00 x00 ∅
           lit_Title_has_no_NUL lit_en_has_no_NUL nil_has_no_NUL).
Defined.

Lemma ReadAt_contract_witness :
  ReadAt tiff_make_acme [x00; x00] 0 = ([x49; x49], 2, false) /\
  slice tiff_make_acme 0 (0 + len [x00; x00]) = Ret [x49; x49].
Proof.
  assert (H : ReadAt tiff_make_acme [x00; x00] 0 = ([x49; x49], 2, false)) by reflexivity.
  split; [exact H|].
  exact (proj2 (proj2 (proj2 (proj2
           (ReadAt_contract tiff_make_acme [x00; x00] 0 _ _ _ H))) eq_refl)).
Defined.

Lemma parseZTXt_cases_witness :
  ~ In x00 (lit "Comment") /\
  parseZTXt zlib_reject (lit "Comment" ++ x00 :: x00 :: [x78; x9c]) ∅ = Ret ∅.
Proof.
  split; [exact lit_Comment_has_no_NUL|].
  exact (parseZTXt_cases zlib_reject (lit "Comment") [x78; x9c] x00 ∅
           lit_Comment_has_no_NUL).
Defined.

Lemma ParseTIFF_short_entry_witness :
  tag_name 0x0112 = Store "Orientation" /\
  0 <= 1 < 2 ^ 32 /\
  0 <= 6 < 2 ^ 16 /\
  ParseTIFF f2_blank 1 (tiff_short_entry 0x0112 1 6) ∅ =
    Ret ({[ "Orientation" := "6" ]}, None).
Proof.
  assert (H1 : tag_name 0x0112 = Store "Orientation") by reflexivity.
  assert (H2 : 0 <= 1 < 2 ^ 32) by (split; [discriminate|reflexivity]).
  assert (H3 : 0 <= 6 < 2 ^ 16) by (split; [discriminate|reflexivity]).
  split; [exact H1|]. split; [exact H2|]. split; [exact H3|].
  exact (ParseTIFF_short_entry f2_blank 0 0x0112 1 6 "Orientation" ∅ H1 H2 H3).
Defined.

Lemma jpeg_jfif_meets :
  jpeg_walk_meets jpeg_jfif_segment ([xff; xe0; x00; x09] ++ lit0 "JFIF" ++ [x01; x02]).
Proof.
  apply (jpeg_meets_here _ _ xe0 (lit0 "JFIF" ++ [x01; x02]) []).
  - exists x00, x09. repeat split; try reflexivity; vm_compute; discriminate.
  - split; [reflexivity|]. split; [vm_compute; discriminate|reflexivity].
Defined.

Lemma SimpleExifParser_Parse_jfif_witness :
  jpeg_walk_meets jpeg_jfif_segment ([xff; xe0; x00; x09] ++ lit0 "JFIF" ++ [x01; x02]) /\
  exists m,
    SimpleExifParser_Parse f2_blank 0
      (xff :: xd8 :: [xff; xe0; x00; x09] ++ lit0 "JFIF" ++ [x01; x02]) = Ret (Success m) /\
    "JFIF_Version" ∈ dom m.
Proof.
  split; [exact jpeg_jfif_meets|].
  assert (E : SimpleExifParser_Parse f2_blank 0
                (xff :: xd8 :: [xff; xe0; x00; x09] ++ lit0 "JFIF" ++ [x01; x02]) =
              Ret (Success {[ "JFIF_Version" := "1.02" ]}))
    by (vm_compute; reflexivity).
  destruct (SimpleExifParser_Parse_jfif f2_blank 0 _ _ jpeg_jfif_meets E) as (m & Hm & Hk).
  exists m. split; [rewrite E, Hm; reflexivity|exact Hk].
Defined.

Lemma png_ihdr_meets :
  png_walk_meets png_ihdr_chunk
    (pngSignature ++ [x00; x00; x00; x0d] ++ lit "IHDR" ++
     (be32 640 ++ be32 480 ++ [x08; x02; x00; x00; x00]) ++ [x00; x00; x00; x00]) 8.
Proof.
  apply (png_meets_here _ _ 8 (lit "IHDR")
           (be32 640 ++ be32 480 ++ [x08; x02; x00; x00; x00]) 0).
  - exists pngSignature, [x00; x00; x00; x0d], [x00; x00; x00; x00], [].
    repeat split; reflexivity.
  - split; [reflexivity|]. vm_compute. discriminate.
Defined.

Lemma PNGParser_Parse_ihdr_witness :
  len (pngSignature ++ [x00; x00; x00; x0d] ++ lit "IHDR" ++
       (be32 640 ++ be32 480 ++ [x08; x02; x00; x00; x00]) ++ [x00; x00; x00; x00])
    < 2 ^ 31 /\
  png_walk_meets png_ihdr_chunk
    (pngSignature ++ [x00; x00; x00; x0d] ++ lit "IHDR" ++
     (be32 640 ++ be32 480 ++ [x08; x02; x00; x00; x00]) ++ [x00; x00; x00; x00]) 8 /\
  exists m,
    PNGParser_Parse zlib_reject f2_blank 0
      (pngSignature ++ [x00; x00; x00; x0d] ++ lit "IHDR" ++
       (be32 640 ++ be32 480 ++ [x08; x02; x00; x00; x00]) ++ [x00; x00; x00; x00])
      = Ret (Success m) /\
    "PNG_ImageWidth" ∈ dom m.
Proof.
  assert (Hlen : len (pngSignature ++ [x00; x00; x00; x0d] ++ lit "IHDR" ++
                      (be32 640 ++ be32 480 ++ [x08; x02; x00; x00; x00]) ++
                      [x00; x00; x00; x00]) < 2 ^ 31) by reflexivity.
  split; [exact Hlen|]. split; [exact png_ihdr_meets|].
  destruct (PNGParser_Parse zlib_reject f2_blank 0
              (pngSignature ++ [x00; x00; x00; x0d] ++ lit "IHDR" ++
               (be32 640 ++ be32 480 ++ [x08; x02; x00; x00; x00]) ++ [x00; x00; x00; x00]))
    as [res| |] eqn:E; [|vm_compute in E; discriminate E|vm_compute in E; discriminate E].
  destruct (PNGParser_Parse_ihdr zlib_reject f2_blank 0 _ res Hlen png_ihdr_meets E)
    as (m & -> & Hk).
  exists m. split; [reflexivity|exact Hk].
Defined.

Lemma webp_image_meets :
  webp_walk_meets webp_image_chunk
    (lit "RIFF" ++ [x0c; x00; x00; x00] ++ lit "WEBP" ++ lit "VP8 " ++ [x00; x00; x00; x00])
    (le32 x0c x00 x00 x00) 12.
Proof.
  apply (webp_meets_here _ _ _ 12 (lit "VP8 ") []).
  - exists (lit "RIFF" ++ [x0c; x00; x00; x00] ++ lit "WEBP"), [], x00, x00, x00, x00.
    repeat split; reflexivity.
  - vm_compute. reflexivity.
  - left. reflexivity.
Defined.

Lemma WebPParser_Parse_image_chunk_witness :
  len (lit "RIFF" ++ [x0c; x00; x00; x00] ++ lit "WEBP" ++ lit "VP8 " ++
       [x00; x00; x00; x00]) < 2 ^ 31 /\
  le32 x0c x00 x00 x00 + 8 < 2 ^ 31 /\
  webp_walk_meets webp_image_chunk
    (lit "RIFF" ++ [x0c; x00; x00; x00] ++ lit "WEBP" ++ lit "VP8 " ++ [x00; x00; x00; x00])
    (le32 x0c x00 x00 x00) 12 /\
  exists m,
    WebPParser_Parse f2_blank 0
      (lit "RIFF" ++ [x0c; x00; x00; x00] ++ lit "WEBP" ++ lit "VP8 " ++
       [x00; x00; x00; x00]) = Ret (Success m) /\
    "WebP_Format" ∈ dom m.
Proof.
  assert (Hlen : len (lit "RIFF" ++ [x0c; x00; x00; x00] ++ lit "WEBP" ++ lit "VP8 " ++
                      [x00; x00; x00; x00]) < 2 ^ 31) by reflexivity.
  assert (Hfs : le32 x0c x00 x00 x00 + 8 < 2 ^ 31) by reflexivity.
  split; [exact Hlen|]. split; [exact Hfs|]. split; [exact webp_image_meets|].
  destruct (WebPParser_Parse f2_blank 0
              (lit "RIFF" ++ [x0c; x00; x00; x00] ++ lit "WEBP" ++ lit "VP8 " ++
               [x00; x00; x00; x00]))
    as [res| |] eqn:E; [|vm_compute in E; discriminate E|vm_compute in E; discriminate E].
  destruct (WebPParser_Parse_image_chunk f2_blank 0 x0c x00 x00 x00 _ res Hlen Hfs
              webp_image_meets E) as (m & -> & Hk).
  exists m. split; [reflexivity|exact Hk].
Defined.
